(** * format: a shallow embedding of the printf-style formatting engine

    The development follows the C sources of the library:

    - [Full]   the full-tier [format.c] (flags [" +-#0!^"], base and grouping
               modifiers, length qualifiers, continuation, inline
               floating point support);
    - [Fp]     the stand-alone floating point unit [format_fp.c]
               ([radix_convert], [round_mantissa], [do_conv_efg]);
    - [Tiny]   [tinyformat.c];
    - [Micro]  [microformat.c];
    - [Mid]    the intermediate [format.c] (unsigned width and precision,
               centring without the MINUS bias);
    - [Legacy] the first [format.c] (one monolithic [do_conv]).

    Conventions.  The platform is LP64: [int] and [unsigned int] are 32 bits
    wide, [long], [size_t], [intmax_t], [ptrdiff_t] and pointers are 64 bits
    wide.  Machine integers are values of [Z]; every place where the C code
    narrows or wraps a value is written out with [to_int], [to_uint],
    [to_size_t] and friends.  C strings are lists of characters read up to the
    first NUL.  The variadic argument list is a list of typed values; reading
    past its end or at the wrong type is undefined behaviour in C and makes
    the embedded function return [None]. *)

From Stdlib Require Import ZArith List Ascii String Bool Lia.
Import ListNotations.
Local Open Scope Z_scope.

(** ** Machine integers *)

Definition wrapu (w z : Z) : Z := z mod 2 ^ w.
Definition wraps (w z : Z) : Z := (z + 2 ^ (w - 1)) mod 2 ^ w - 2 ^ (w - 1).

Definition to_uint   := wrapu 32.
Definition to_int    := wraps 32.
Definition to_size_t := wrapu 64.
Definition to_ulong  := wrapu 64.
Definition to_long   := wraps 64.
Definition to_ushort := wrapu 16.
Definition to_short  := wraps 16.
Definition to_uchar  := wrapu 8.
Definition to_schar  := wraps 8.

Definition INT_MAX : Z := 2147483647.
Definition EXBADFORMAT : Z := -1.

(** ** Characters and C strings *)

Definition code (c : ascii) : Z := Z.of_nat (nat_of_ascii c).
Definition chr (z : Z) : ascii := ascii_of_nat (Z.to_nat (z mod 256)).
Definition NUL : ascii := "000"%char.
Definition is_nul (c : ascii) : bool := Ascii.eqb c NUL.

Definition cstr := list ascii.
Definition str (s : string) : cstr := list_ascii_of_string s.

(** [*p] and [p + 1] on a C string.  The code never steps over the
    terminator, so the empty list stands for a pointer at the NUL. *)
Definition READ_CHAR (p : cstr) : ascii := hd NUL p.
Definition INC_VOID_PTR (p : cstr) : cstr := tl p.

Fixpoint strlen (s : cstr) : nat :=
  match s with
  | [] => O
  | c :: t => if is_nul c then O else Datatypes.S (strlen t)
  end.

(** [strchr(s, c)] as the offset of the first [c] in [s]. *)
Fixpoint STRCHR (s : cstr) (c : ascii) : option nat :=
  match s with
  | [] => None
  | d :: t => if Ascii.eqb d c then Some O
              else option_map Datatypes.S (STRCHR t c)
  end.

Definition ISDIGIT (c : ascii) : bool := (48 <=? code c) && (code c <=? 57).

Definition Zlen {A} (l : list A) : Z := Z.of_nat (List.length l).

Definition MAX (a b : Z) : Z := if a >? b then a else b.
Definition MIN (a b : Z) : Z := if a <? b then a else b.
Definition ABS (a : Z) : Z := if a <? 0 then - a else a.

(** ** Variadic arguments *)

Inductive arg : Type :=
| AInt (z : Z)                 (* int, unsigned int and promoted smaller types *)
| ALong (z : Z)                (* long, unsigned long, size_t, intmax_t, ptrdiff_t *)
| ADouble (bits : Z)           (* the IEEE-754 image of a double *)
| AStr (s : option cstr)       (* char *, [None] is the null pointer *)
| APtr (p : Z).                (* void *, 0 is the null pointer *)

(** ** The machine: sink, output log, argument cursor, [%n] stores *)

Record machine (S : Type) : Type := mkMachine {
  sink   : S;                     (* the opaque pointer handed to the consumer *)
  sent   : list (list ascii);     (* every run handed to the consumer, in order *)
  ap     : list arg;              (* the va_list cursor *)
  stores : list (Z * Z)           (* writes done by %n: (address, value) *)
}.
Arguments mkMachine {S}.
Arguments sink {S}.
Arguments sent {S}.
Arguments ap {S}.
Arguments stores {S}.

(** A C function run on the machine: [None] is undefined behaviour. *)
Definition M (S A : Type) : Type := machine S -> option (A * machine S).

Definition ret {S A} (a : A) : M S A := fun m => Some (a, m).
Definition bind {S A B} (c : M S A) (k : A -> M S B) : M S B :=
  fun m => match c m with
           | Some (a, m') => k a m'
           | None => None
           end.
Definition undef {S A} : M S A := fun _ => None.

Declare Scope c_scope.
Delimit Scope c_scope with C.
Notation "x <- c ;; k" := (bind c (fun x => k))
  (at level 61, c at next level, right associativity) : c_scope.
Notation "' pat <- c ;; k" := (bind c (fun x => match x with pat => k end))
  (at level 61, pat pattern, c at next level, right associativity) : c_scope.
Local Open Scope c_scope.

(** [va_arg(ap, T)] for the argument classes the library reads. *)
Definition va_next {S} : M S arg :=
  fun m => match ap m with
           | a :: rest => Some (a, mkMachine (sink m) (sent m) rest (stores m))
           | [] => None
           end.

Definition va_int {S} : M S Z :=
  a <- va_next ;; match a with AInt z => ret (to_int z) | _ => undef end.
Definition va_uint {S} : M S Z :=
  a <- va_next ;; match a with AInt z => ret (to_uint z) | _ => undef end.
Definition va_long {S} : M S Z :=
  a <- va_next ;;
  match a with ALong z | APtr z => ret (to_long z) | _ => undef end.
Definition va_ulong {S} : M S Z :=
  a <- va_next ;;
  match a with ALong z | APtr z => ret (to_ulong z) | _ => undef end.
Definition va_double {S} : M S Z :=
  a <- va_next ;; match a with ADouble b => ret (wrapu 64 b) | _ => undef end.
Definition va_str {S} : M S (option cstr) :=
  a <- va_next ;; match a with AStr s => ret s | _ => undef end.
Definition va_ptr {S} : M S Z :=
  a <- va_next ;; match a with APtr p => ret p | _ => undef end.

Definition store {S} (addr v : Z) : M S unit :=
  fun m => Some (tt, mkMachine (sink m) (sent m) (ap m) (stores m ++ [(addr, v)])).

(** Flag tests: [flags & bit]. *)
Definition has (flags bit : Z) : bool := negb (Z.land flags bit =? 0).
Definition clear (flags bit : Z) : Z := Z.land flags (Z.lnot bit).

(** The loop [for (...; uv; uv = next uv) { ++numWidth; buf[end - numWidth] = digit uv; }]
    that writes the digits of [uv] right to left.  The result is the buffer
    contents, most significant digit first. *)
Fixpoint digits_loop (fuel : nat) (digit : Z -> ascii) (next : Z -> Z)
         (uv : Z) (buf : list ascii) : list ascii :=
  match fuel with
  | O => buf
  | Datatypes.S fuel' =>
      if uv =? 0 then buf
      else digits_loop fuel' digit next (next uv) (digit uv :: buf)
  end.

(** * The full tier: [format.c] *)

Module Full.

(** Field flags. *)
Definition FSPACE      : Z := 1.
Definition FPLUS       : Z := 2.
Definition FMINUS      : Z := 4.
Definition FHASH       : Z := 8.
Definition FZERO       : Z := 16.
Definition FBANG       : Z := 32.
Definition FCARET      : Z := 64.
Definition F_IS_SIGNED : Z := 128.

(** [DOUBLE_QUAL(q)] is [(q) | 1]. *)
Definition DOUBLE_QUAL (q : ascii) : ascii := chr (Z.lor (code q) 1).

Definition MAXWIDTH : Z := 500.
Definition MAXPREC  : Z := 500.
Definition MAXBASE  : Z := 36.
Definition BUFLEN   : Z := 130.

Definition PAD_STRING_LEN : Z := 16.
Definition spaces : cstr := str "                ".
Definition zeroes : cstr := str "0000000000000000".

(** Floating point constants for 64-bit doubles. *)
Definition DEC_1P0        : Z := 1000000000000000.
Definition DEC_SIG_FIG    : Z := 16.
Definition BIN_EXP_WIDTH  : Z := 11.
Definition BIN_EXP_BIAS   : Z := 1023.
Definition BIN_MANT_WIDTH : Z := 52.
Definition BIN_SIGN_MASK  : Z := 1.
Definition BIN_SIGN_SHIFT : Z := 63.
Definition BIN_EXP_MASK   : Z := 2047.
Definition BIN_EXP_SHIFT  : Z := 52.
Definition BIN_MANT_MASK  : Z := 2 ^ 52 - 1.
Definition BIN_MANT_REG_TOP_BIT : Z := 2 ^ 63.
Definition BIN_MANT_LEFT_ALIGN  : Z := 12.

Definition DEC_FP_IS_NAN (m e : Z) : bool := (e =? INT_MAX) && negb (m =? 0).
Definition DEC_FP_IS_INF (m e : Z) : bool := (e =? INT_MAX) && (m =? 0).

(** [T_FormatSpec].  The grouping member holds the [len] bytes found at
    [ptr]; the pointer mode is always [NORMAL_PTR] in this build. *)
Record T_FormatSpec : Type := mkSpec {
  nChars   : Z;         (* unsigned int *)
  flags    : Z;         (* unsigned int *)
  width    : Z;         (* int *)
  prec     : Z;         (* int *)
  base     : Z;         (* int *)
  qual     : ascii;
  repchar  : ascii;
  grouping : cstr
}.

Definition set_flags (p : T_FormatSpec) (f : Z) : T_FormatSpec :=
  mkSpec (nChars p) f (width p) (prec p) (base p) (qual p) (repchar p) (grouping p).
Definition set_prec (p : T_FormatSpec) (v : Z) : T_FormatSpec :=
  mkSpec (nChars p) (flags p) (width p) v (base p) (qual p) (repchar p) (grouping p).
Definition set_width (p : T_FormatSpec) (v : Z) : T_FormatSpec :=
  mkSpec (nChars p) (flags p) v (prec p) (base p) (qual p) (repchar p) (grouping p).
Definition set_qual (p : T_FormatSpec) (q : ascii) : T_FormatSpec :=
  mkSpec (nChars p) (flags p) (width p) (prec p) (base p) q (repchar p) (grouping p).

(** The arguments of one [gen_out] call. *)
Record layout : Type := mkLayout {
  l_ps1   : Z;
  l_pfx_s : option cstr;
  l_pfx_n : Z;
  l_pz    : Z;
  l_e_s   : option cstr;
  l_e_n   : Z;
  l_ps2   : Z
}.

(** The bytes a call [cons(arg, s, n)] hands over. *)
Definition bytes (s : option cstr) (n : Z) : list ascii :=
  match s with
  | Some l => firstn (Z.to_nat n) l
  | None => []
  end.

Definition digits : cstr := str "0123456789ABCDEFGHIJKLMNOPQRSTUVWXYZ".
Definition digit_at (i : Z) : ascii := nth (Z.to_nat i) digits NUL.
Definition lower (c : ascii) : ascii := chr (Z.lor (code c) 32).

(** [calc_space_padding]: returns [(left, right)]. *)
Definition calc_space_padding (pspec : T_FormatSpec) (length : Z) : Z * Z :=
  let width := if length <? to_size_t (width pspec)
               then to_size_t (to_size_t (width pspec) - length) else 0 in
  let right := if has (flags pspec) FMINUS then width else 0 in
  let left  := if has (flags pspec) FMINUS then 0 else width in
  if has (flags pspec) FCARET then
    let tot   := to_size_t (left + right) in
    let left' := to_size_t (tot + (if has (flags pspec) FMINUS then 0 else 1)) / 2 in
    (left', to_size_t (tot - left'))
  else (left, right).

Section WithSink.

Variable S : Type.
(** The consumer function; [None] is its NULL (failure) return. *)
Variable cons : S -> list ascii -> option S.

(** [emit]: hand [n] bytes at [s] to the consumer. *)
Definition emit (s : option cstr) (n : Z) : M S Z :=
  fun m =>
    let run := bytes s n in
    match cons (sink m) run with
    | Some s' => Some (0, mkMachine s' (sent m ++ [run]) (ap m) (stores m))
    | None => Some (EXBADFORMAT, mkMachine (sink m) (sent m ++ [run]) (ap m) (stores m))
    end.

(** [if (c < 0) return EXBADFORMAT; k] *)
Definition orbad (c : M S Z) (k : M S Z) : M S Z :=
  r <- c ;; if r <? 0 then ret EXBADFORMAT else k.

(** [pad]: [while (n > 0) { j = MIN(PAD_STRING_LEN, n); emit(s, j); n -= j; }] *)
Fixpoint pad_loop (fuel : nat) (s : cstr) (n : Z) : M S Z :=
  match fuel with
  | O => ret 0
  | Datatypes.S fuel' =>
      if n >? 0 then
        let j := MIN PAD_STRING_LEN n in
        orbad (emit (Some s) j) (pad_loop fuel' s (to_size_t (n - j)))
      else ret 0
  end.

Definition pad (s : cstr) (n : Z) : M S Z := pad_loop (Z.to_nat n) s n.

(** [gen_out]: spaces, prefix, zeros, body, spaces. *)
Definition gen_out (ps1 : Z) (pfx_s : option cstr) (pfx_n : Z) (pz : Z)
           (e_s : option cstr) (e_n : Z) (ps2 : Z) : M S Z :=
  orbad (if ps1 =? 0 then ret 0 else pad spaces ps1)
  (let n := to_size_t (0 + ps1) in
   let has_pfx := match pfx_s with Some _ => negb (pfx_n =? 0) | None => false end in
   orbad (if has_pfx then emit pfx_s pfx_n else ret 0)
   (let n := if has_pfx then to_size_t (n + pfx_n) else n in
    orbad (if pz =? 0 then ret 0 else pad zeroes pz)
    (let n := to_size_t (n + pz) in
     orbad (if e_n =? 0 then ret 0 else emit e_s e_n)
     (let n := to_size_t (n + e_n) in
      orbad (if ps2 =? 0 then ret 0 else pad spaces ps2)
      (let n := to_size_t (n + ps2) in
       ret (to_int n)))))).

Definition gen_layout (l : layout) : M S Z :=
  gen_out (l_ps1 l) (l_pfx_s l) (l_pfx_n l) (l_pz l) (l_e_s l) (l_e_n l) (l_ps2 l).

(** [do_conv_n]: store the running count through the pointer argument. *)
Definition do_conv_n (pspec : T_FormatSpec) : M S Z :=
  vp <- va_ptr ;;
  if vp =? 0 then ret 0
  else
    let q := qual pspec in
    let v :=
      if Ascii.eqb q "h" then to_short (nChars pspec)
      else if Ascii.eqb q (DOUBLE_QUAL "h") then to_schar (nChars pspec)
      else if Ascii.eqb q "l" then to_long (nChars pspec)
      else if Ascii.eqb q "j" then to_long (nChars pspec)
      else if Ascii.eqb q "z" then to_size_t (nChars pspec)
      else if Ascii.eqb q "t" then to_long (nChars pspec)
      else to_int (nChars pspec) in
    _ <- store vp v ;; ret 0.

(** [do_conv_c]: [%c] and [%C]; the precision is a repetition count. *)
Fixpoint do_conv_c_loop (rep : nat) (cc : ascii) (n : Z) : M S Z :=
  match rep with
  | O => ret n
  | Datatypes.S rep' =>
      r <- gen_out 0 None 0 0 (Some [cc]) 1 0 ;;
      if r =? EXBADFORMAT then ret EXBADFORMAT
      else do_conv_c_loop rep' cc (to_int (n + r))
  end.

Definition do_conv_c (pspec : T_FormatSpec) (code : ascii) : M S Z :=
  cc <- (if Ascii.eqb code "c"
         then (v <- va_int ;; ret (chr v))
         else ret (repchar pspec)) ;;
  let prec := if prec pspec <? 0 then 1 else prec pspec in
  let rep := to_uint (MAX 1 prec) in
  do_conv_c_loop (Z.to_nat rep) cc 0.

(** [do_conv_s]: a null pointer prints as "(null)". *)
Definition do_conv_s (pspec : T_FormatSpec) (code : ascii) : M S Z :=
  a <- va_str ;;
  let s := match a with Some s => s | None => str "(null)" end in
  let length := Z.of_nat (strlen s) in
  let length := if prec pspec >=? 0
                then (if to_size_t (prec pspec) <? length
                      then to_size_t (prec pspec) else length)
                else length in
  let '(ps1, ps2) := calc_space_padding pspec length in
  gen_out ps1 None 0 0 (Some s) length ps2.

(** The digit scan of one group specification,
    [for (wid = 0, decade = 1; glen != 0 && (grp = *ptr) != 0 && ISDIGIT(grp);
          ptr--, --glen) { wid += decade * (grp - '0'); decade *= 10; }].
    [g] is the grouping string; [ptr] is [g + glen - 1] throughout. *)
Fixpoint group_width (fuel : nat) (g : cstr) (glen wid decade : Z) (grp : ascii)
  : Z * Z * ascii :=
  match fuel with
  | O => (glen, wid, grp)
  | Datatypes.S fuel' =>
      if glen =? 0 then (glen, wid, grp)
      else
        let c := nth (Z.to_nat (glen - 1)) g NUL in
        if negb (is_nul c) && ISDIGIT c then
          group_width fuel' g (glen - 1)
                      (to_int (wid + to_uint (decade * (code c - 48))))
                      (to_uint (decade * 10)) c
        else (glen, wid, c)
  end.

(** State of the grouping loop: remaining pattern length, current group
    width and separator, digits still to the left, the buffer from [idx] to
    its end, and the number of separators inserted. *)
Record grp_state : Type := mkGrp {
  g_glen : Z;
  g_wid  : Z;
  g_grp  : ascii;
  g_drem : Z;
  g_buf  : list ascii;
  g_ins  : Z
}.

Definition insert_sep (buf : list ascii) (k : Z) (grp : ascii) : list ascii :=
  firstn (Z.to_nat k) buf ++ grp :: skipn (Z.to_nat k) buf.

(** The tail of one iteration of [while (d_rem)]: [if (wid) {...} else if (!glen) break;].
    [inl] is "leave the loop", [inr] is "next iteration". *)
Definition group_insert (st : grp_state) : grp_state + grp_state :=
  if negb (g_wid st =? 0) then
    if g_drem st <=? to_size_t (g_wid st) then inl st
    else
      let k := to_size_t (g_drem st - g_wid st) in
      inr (mkGrp (g_glen st) (g_wid st) (g_grp st) k
                 (insert_sep (g_buf st) k (g_grp st)) (g_ins st + 1))
  else if g_glen st =? 0 then inl st
  else inr st.

Fixpoint group_loop (fuel : nat) (g : cstr) (st : grp_state) : M S grp_state :=
  match fuel with
  | O => ret st
  | Datatypes.S fuel' =>
      if g_drem st =? 0 then ret st
      else
        let continue st' :=
          match group_insert st' with
          | inl st'' => ret st''
          | inr st'' => group_loop fuel' g st''
          end in
        if negb (g_glen st =? 0) then
          let grp := nth (Z.to_nat (g_glen st - 1)) g NUL in
          let st0 := mkGrp (g_glen st) (g_wid st) grp (g_drem st) (g_buf st) (g_ins st) in
          if Ascii.eqb grp "-" then ret st0
          else if Ascii.eqb grp "*" then
            wid <- va_int ;;
            let st1 := mkGrp (g_glen st) wid grp (g_drem st) (g_buf st) (g_ins st) in
            if wid <? 0 then ret st1
            else
              let glen := g_glen st - 1 in
              if glen =? 0 then ret (mkGrp glen wid grp (g_drem st) (g_buf st) (g_ins st))
              else
                let sep := nth (Z.to_nat (glen - 1)) g NUL in
                continue (mkGrp (glen - 1) wid sep (g_drem st) (g_buf st) (g_ins st))
          else
            let '(glen, wid, grp') :=
              group_width (Z.to_nat (g_glen st)) g (g_glen st) 0 1 grp in
            if glen =? 0 then ret (mkGrp glen wid grp' (g_drem st) (g_buf st) (g_ins st))
            else
              let sep := nth (Z.to_nat (glen - 1)) g NUL in
              continue (mkGrp (glen - 1) wid sep (g_drem st) (g_buf st) (g_ins st))
        else continue st
  end.

(** The value, the prefix and the updated flags of a numeric conversion. *)
Definition numeric_value (pspec : T_FormatSpec) : M S (Z * ascii * Z * Z) :=
  let q := qual pspec in
  let wide := Ascii.eqb q "l" || Ascii.eqb q "j" || Ascii.eqb q "z" || Ascii.eqb q "t" in
  if has (flags pspec) F_IS_SIGNED then
    v <- (if wide then va_long else va_int) ;;
    let v := if Ascii.eqb q "h" then to_short v else v in
    let v := if Ascii.eqb q (DOUBLE_QUAL "h") then to_schar v else v in
    let uv := to_ulong (if v <? 0 then to_long (- v) else v) in
    let p0 := if v <? 0 then "-"%char
              else if has (flags pspec) FPLUS then "+"%char
              else if has (flags pspec) FSPACE then " "%char
              else NUL in
    if negb (is_nul p0)
    then ret (uv, p0, 1, Z.lor (flags pspec) FHASH)
    else ret (uv, p0, 0, flags pspec)
  else
    uv <- (if wide then va_ulong else va_uint) ;;
    let uv := if Ascii.eqb q "h" then to_ushort uv else uv in
    let uv := if Ascii.eqb q (DOUBLE_QUAL "h") then to_uchar uv else uv in
    ret (uv, "0"%char, 0, flags pspec).

(** The digits of [uv] in [base], as left in [numBuffer]. *)
Definition numeric_digits (code : ascii) (base uv : Z) : list ascii :=
  if base =? 10 then
    digits_loop 64 (fun uv => chr (48 + uv mod 10)) (fun uv => uv / 10) uv []
  else if (base =? 2) || (base =? 8) || (base =? 16) then
    let mask := to_uint (base - 1) in
    let shift := if base =? 16 then 4 else if base =? 8 then 3 else 1 in
    digits_loop 64
      (fun uv => let cc := digit_at (Z.land uv mask) in
                 if Ascii.eqb code "x" || Ascii.eqb code "i" || Ascii.eqb code "u"
                 then lower cc else cc)
      (fun uv => Z.shiftr uv shift) uv []
  else
    digits_loop 64
      (fun uv => let cc := digit_at (uv mod base) in
                 if Ascii.eqb code "i" || Ascii.eqb code "u"
                 then lower cc else cc)
      (fun uv => uv / base) uv [].

(** [do_conv_numeric] up to its final [gen_out] call. *)
Definition numeric_layout (pspec : T_FormatSpec) (code : ascii) (base : Z)
  : M S layout :=
  '(uv, p0, pfxWidth, flags1) <- numeric_value pspec ;;
  let pfxWidth := if Ascii.eqb code "o" && negb (uv =? 0) then 1 else pfxWidth in
  let is_xb := Ascii.eqb code "x" || Ascii.eqb code "X" || Ascii.eqb code "b" in
  let p1 := if is_xb && (has flags1 FBANG || negb (uv =? 0)) then code else NUL in
  let pfxWidth := if is_xb && (has flags1 FBANG || negb (uv =? 0)) then 2 else pfxWidth in
  let p1 := if is_xb && has flags1 FBANG then lower p1 else p1 in
  let prefix := [p0; p1] in
  let length := if has flags1 FHASH then pfxWidth else 0 in
  let pfx_s := if has flags1 FHASH then Some prefix else None in
  let pfx_n := if has flags1 FHASH then pfxWidth else 0 in
  let buf := numeric_digits code base uv in
  let numWidth := Zlen buf in
  st <- (if negb (Zlen (grouping pspec) =? 0) then
           group_loop (Z.to_nat (numWidth + Zlen (grouping pspec) + 1)) (grouping pspec)
                      (mkGrp (Zlen (grouping pspec)) 0 NUL numWidth buf 0)
         else ret (mkGrp 0 0 NUL numWidth buf 0)) ;;
  let numWidth := to_size_t (numWidth + g_ins st) in
  let digitWidth := numWidth in
  let prec1 := if prec pspec <? 0 then 1 else prec pspec in
  let flags2 := if prec pspec <? 0 then flags1 else clear flags1 FZERO in
  let numWidth := MAX numWidth (to_size_t (to_size_t prec1 + g_ins st)) in
  let length := to_size_t (length + numWidth) in
  let '(ps1, ps2) :=
    calc_space_padding (set_prec (set_flags pspec flags2) prec1) length in
  let pz := to_size_t (numWidth - digitWidth) in
  let pz' := if has flags2 FZERO then to_size_t (pz + ps1) else pz in
  let ps1' := if has flags2 FZERO then 0 else ps1 in
  ret (mkLayout ps1' pfx_s pfx_n pz' (Some (g_buf st)) digitWidth ps2).

Definition do_conv_numeric (pspec : T_FormatSpec) (code : ascii) (base : Z) : M S Z :=
  l <- numeric_layout pspec code base ;; gen_layout l.


(** *** Floating point (CONFIG_WITH_FP_SUPPORT) *)

(** STEP 1 of [radix_convert]: accumulate the fractional bits. *)
Fixpoint radix_frac (fuel : nat) (bm dm inc : Z) : Z :=
  match fuel with
  | O => dm
  | Datatypes.S fuel' =>
      if bm =? 0 then dm
      else
        let dm := if negb (Z.land bm BIN_MANT_REG_TOP_BIT =? 0)
                  then wrapu 64 (dm + inc) else dm in
        radix_frac fuel' (wrapu 64 (Z.shiftl bm 1)) dm (wrapu 64 (inc + 1) / 2)
  end.

(** STEP 2, positive binary exponents. *)
Fixpoint radix_up (e : nat) (dm de : Z) : Z * Z :=
  match e with
  | O => (dm, de)
  | Datatypes.S e' =>
      let dm := wrapu 64 (dm * 2) in
      if dm >=? DEC_1P0 * 10
      then radix_up e' (wrapu 64 (dm + 5) / 10) (to_int (de + 1))
      else radix_up e' dm de
  end.

(** STEP 2, negative binary exponents. *)
Fixpoint radix_down (e : nat) (dm de : Z) : Z * Z :=
  match e with
  | O => (dm, de)
  | Datatypes.S e' =>
      let '(dm, de) := if dm <? DEC_1P0 * 2
                       then (wrapu 64 (dm * 10), to_int (de - 1))
                       else (dm, de) in
      radix_down e' (wrapu 64 (dm + 1) / 2) de
  end.

(** [radix_convert]: returns [(sign, mantissa, exponent)]. *)
Definition radix_convert (bits : Z) : Z * Z * Z :=
  let bm := Z.land bits BIN_MANT_MASK in
  let be := Z.land (Z.shiftr bits BIN_EXP_SHIFT) BIN_EXP_MASK in
  let bs := Z.land (Z.shiftr bits BIN_SIGN_SHIFT) BIN_SIGN_MASK in
  if be =? BIN_EXP_MASK then (bs, bm, INT_MAX)
  else if (bm =? 0) && (be =? 0) then (bs, 0, 0)
  else
    let dm := DEC_1P0 in
    let inc := (dm + 1) / 2 in
    let dm := radix_frac 64 (wrapu 64 (Z.shiftl bm BIN_MANT_LEFT_ALIGN)) dm inc in
    let be := be - BIN_EXP_BIAS in
    let '(dm, de) := radix_up (Z.to_nat be) dm 0 in
    let '(dm, de) := radix_down (Z.to_nat (- be)) dm de in
    (bs, dm, de).

(** First loop of [mant_to_char]: drop the unwanted low digits. *)
Fixpoint mant_drop (i : nat) (want_round : bool) (m : Z) : Z :=
  match i with
  | O => m
  | Datatypes.S i' =>
      mant_drop i' want_round
        (match i' with
         | O => if want_round then wrapu 64 (m + 5) / 10 else m / 10
         | _ => m / 10
         end)
  end.

(** Second loop of [mant_to_char]: write [i] digits right to left. *)
Fixpoint mant_digits (i : nat) (m : Z) (buf : list ascii) : list ascii :=
  match i with
  | O => buf
  | Datatypes.S i' => mant_digits i' (m / 10) (chr (48 + m mod 10) :: buf)
  end.

(** [mant_to_char] fills [char e_s[DEC_SIG_FIG]]; asking for more digits
    than the buffer holds, or for a negative number of them, writes outside
    the array. *)
Definition mant_to_char (m digits_total digits_to_convert : Z) (want_round : bool)
  : M S (list ascii) :=
  if (digits_to_convert <? 0) || (digits_to_convert >? DEC_SIG_FIG) then undef
  else ret (mant_digits (Z.to_nat digits_to_convert)
                        (mant_drop (Z.to_nat (digits_total - digits_to_convert))
                                   want_round m) []).

(** [for (sigfig = DEC_SIG_FIG; sigfig; sigfig--, mantissa /= 10)
        if (mantissa % 10) break;] *)
Fixpoint trim_zeros (sigfig : nat) (mantissa : Z) : Z * Z :=
  match sigfig with
  | O => (0, mantissa)
  | Datatypes.S s' =>
      if negb (mantissa mod 10 =? 0) then (Z.of_nat sigfig, mantissa)
      else trim_zeros s' (mantissa / 10)
  end.

(** [for (i = ABS(exponent), len = 0; i > 0; len++, i /= 10);] *)
Fixpoint exp_len (fuel : nat) (i len : Z) : Z :=
  match fuel with
  | O => len
  | Datatypes.S fuel' => if i >? 0 then exp_len fuel' (i / 10) (len + 1) else len
  end.

Definition sign_prefix (pspec : T_FormatSpec) (sign : Z) : cstr :=
  if negb (sign =? 0) then str "-"
  else if has (flags pspec) FPLUS then str "+"
  else if has (flags pspec) FSPACE then str " "
  else [].

Definition is_eg_lower (code : ascii) : bool :=
  Ascii.eqb code "f" || Ascii.eqb code "e" || Ascii.eqb code "g".
Definition is_g (code : ascii) : bool := Ascii.eqb code "g" || Ascii.eqb code "G".

(** [do_conv_infnan] *)
Definition do_conv_infnan (pspec : T_FormatSpec) (code : ascii)
           (sign mantissa exponent : Z) : M S Z :=
  let e_s := if DEC_FP_IS_NAN mantissa exponent
             then (if is_eg_lower code then str "nan" else str "NAN")
             else (if is_eg_lower code then str "inf" else str "INF") in
  let e_n := Z.of_nat (strlen e_s) in
  let pfx_s := sign_prefix pspec sign in
  let pfx_n := Z.of_nat (strlen pfx_s) in
  let '(ps1, ps2) := calc_space_padding pspec (to_size_t (e_n + pfx_n)) in
  gen_out ps1 (Some pfx_s) pfx_n 0 (Some e_s) e_n ps2.

(** [if (n == EXBADFORMAT) return n; count += n; k count] *)
Definition counted (count : Z) (c : M S Z) (k : Z -> M S Z) : M S Z :=
  n <- c ;; if n =? EXBADFORMAT then ret n else k (to_int (count + n)).

(** [do_conv_e] *)
Definition do_conv_e (pspec : T_FormatSpec) (code : ascii)
           (sign mantissa exponent : Z) : M S Z :=
  let prec := if prec pspec <? 0 then 6 else prec pspec in
  let prec := if is_g code && (prec =? 0) then 1 else prec in
  let pfx_s := sign_prefix pspec sign in
  let pfx_n := Z.of_nat (strlen pfx_s) in
  let '(sigfig, mantissa) :=
    if negb (mantissa =? 0) then trim_zeros (Z.to_nat DEC_SIG_FIG) mantissa
    else (0, mantissa) in
  let n_left := 1 in
  let n_right := MIN (MAX (sigfig - 1) 0) prec in
  let length := to_size_t (pfx_n + n_left + n_right) in
  let len_exp := MAX (exp_len 10 (ABS exponent) 0) 2 in
  let length := to_size_t (length + (1 + 1 + len_exp)) in
  let keep_zeros := negb (is_g code && negb (has (flags pspec) FHASH)) in
  let pz2 := if (prec >? n_right) && keep_zeros then to_size_t (prec - n_right) else 0 in
  let length := to_size_t (length + pz2) in
  let want_dp := negb (pz2 =? 0) || (n_right >? 0) || has (flags pspec) FHASH in
  let length := if want_dp then to_size_t (length + 1) else length in
  let '(ps1, ps2) := calc_space_padding (set_prec pspec prec) length in
  let pz1 := if has (flags pspec) FZERO then ps1 else 0 in
  let ps1 := if has (flags pspec) FZERO then 0 else ps1 in
  (* LEFT *)
  e_s <- mant_to_char mantissa sigfig n_left false ;;
  let e_n := n_left in
  let sigfig := to_int (sigfig - e_n) in
  counted 0 (gen_out ps1 (Some pfx_s) pfx_n pz1 (Some e_s) e_n 0) (fun count =>
  (* RIGHT *)
  e_s <- (if negb (n_right =? 0) then mant_to_char mantissa sigfig n_right true
          else ret e_s) ;;
  let e_n := if negb (n_right =? 0) then n_right else 0 in
  let pfx_s := if want_dp then Some (str ".") else None in
  let pfx_n := if want_dp then 1 else 0 in
  counted count (gen_out 0 pfx_s pfx_n 0 (Some e_s) e_n 0) (fun count =>
  (* Trailing zeros, if any *)
  counted count (gen_out 0 None 0 pz2 None 0 0) (fun count =>
  (* EXPONENT *)
  let epfx_s := [ if Ascii.eqb code "e" || Ascii.eqb code "g" then "e"%char else "E"%char;
                  if exponent <? 0 then "-"%char else "+"%char ] in
  let e_s := mant_digits (Z.to_nat len_exp) (ABS exponent) [] in
  let e_n := len_exp in
  counted count (gen_out 0 (Some epfx_s) 2 0 (Some e_s) e_n ps2) (fun count =>
  ret count)))).

(** [for (i = sigfig; i > n_left + n_right; i--, m /= 10);] *)
Fixpoint strip_extra (fuel : nat) (i bound m : Z) : Z :=
  match fuel with
  | O => m
  | Datatypes.S fuel' => if i >? bound then strip_extra fuel' (i - 1) bound (m / 10) else m
  end.

(** [for (; n_right > 0 && m % 10 == 0; m /= 10, n_right--);] *)
Fixpoint strip_trailing (fuel : nat) (n_right m : Z) : Z :=
  match fuel with
  | O => n_right
  | Datatypes.S fuel' =>
      if (n_right >? 0) && (m mod 10 =? 0)
      then strip_trailing fuel' (n_right - 1) (m / 10) else n_right
  end.

(** [do_conv_f] *)
Definition do_conv_f (pspec : T_FormatSpec) (code : ascii)
           (sign mantissa exponent : Z) : M S Z :=
  let prec := if prec pspec <? 0 then 6 else prec pspec in
  let prec := if is_g code && (prec =? 0) then 1 else prec in
  let pfx_s := sign_prefix pspec sign in
  let pfx_n := Z.of_nat (strlen pfx_s) in
  let '(sigfig, mantissa) :=
    if negb (mantissa =? 0) then trim_zeros (Z.to_nat DEC_SIG_FIG) mantissa
    else (0, mantissa) in
  let n_left := if exponent >? -1 then to_int (1 + exponent) else 0 in
  let n_right := MIN (MAX (to_int (sigfig - 1 - exponent)) 0) prec in
  let n_right :=
    if is_g code then
      let m := strip_extra (Z.to_nat sigfig) sigfig (to_int (n_left + n_right)) mantissa in
      strip_trailing (Z.to_nat n_right) n_right m
    else n_right in
  let length := to_size_t (pfx_n + n_left + n_right) in
  let pz1 := if n_left =? 0 then 1 else 0 in
  let length := if n_left =? 0 then to_size_t (length + 1) else length in
  let pz2 := if n_left >? sigfig then to_size_t (n_left - sigfig) else 0 in
  let pz3 := if (exponent <? -1) && (prec >? 0)
             then (let pz3 := to_size_t (-1 - exponent) in
                   if pz3 <? to_size_t prec then pz3 else to_size_t prec)
             else 0 in
  let length := to_size_t (length + pz3) in
  let keep_zeros := negb (is_g code && negb (has (flags pspec) FHASH)) in
  let lt := (to_size_t (pz3 + n_right) <? to_size_t prec) && keep_zeros in
  let gt := negb lt && (to_size_t (pz3 + n_right) >? to_size_t prec) in
  let pz4 := if lt then to_size_t (prec - pz3 - n_right) else 0 in
  let x := if gt then to_int (pz3 + n_right - prec) else 0 in
  let length := to_size_t (length + pz4 - x) in
  let n_right := to_int (n_right - x) in
  let want_dp := negb (pz3 =? 0) || negb (pz4 =? 0) || (n_right >? 0)
                 || has (flags pspec) FHASH in
  let length := if want_dp then to_size_t (length + 1) else length in
  let '(ps1, ps2) := calc_space_padding (set_prec pspec prec) length in
  let pz1 := if has (flags pspec) FZERO then to_size_t (pz1 + ps1) else pz1 in
  let ps1 := if has (flags pspec) FZERO then 0 else ps1 in
  (* LEFT *)
  e_s <- (if negb (n_left =? 0)
          then mant_to_char mantissa sigfig (to_int (to_size_t (n_left - pz2))) false
          else ret []) ;;
  let e_n := if negb (n_left =? 0) then to_size_t (to_int (to_size_t (n_left - pz2))) else 0 in
  let sigfig := to_int (sigfig - e_n) in
  counted 0 (gen_out ps1 (Some pfx_s) pfx_n pz1 (Some e_s) e_n 0) (fun count =>
  (* Add any zeros before DP *)
  counted count (gen_out 0 None 0 pz2 None 0 0) (fun count =>
  (* RIGHT *)
  e_s <- (if negb (n_right =? 0) then mant_to_char mantissa sigfig n_right true
          else ret e_s) ;;
  let e_n := if negb (n_right =? 0) then to_size_t n_right else 0 in
  let pfx_s := if want_dp then Some (str ".") else None in
  let pfx_n := if want_dp then 1 else 0 in
  counted count (gen_out 0 pfx_s pfx_n pz3 (Some e_s) e_n (if pz4 =? 0 then ps2 else 0))
  (fun count =>
  (* Trailing zeros, if any *)
  counted count (gen_out 0 None 0 pz4 None 0 ps2) (fun count =>
  ret count)))).

(** [do_conv_fp] *)
Definition do_conv_fp (pspec : T_FormatSpec) (code : ascii) : M S Z :=
  if Ascii.eqb (qual pspec) "L" then ret EXBADFORMAT
  else
    dv <- va_double ;;
    let '(sign, mantissa, exponent) := radix_convert dv in
    if DEC_FP_IS_NAN mantissa exponent || DEC_FP_IS_INF mantissa exponent then
      do_conv_infnan pspec code sign mantissa exponent
    else if Ascii.eqb code "e" || Ascii.eqb code "E" then
      do_conv_e pspec code sign mantissa exponent
    else if is_g code && ((exponent <? -4) || (exponent >=? prec pspec)) then
      do_conv_e pspec code sign mantissa exponent
    else
      do_conv_f pspec code sign mantissa exponent.


(** *** Dispatch and the template parser *)

(** [CONFIG_WITH_FP_SUPPORT] is defined (or not) at build time. *)
Variable CONFIG_WITH_FP_SUPPORT : bool.

Definition is_fp_code (code : ascii) : bool :=
  Ascii.eqb code "e" || Ascii.eqb code "E" || Ascii.eqb code "f"
  || Ascii.eqb code "F" || Ascii.eqb code "g" || Ascii.eqb code "G".

(** The rewriting of [%p] into ["%!#N.NX"], with [N = sizeof(int * ) * 2]. *)
Definition pointer_spec (pspec : T_FormatSpec) : T_FormatSpec :=
  mkSpec (nChars pspec) (Z.lor FHASH FBANG) 16 16 (base pspec) "l"%char
         (repchar pspec) (grouping pspec).

(** The numeric base selected by the conversion letter; 0 when there is none. *)
Definition numeric_base (pspec : T_FormatSpec) (code : ascii) : Z :=
  let b := 0 in
  let b := if Ascii.eqb code "d" || Ascii.eqb code "i" || Ascii.eqb code "I"
           then (if (Ascii.eqb code "i" || Ascii.eqb code "I")
                    && negb (base pspec =? 0)
                 then base pspec else 10)
           else b in
  let b := if Ascii.eqb code "x" || Ascii.eqb code "X" then 16 else b in
  let b := if Ascii.eqb code "u" || Ascii.eqb code "U"
           then (if negb (base pspec =? 0) then base pspec else 10)
           else b in
  let b := if Ascii.eqb code "o" then 8 else b in
  let b := if Ascii.eqb code "b" then 2 else b in
  b.

(** [do_conv] *)
Definition do_conv (pspec : T_FormatSpec) (code : ascii) : M S Z :=
  if Ascii.eqb code "n" then do_conv_n pspec
  else if Ascii.eqb code "%" then gen_out 0 None 0 0 (Some [code]) 1 0
  else if Ascii.eqb code "c" || Ascii.eqb code "C" then do_conv_c pspec code
  else if Ascii.eqb code "s" then do_conv_s pspec code
  else if CONFIG_WITH_FP_SUPPORT && is_fp_code code then do_conv_fp pspec code
  else
    let pspec := if Ascii.eqb code "p" then pointer_spec pspec else pspec in
    let code := if Ascii.eqb code "p" then "X"%char else code in
    let pspec :=
      if Ascii.eqb code "d" || Ascii.eqb code "i" || Ascii.eqb code "I"
      then set_flags pspec (clear (Z.lor (flags pspec) F_IS_SIGNED) FHASH)
      else pspec in
    let base := numeric_base pspec code in
    if base >? 1 then do_conv_numeric pspec code base
    else ret EXBADFORMAT.

Definition fchar : cstr := str " +-#0!^".
Definition fbit : list Z := [FSPACE; FPLUS; FMINUS; FHASH; FZERO; FBANG; FCARET; 0].

(** [for (flags = 0; (c = *ptr) && (t = strchr(fchar, c)) != NULL; ptr++)
        flags |= fbit[t - fchar];] *)
Fixpoint parse_flags (ptr : cstr) (flags : Z) : Z * cstr :=
  match ptr with
  | [] => (flags, ptr)
  | c :: rest =>
      if is_nul c then (flags, ptr)
      else match STRCHR fchar c with
           | Some i => parse_flags rest (Z.lor flags (nth i fbit 0))
           | None => (flags, ptr)
           end
  end.

(** [for (v = 0; (c = *ptr) && ISDIGIT(c) && v < limit; ptr++) v = v * 10 + c - '0';] *)
Fixpoint parse_number (limit : Z) (ptr : cstr) (v : Z) : Z * cstr :=
  match ptr with
  | [] => (v, ptr)
  | c :: rest =>
      if negb (is_nul c) && ISDIGIT c && (v <? limit)
      then parse_number limit rest (to_int (v * 10 + code c - 48))
      else (v, ptr)
  end.

(** [while ((c = *ptr) && c != ']') { ptr++; ++gplen; }]: the scanned bytes
    and the rest of the template. *)
Fixpoint scan_group (ptr : cstr) : cstr * cstr :=
  match ptr with
  | [] => ([], ptr)
  | c :: rest =>
      if negb (is_nul c) && negb (Ascii.eqb c "]")
      then let '(g, r) := scan_group rest in (c :: g, r)
      else ([], ptr)
  end.

(** [for (; *s && *s != '%'; s++);]: the literal run and the rest. *)
Fixpoint scan_literal (ptr : cstr) : cstr * cstr :=
  match ptr with
  | [] => ([], ptr)
  | c :: rest =>
      if negb (is_nul c) && negb (Ascii.eqb c "%")
      then let '(l, r) := scan_literal rest in (c :: l, r)
      else ([], ptr)
  end.

(** What the parser does after one conversion specification has been read:
    fail, continue in a new template, or convert. *)
Inductive parsed : Type :=
| PBad
| PContinue (flags : Z)
| PConv (spec : T_FormatSpec) (convspec : ascii) (rest : cstr).

(** The body of [if (READ_CHAR(mode, ptr))] in [format], from the flags up
    to the call of [do_conv], in the order of the code: flags and width
    ([parse_spec]), precision ([parse_prec]), base ([parse_base]), then
    grouping, length qualifier, continuation and conversion letter
    ([parse_tail]).  [ptr] points just behind the percent sign. *)
Definition parse_tail (nChars flags width prec base : Z) (ptr : cstr) : M S parsed :=
  (* test for grouping qualifier *)
  let c := READ_CHAR ptr in
  match (if Ascii.eqb c "[" then
           (* skip over opening brace, scan to end of grouping string *)
           let '(g, rest) := scan_group (INC_VOID_PTR ptr) in
           if is_nul (READ_CHAR rest) then None
           else Some (g, INC_VOID_PTR rest)
         else Some ([], ptr)) with
  | None => ret PBad
  | Some (grouping, ptr) =>
  (* test for length qualifier *)
  let c := READ_CHAR ptr in
  let is_q := negb (is_nul c)
              && match STRCHR (str "hljztL") c with Some _ => true | None => false end in
  let qual := if is_q then c else NUL in
  let ptr := if is_q then INC_VOID_PTR ptr else ptr in
  (* catch double qualifiers *)
  let c := READ_CHAR ptr in
  let dbl := negb (is_nul qual) && negb (is_nul c) && Ascii.eqb c qual in
  let qual := if dbl then DOUBLE_QUAL qual else qual in
  let ptr := if dbl then INC_VOID_PTR ptr else ptr in
  (* Continuation *)
  let c := READ_CHAR ptr in
  if is_nul c then ret (PContinue flags)
  else
  let convspec := c in
  if Ascii.eqb convspec "C" then
    let ptr := INC_VOID_PTR ptr in
    let c := READ_CHAR ptr in
    if is_nul c then ret PBad
    else ret (PConv (mkSpec nChars flags width prec base qual c grouping) convspec ptr)
  else
    ret (PConv (mkSpec nChars flags width prec base qual NUL grouping) convspec ptr)
  end.

Definition parse_base (nChars flags width prec : Z) (ptr : cstr) : M S parsed :=
  (* process base *)
  '(base, ptr) <-
    (if negb (Ascii.eqb (READ_CHAR ptr) ":") then ret (0, ptr)
     else
       let ptr := INC_VOID_PTR ptr in
       if Ascii.eqb (READ_CHAR ptr) "*" then
         v <- va_int ;;
         (if v <? 0 then ret (0, INC_VOID_PTR ptr)
          else if v >? MAXBASE then ret (MAXBASE + 1, ptr)
          else ret (v, INC_VOID_PTR ptr))
       else ret (parse_number MAXBASE ptr 0)) ;;
  if base >? MAXBASE then ret PBad
  else parse_tail nChars flags width prec base ptr.

Definition parse_prec (nChars flags width : Z) (ptr : cstr) : M S parsed :=
  (* process precision *)
  '(prec, ptr) <-
    (if negb (Ascii.eqb (READ_CHAR ptr) ".") then ret (-1, ptr)
     else
       let ptr := INC_VOID_PTR ptr in
       if Ascii.eqb (READ_CHAR ptr) "*" then
         p <- va_int ;; ret (p, INC_VOID_PTR ptr)
       else ret (parse_number MAXPREC ptr 0)) ;;
  if prec >? MAXPREC then ret PBad
  else parse_base nChars flags width prec ptr.

Definition parse_spec (nChars : Z) (ptr : cstr) : M S parsed :=
  let '(flags, ptr) := parse_flags ptr 0 in
  (* process width *)
  '(width, flags, ptr) <-
    (if Ascii.eqb (READ_CHAR ptr) "*" then
       w <- va_int ;;
       (if w <? 0 then ret (to_int (- w), Z.lor flags FMINUS, INC_VOID_PTR ptr)
        else ret (w, flags, INC_VOID_PTR ptr))
     else let '(w, ptr) := parse_number MAXWIDTH ptr 0 in ret (w, flags, ptr)) ;;
  if width >? MAXWIDTH then ret PBad
  else parse_prec nChars flags width ptr.

(** The scan loop of [format]: [while ((c = READ_CHAR(mode, ptr))) {...}]. *)
Fixpoint format_loop (fuel : nat) (nChars : Z) (ptr : cstr) : M S Z :=
  match fuel with
  | O => undef
  | Datatypes.S fuel' =>
      if is_nul (READ_CHAR ptr) then ret (to_int nChars)
      else
        (* scan for % or \0 *)
        let '(lit, s) := scan_literal ptr in
        let n := to_uint (Zlen lit) in
        orbad (if n >? 0 then emit (Some ptr) n else ret 0)
        (let nChars := if n >? 0 then to_uint (nChars + n) else nChars in
         let ptr := s in
         if negb (is_nul (READ_CHAR ptr)) then
           (* found conversion specifier; skip the % sign *)
           p <- parse_spec nChars (INC_VOID_PTR ptr) ;;
           match p with
           | PBad => ret EXBADFORMAT
           | PContinue _ =>
               t <- va_str ;;
               match t with
               | Some ptr' => format_loop fuel' nChars ptr'
               | None => undef
               end
           | PConv spec convspec ptr' =>
               (* now process the conversion type *)
               nn <- do_conv spec convspec ;;
               if nn <? 0 then ret EXBADFORMAT
               else format_loop fuel' (to_uint (nChars + to_uint nn)) (INC_VOID_PTR ptr')
           end
         else format_loop fuel' nChars ptr)
  end.

(** An upper bound on the number of iterations of the scan loop: every
    iteration consumes a byte of the current template or moves on to a
    template taken from the argument list. *)
Definition arg_weight (a : arg) : nat :=
  match a with
  | AStr (Some s) => Datatypes.S (List.length s)
  | _ => 1%nat
  end.

Definition format_fuel (fmt : cstr) (args : list arg) : nat :=
  Datatypes.S (List.length fmt + list_sum (map arg_weight args)).

(** [format(cons, arg, fmt, ap)]: the count and the final machine. *)
Definition format (parg : S) (fmt : option cstr) (args : list arg)
  : option (Z * machine S) :=
  match fmt with
  | None => Some (EXBADFORMAT, mkMachine parg [] args [])
  | Some fmt => format_loop (format_fuel fmt args) 0 fmt (mkMachine parg [] args [])
  end.

End WithSink.

(** The consumer of the test harness, [bufwrite]: append to a buffer. *)
Definition bufwrite (mem : list ascii) (buf : list ascii) : option (list ascii) :=
  Some (mem ++ buf).

(** [test_sprintf]: the return value and the text produced. *)
Definition test_sprintf (fmt : string) (args : list arg) : option (Z * string) :=
  match format (list ascii) bufwrite true [] (Some (str fmt)) args with
  | Some (r, m) => Some (r, string_of_list_ascii (sink m))
  | None => None
  end.

End Full.

(** * The floating point unit: [format_fp.c]

    The file is compiled as part of [format.c] and calls its [gen_out] and
    [calc_space_padding]; the embedding uses the ones of [Full], whose
    interface is the same, together with its flag bits and [T_FormatSpec]. *)

Module Fp.

Import Full.

Definition COMP_EXP_LIMIT : Z := 24.

(** The normalisation of a denormal:
    [while (0 == (bin.mantissa & (1 << (BIN_MANT_WIDTH - 1))))
       { bin.mantissa <<= 1; bin.exponent--; }] *)
Fixpoint denormal_shift (fuel : nat) (bm be : Z) : Z * Z :=
  match fuel with
  | O => (bm, be)
  | Datatypes.S fuel' =>
      if Z.land bm (Z.shiftl 1 (BIN_MANT_WIDTH - 1)) =? 0
      then denormal_shift fuel' (wrapu 64 (Z.shiftl bm 1)) (to_int (be - 1))
      else (bm, be)
  end.

(** [radix_convert]: returns [(sign, mantissa, exponent)]. *)
Definition radix_convert (bits : Z) : Z * Z * Z :=
  let bm := Z.land bits BIN_MANT_MASK in
  let be := to_int (Z.land (Z.shiftr bits BIN_EXP_SHIFT) BIN_EXP_MASK) in
  let bs := to_uint (Z.land (Z.shiftr bits BIN_SIGN_SHIFT) BIN_SIGN_MASK) in
  if be =? BIN_EXP_MASK then (bs, bm, INT_MAX)
  else if (bm =? 0) && (be =? 0) then (bs, 0, 0)
  else
    let '(bm, be, dm) :=
      if be =? 0 (* then this is a denormal *)
      then let '(bm, be) := denormal_shift 64 bm 1 in (bm, be, 0)
      else (bm, be, DEC_1P0) in
    let inc := (DEC_1P0 + 1) / 2 in
    let dm := radix_frac 64 (wrapu 64 (Z.shiftl bm BIN_MANT_LEFT_ALIGN)) dm inc in
    let be := be - BIN_EXP_BIAS in
    let '(dm, de) := radix_up (Z.to_nat be) dm 0 in
    let '(dm, de) := radix_down (Z.to_nat (- be)) dm de in
    (bs, dm, de).

(** [while (shift--) addend /= 10;] *)
Fixpoint shift_addend (shift : nat) (addend : Z) : Z :=
  match shift with
  | O => addend
  | Datatypes.S shift' => shift_addend shift' (addend / 10)
  end.

(** The digit position at which [round_mantissa] adds its half unit. *)
Definition round_shift (exponent prec : Z) (is_f compressed : bool) : Z :=
  let e := exponent in
  let e :=
    if compressed then
      let e := Z.rem e 3 in
      let e := if e <? 0 then e + 3 else e in
      if is_f then
        (* Scientific notation has limited suffixes *)
        let absexp := ABS exponent in
        if absexp >? COMP_EXP_LIMIT then to_int (e + (absexp - COMP_EXP_LIMIT)) else e
      else e
    else e in
  let e :=
    if negb is_f then
      (* e/E always has one digit to the left of DP *)
      let e := if e <? 0 then e + 1 else e in
      ABS e
    else e in
  let shift := to_int (e + prec + 1) in
  MAX shift 0.

(** [round_mantissa]: returns the new [( *mantissa, *exponent )]. *)
Definition round_mantissa (mantissa exponent prec : Z) (is_f compressed : bool)
  : Z * Z :=
  let addend := DEC_1P0 * 5 in
  let shift := round_shift exponent prec is_f compressed in
  let addend := shift_addend (Z.to_nat shift) addend in
  let mantissa := wrapu 64 (mantissa + addend) in
  (* Catch integer portion overflow *)
  if mantissa >=? DEC_1P0 * 10
  then (wrapu 64 (mantissa + 5) / 10, to_int (exponent + 1))
  else (mantissa, exponent).

(** The head of [do_conv_efg]: the pseudo conversions [g] and [G] are turned
    into [e]/[E] or [f]/[F].  Returns the conversion letter, the flags and the
    precision as they stand after the block, and [really_g]. *)
Definition efg_select (pspec : T_FormatSpec) (code : ascii) (exponent : Z)
  : ascii * Z * Z * bool :=
  if Ascii.eqb code "g" || Ascii.eqb code "G" then
    (* Turn off the '!' flag - just too messy with g/G *)
    let flags := clear (flags pspec) FBANG in
    (* If the precision is zero, it is taken as 1. *)
    let prec := if prec pspec =? 0 then 1 else prec pspec in
    (* Then convert the g/G into e/E or f/F as appropriate. *)
    let code := if (exponent <? -4) || (exponent >=? prec)
                then (if Ascii.eqb code "g" then "e"%char else "E"%char)
                else (if Ascii.eqb code "g" then "f"%char else "F"%char) in
    (code, flags, prec, true)
  else (code, flags pspec, prec pspec, false).

Definition sitab : list ascii :=
  ["y"; "z"; "a"; "f"; "p"; "n"; "u"; "m"; NUL;
   "k"; "M"; "G"; "T"; "P"; "E"; "Z"; "Y"]%char.

(** [while (idx > 0 && idx < NELEMS(sitab) - 1)
      { if (exponent >= 3) { idx++; exponent -= 3; continue; }
        if (exponent <  0) { idx--; exponent += 3; continue; }
        break; }] *)
Fixpoint si_scale (fuel : nat) (idx exponent : Z) : Z * Z :=
  match fuel with
  | O => (idx, exponent)
  | Datatypes.S fuel' =>
      if (idx >? 0) && (idx <? Zlen sitab - 1) then
        if exponent >=? 3 then si_scale fuel' (idx + 1) (exponent - 3)
        else if exponent <? 0 then si_scale fuel' (idx - 1) (exponent + 3)
        else (idx, exponent)
      else (idx, exponent)
  end.

Section WithSink.

Variable S : Type.
Variable cons : S -> list ascii -> option S.

(** [mant_to_char] fills [char e_s[DEC_SIG_FIG]]. *)
Definition mant_to_char (m digits_total digits_to_convert : Z) : M S (list ascii) :=
  if digits_to_convert >? DEC_SIG_FIG then undef
  else ret (mant_digits (Z.to_nat digits_to_convert)
                        (mant_drop (Z.to_nat (digits_total - digits_to_convert))
                                   false m) []).

(** [do_conv_efg] *)
Definition do_conv_efg (pspec : T_FormatSpec) (code : ascii)
           (sign mantissa exponent : Z) : M S Z :=
  let '(code, flags, prec, really_g) := efg_select pspec code exponent in
  let is_f := Ascii.eqb code "f" || Ascii.eqb code "F" in
  (* Apply default precision *)
  let prec := if prec <? 0 then 6 else prec in
  let pspec := set_prec (set_flags pspec flags) prec in
  (* Generate the prefix, if any *)
  let pfx_s := sign_prefix pspec sign in
  let pfx_n := Z.of_nat (strlen pfx_s) in
  (* Perform any rounding on the mantissa prior to formatting *)
  let '(mantissa, exponent) :=
    round_mantissa mantissa exponent prec is_f (has flags FBANG) in
  (* Trim trailing zeros from mantissa and compute no. of sig.figures *)
  let '(sigfig, mantissa) :=
    if negb (mantissa =? 0) then trim_zeros (Z.to_nat DEC_SIG_FIG) mantissa
    else (0, mantissa) in
  (* Work out how many digits on each side of the DP *)
  let '(si, n_left, exponent) :=
    if is_f then
      let '(si, exponent) :=
        if has flags FBANG then
          let '(idx, exponent) := si_scale 17 (Zlen sitab / 2) exponent in
          (nth (Z.to_nat idx) sitab NUL, exponent)
        else (NUL, exponent) in
      (si, (if exponent >? -1 then to_int (1 + exponent) else 0), exponent)
    else
      (* Engineering format forces exponent to multiple of 3 *)
      if has flags FBANG then
        let m := Z.rem exponent 3 in
        let m := if m <? 0 then m + 3 else m in
        (NUL, 1 + m, to_int (exponent - m))
      else (NUL, 1, exponent) in
  let n_right := MIN (MAX (to_int (sigfig - n_left)) 0) prec in
  (* The g-as-f conversion strips out additional digits *)
  let n_right :=
    if is_f && really_g then
      let m := strip_extra (Z.to_nat sigfig) sigfig (to_int (n_left + n_right)) mantissa in
      strip_trailing (Z.to_nat n_right) n_right m
    else n_right in
  (* Compute length of the actual generated text *)
  let length := to_size_t (pfx_n + n_left + n_right) in
  let pz1 := if is_f && (n_left =? 0) then 1 else 0 in
  let length := if is_f && (n_left =? 0) then to_size_t (length + 1) else length in
  let pz2 := if is_f && (n_left >? sigfig) then to_size_t (n_left - sigfig) else 0 in
  let pz3 := if is_f && (exponent <? -1) && (prec >? 0)
             then to_size_t (MIN (to_int (-1 - exponent)) prec) else 0 in
  let length := to_size_t (length + pz3) in
  let length := if is_f && negb (is_nul si) then to_size_t (length + 2) else length in
  let n_exp := if is_f then 0 else MAX (exp_len 10 (ABS exponent) 0) 2 in
  let length := if is_f then length else to_size_t (length + (2 + n_exp)) in
  (* Compute trailing zeros *)
  let keep_zeros := negb (really_g && negb (has flags FHASH)) in
  let lt := (to_int (to_size_t (pz3 + n_right)) <? prec) && keep_zeros in
  let gt := negb lt && is_f && (to_int (to_size_t (pz3 + n_right)) >? prec) in
  let pz4 := if lt then to_size_t (prec - pz3 - n_right) else 0 in
  let x := if gt then to_int (to_int pz3 + n_right - prec) else 0 in
  let length := to_size_t (length + pz4 - x) in
  let n_right := to_int (n_right - x) in
  (* Add DP if required *)
  let want_dp := negb (pz3 =? 0) || negb (pz4 =? 0) || (n_right >? 0)
                 || has flags FHASH in
  let length := if want_dp then to_size_t (length + 1) else length in
  let '(ps1, ps2) := calc_space_padding pspec length in
  (* Convert space padding into zero padding if we have the ZERO flag *)
  let pz1 := if has flags FZERO then to_size_t (pz1 + ps1) else pz1 in
  let ps1 := if has flags FZERO then 0 else ps1 in
  (* LEFT, including leading space and prefix *)
  e_s <- (if negb (n_left =? 0)
          then mant_to_char mantissa sigfig (to_int (to_size_t (n_left - pz2)))
          else ret []) ;;
  let e_n := if negb (n_left =? 0) then to_size_t (to_int (to_size_t (n_left - pz2))) else 0 in
  let sigfig := to_int (sigfig - e_n) in
  counted S 0 (gen_out S cons ps1 (Some pfx_s) pfx_n pz1 (Some e_s) e_n 0) (fun count =>
  (* Add any zeros before DP *)
  counted S count (gen_out S cons 0 None 0 pz2 None 0 0) (fun count =>
  (* RIGHT *)
  e_s <- (if negb (n_right =? 0) then mant_to_char mantissa sigfig n_right
          else ret e_s) ;;
  let e_n := if negb (n_right =? 0) then to_size_t n_right else 0 in
  counted S count (gen_out S cons 0 (Some (str ".")) (if want_dp then 1 else 0)
                           pz3 (Some e_s) e_n 0) (fun count =>
  (* Trailing zeros, if any *)
  counted S count (gen_out S cons 0 None 0 pz4 None 0 0) (fun count =>
  (* EXPONENT *)
  counted S count
    (if negb (n_exp =? 0) then
       let epfx_s := [code; if exponent <? 0 then "-"%char else "+"%char] in
       let e_s := mant_digits (Z.to_nat n_exp) (to_uint (ABS exponent)) [] in
       gen_out S cons 0 (Some epfx_s) 2 0 (Some e_s) n_exp 0
     else ret 0) (fun count =>
  (* SI multiplier and trailing space *)
  let nsi := if is_nul si then 0 else 1 in
  counted S count (gen_out S cons nsi None 0 0 (Some [si]) nsi ps2) (fun count =>
  ret count)))))).

(** [do_conv_fp] *)
Definition do_conv_fp (pspec : T_FormatSpec) (code : ascii) : M S Z :=
  if Ascii.eqb (qual pspec) "L" then ret EXBADFORMAT
  else
    dv <- va_double ;;
    let '(sign, mantissa, exponent) := radix_convert dv in
    if DEC_FP_IS_NAN mantissa exponent || DEC_FP_IS_INF mantissa exponent
    then do_conv_infnan S cons pspec code sign mantissa exponent
    else do_conv_efg pspec code sign mantissa exponent.

End WithSink.

(** One floating point conversion run against the buffer consumer of the
    test harness: the return value and the text produced. *)
Definition test_fp (pspec : T_FormatSpec) (code : ascii) (args : list arg)
  : option (Z * string) :=
  match do_conv_fp (list ascii) bufwrite pspec code (mkMachine [] [] args []) with
  | Some (r, m) => Some (r, string_of_list_ascii (sink m))
  | None => None
  end.

End Fp.

(** * The tiny tier: [tinyformat.c] *)

Module Tiny.

Definition FSPACE      : Z := 1.
Definition FPLUS       : Z := 2.
Definition FMINUS      : Z := 4.
Definition FZERO       : Z := 16.
Definition F_IS_SIGNED : Z := 128.

Definition MAXWIDTH : Z := 80.
Definition MAXPREC  : Z := 80.
Definition BUFLEN   : Z := 16.

(** [T_FormatSpec]: [flags] and [width] are [uint8_t], [prec] is [int8_t]. *)
Record T_FormatSpec : Type := mkSpec {
  nChars : Z;
  flags  : Z;
  width  : Z;
  prec   : Z
}.

Definition digits : cstr := str "0123456789ABCDEF".
Definition digit_at (i : Z) : ascii := nth (Z.to_nat i) digits NUL.
Definition lower (c : ascii) : ascii := chr (Z.lor (code c) 32).

(** [calc_space_padding]: returns [(left, right)]. *)
Definition calc_space_padding (pspec : T_FormatSpec) (length : Z) : Z * Z :=
  let width := if length <? to_size_t (width pspec)
               then to_size_t (to_size_t (width pspec) - length) else 0 in
  if has (flags pspec) FMINUS then (0, width) else (width, 0).

Section WithSink.

Variable S : Type.
Variable cons : S -> list ascii -> option S.

(** One call [( *cons )( *parg, s, n )]. *)
Definition call_cons (run : list ascii) : M S bool :=
  fun m =>
    match cons (sink m) run with
    | Some s' => Some (true, mkMachine s' (sent m ++ [run]) (ap m) (stores m))
    | None => Some (false, mkMachine (sink m) (sent m ++ [run]) (ap m) (stores m))
    end.

(** [emit]: the consumer is not called for an empty run. *)
Definition emit (s : cstr) (n : Z) : M S Z :=
  if n >? 0 then
    ok <- call_cons (firstn (Z.to_nat n) s) ;;
    if ok then ret 0 else ret EXBADFORMAT
  else ret 0.

(** [pad]: one consumer call per padding character. *)
Fixpoint pad_loop (i : nat) (c : ascii) : M S bool :=
  match i with
  | O => ret true
  | Datatypes.S i' =>
      ok <- call_cons [c] ;;
      if ok then pad_loop i' c else ret false
  end.

Definition pad (c : ascii) (n : Z) : M S Z :=
  ok <- pad_loop (Z.to_nat n) c ;;
  if ok then ret (to_int n) else ret EXBADFORMAT.

Definition orbad (c : M S Z) (k : M S Z) : M S Z :=
  r <- c ;; if r <? 0 then ret EXBADFORMAT else k.

(** [gen_out] *)
Definition gen_out (ps1 : Z) (pfx_s : option cstr) (pfx_n : Z) (pz : Z)
           (e_s : cstr) (e_n : Z) (ps2 : Z) : M S Z :=
  let n := to_size_t (ps1 + pz + e_n + ps2) in
  orbad (pad " " ps1)
  (orbad (match pfx_s with Some p => emit p pfx_n | None => ret 0 end)
   (let n := match pfx_s with Some _ => to_size_t (n + pfx_n) | None => n end in
    orbad (pad "0" pz)
    (orbad (emit e_s e_n)
     (orbad (pad " " ps2)
      (ret (to_int n)))))).

(** [do_conv_c] *)
Definition do_conv_c (pspec : T_FormatSpec) : M S Z :=
  v <- va_int ;;
  let cc := chr v in
  let rep := to_uint (MAX 1 (prec pspec)) in
  orbad (pad cc rep) (ret (to_int rep)).

(** [do_conv_s] *)
Definition do_conv_s (pspec : T_FormatSpec) : M S Z :=
  a <- va_str ;;
  let s := match a with Some s => s | None => str "(null)" end in
  let length := Z.of_nat (strlen s) in
  let length := if prec pspec >=? 0
                then to_size_t (MIN (prec pspec) (to_int length)) else length in
  let '(ps1, ps2) := calc_space_padding pspec length in
  gen_out ps1 None 0 0 s length ps2.

(** [do_conv_numeric] *)
Definition do_conv_numeric (pspec : T_FormatSpec) (code : ascii) (base : Z) : M S Z :=
  '(uv, length, pfx_s, pfx_n) <-
    (if has (flags pspec) F_IS_SIGNED then
       a <- va_int ;;
       let v := to_short a in
       let uv := to_ushort (ABS v) in
       let p0 := if v <? 0 then "-"%char
                 else if has (flags pspec) FPLUS then "+"%char
                 else if has (flags pspec) FSPACE then " "%char
                 else NUL in
       if negb (is_nul p0) then ret (uv, 1, Some [p0], 1)
       else ret (uv, 0, None, 0)
     else
       a <- va_uint ;; ret (to_ushort a, 0, None, 0)) ;;
  let buf := digits_loop 16
               (fun uv => let cc := digit_at (to_ushort (uv mod base)) in
                          if Ascii.eqb code "x" then lower cc else cc)
               (fun uv => to_ushort (uv / base)) uv [] in
  let numWidth := Zlen buf in
  let digitWidth := numWidth in
  let prec1 := if prec pspec <? 0 then 1 else prec pspec in
  let flags1 := if prec pspec <? 0 then flags pspec
                else to_uchar (clear (flags pspec) FZERO) in
  let numWidth := MAX numWidth (to_size_t prec1) in
  let length := to_size_t (length + numWidth) in
  let '(ps1, ps2) := calc_space_padding (mkSpec (nChars pspec) flags1 (width pspec) prec1) length in
  let pz := to_size_t (numWidth - digitWidth) in
  let pz' := if has flags1 FZERO then to_size_t (pz + ps1) else pz in
  let ps1' := if has flags1 FZERO then 0 else ps1 in
  gen_out ps1' pfx_s pfx_n pz' buf digitWidth ps2.

(** [do_conv] *)
Definition do_conv (pspec : T_FormatSpec) (code : ascii) : M S Z :=
  if Ascii.eqb code "%" then pad code 1
  else if Ascii.eqb code "c" then do_conv_c pspec
  else if Ascii.eqb code "s" then do_conv_s pspec
  else
    let pspec := if Ascii.eqb code "p"
                 then mkSpec (nChars pspec) (flags pspec) 4 4 else pspec in
    let code := if Ascii.eqb code "p" then "X"%char else code in
    let base := 0 in
    let pspec := if Ascii.eqb code "d"
                 then mkSpec (nChars pspec) (to_uchar (Z.lor (flags pspec) F_IS_SIGNED))
                             (width pspec) (prec pspec)
                 else pspec in
    let base := if Ascii.eqb code "d" then 10 else base in
    let base := if Ascii.eqb code "u" then 10 else base in
    let base := if Ascii.eqb code "x" || Ascii.eqb code "X" then 16 else base in
    let base := if Ascii.eqb code "b" then 2 else base in
    if base >? 1 then do_conv_numeric pspec code base
    else ret EXBADFORMAT.

Definition fchar : cstr := str " +-0".
Definition fbit : list Z := [FSPACE; FPLUS; FMINUS; FZERO; 0].

Fixpoint parse_flags (fmt : cstr) (flags : Z) : Z * cstr :=
  match fmt with
  | [] => (flags, fmt)
  | c :: rest =>
      if is_nul c then (flags, fmt)
      else match STRCHR fchar c with
           | Some i => parse_flags rest (to_uchar (Z.lor flags (nth i fbit 0)))
           | None => (flags, fmt)
           end
  end.

(** [for (v = 0; (c = *fmt) && ISDIGIT(c) && v < limit; fmt++) v = v * 10 + c - '0';]
    where [v] is stored in an 8-bit member ([narrow] is the conversion). *)
Fixpoint parse_number (narrow : Z -> Z) (limit : Z) (fmt : cstr) (v : Z) : Z * cstr :=
  match fmt with
  | [] => (v, fmt)
  | c :: rest =>
      if negb (is_nul c) && ISDIGIT c && (v <? limit)
      then parse_number narrow limit rest (narrow (v * 10 + code c - 48))
      else (v, fmt)
  end.

Fixpoint scan_literal (fmt : cstr) : cstr * cstr :=
  match fmt with
  | [] => ([], fmt)
  | c :: rest =>
      if negb (is_nul c) && negb (Ascii.eqb c "%")
      then let '(l, r) := scan_literal rest in (c :: l, r)
      else ([], fmt)
  end.

(** The scan loop of [format]. *)
Fixpoint format_loop (fuel : nat) (nChars : Z) (fmt : cstr) : M S Z :=
  match fuel with
  | O => undef
  | Datatypes.S fuel' =>
      if is_nul (READ_CHAR fmt) then ret (to_int nChars)
      else
        let '(lit, s) := scan_literal fmt in
        let n := Zlen lit in
        orbad (emit fmt n)
        (let nChars := to_uint (nChars + n) in
         let fmt := s in
         if negb (is_nul (READ_CHAR fmt)) then
           let fmt := INC_VOID_PTR fmt in
           let '(flags, fmt) := parse_flags fmt 0 in
           let '(width, fmt) := parse_number to_uchar MAXWIDTH fmt 0 in
           if width >? MAXWIDTH then ret EXBADFORMAT
           else
             let '(prec, fmt) :=
               if negb (Ascii.eqb (READ_CHAR fmt) ".") then (-1, fmt)
               else parse_number to_schar MAXPREC (INC_VOID_PTR fmt) 0 in
             if prec >? MAXPREC then ret EXBADFORMAT
             else
               let c := READ_CHAR fmt in
               if is_nul c then
                 t <- va_str ;;
                 match t with
                 | Some fmt' => format_loop fuel' nChars fmt'
                 | None => undef
                 end
               else
                 nn <- do_conv (mkSpec nChars flags width prec) c ;;
                 if nn <? 0 then ret EXBADFORMAT
                 else format_loop fuel' (to_uint (nChars + to_uint nn)) (INC_VOID_PTR fmt)
         else format_loop fuel' nChars fmt)
  end.

Definition format (parg : S) (fmt : option cstr) (args : list arg)
  : option (Z * machine S) :=
  match fmt with
  | None => Some (EXBADFORMAT, mkMachine parg [] args [])
  | Some fmt => format_loop (Full.format_fuel fmt args) 0 fmt (mkMachine parg [] args [])
  end.

End WithSink.

Definition test_sprintf (fmt : string) (args : list arg) : option (Z * string) :=
  match format (list ascii) Full.bufwrite [] (Some (str fmt)) args with
  | Some (r, m) => Some (r, string_of_list_ascii (sink m))
  | None => None
  end.

End Tiny.

(** * The micro tier: [microformat.c] *)

Module Micro.

Definition FSPACE      : Z := 1.
Definition FPLUS       : Z := 2.
Definition FMINUS      : Z := 4.
Definition FZERO       : Z := 16.
Definition F_IS_SIGNED : Z := 128.

Definition MAXWIDTH : Z := 80.
Definition MAXPREC  : Z := 80.
Definition BUFLEN   : Z := 16.

Record T_FormatSpec : Type := mkSpec {
  flags  : Z;   (* uint8_t *)
  width  : Z;   (* uint8_t *)
  prec   : Z    (* int8_t, -1 == default precision *)
}.

Definition digits : list ascii :=
  ["0"; "1"; "2"; "3"; "4"; "5"; "6"; "7"; "8"; "9"; "A"; "B"; "C"; "D"; "E"; "F"]%char.
Definition digit_at (i : Z) : ascii := nth (Z.to_nat i) digits NUL.
Definition lower (c : ascii) : ascii := chr (Z.lor (code c) 32).

Definition calc_space_padding (pspec : T_FormatSpec) (length : Z) : Z * Z :=
  let width := if length <? to_size_t (width pspec)
               then to_size_t (to_size_t (width pspec) - length) else 0 in
  if has (flags pspec) FMINUS then (0, width) else (width, 0).

Section WithSink.

Variable S : Type.
(** [format_putchar]; [None] is its [-1] return. *)
Variable format_putchar : S -> ascii -> option S.

Definition putc (c : ascii) : M S bool :=
  fun m =>
    match format_putchar (sink m) c with
    | Some s' => Some (true, mkMachine s' (sent m ++ [[c]]) (ap m) (stores m))
    | None => Some (false, mkMachine (sink m) (sent m ++ [[c]]) (ap m) (stores m))
    end.

(** [emit(s, c, n)]: [n] characters from [s], or [n] copies of [c] when [s]
    is NULL.  Returns 1 if successful. *)
Fixpoint emit_loop (n : nat) (s : option cstr) (c : ascii) : M S Z :=
  match n with
  | O => ret 1
  | Datatypes.S n' =>
      let c := match s with Some p => READ_CHAR p | None => c end in
      let s := option_map INC_VOID_PTR s in
      ok <- putc c ;;
      if ok then emit_loop n' s c else ret EXBADFORMAT
  end.

Definition emit (s : option cstr) (c : ascii) (n : Z) : M S Z :=
  emit_loop (Z.to_nat n) s c.

Definition orbad (c : M S Z) (k : M S Z) : M S Z :=
  r <- c ;; if r <? 0 then ret EXBADFORMAT else k.

(** [gen_out] *)
Definition gen_out (ps1 : Z) (pfx_c : ascii) (pfx_n : Z) (pz : Z)
           (e_s : cstr) (e_n : Z) (ps2 : Z) : M S Z :=
  let n := to_size_t (ps1 + pfx_n + pz + e_n + ps2) in
  orbad (emit None " " ps1)
  (orbad (emit None pfx_c pfx_n)
   (orbad (emit None "0" pz)
    (orbad (emit (Some e_s) NUL e_n)
     (orbad (emit None " " ps2)
      (ret (to_int n)))))).

(** [do_conv_s]: a NULL pointer prints a single '?'; any flags, width or
    precision are ignored. *)
Definition do_conv_s (pspec : T_FormatSpec) : M S Z :=
  a <- va_str ;;
  match a with
  | None => emit None "?" 1
  | Some s =>
      let length := Z.of_nat (strlen s) in
      let length := if prec pspec >=? 0
                    then to_size_t (MIN (prec pspec) (to_int length)) else length in
      let '(ps1, ps2) := calc_space_padding pspec length in
      orbad (emit None " " ps1)
      (orbad (emit (Some s) NUL length)
       (orbad (emit None " " ps2)
        (ret (to_int (to_size_t (length + ps1 + ps2))))))
  end.

(** [do_conv_numeric] *)
Definition do_conv_numeric (pspec : T_FormatSpec) (code : ascii) (base : Z) : M S Z :=
  '(uv, length, pfx_c, pfx_n) <-
    (if has (flags pspec) F_IS_SIGNED then
       a <- va_int ;;
       let v := to_short a in
       let uv := to_ushort (ABS v) in
       let pfx_c := if v <? 0 then "-"%char
                    else if has (flags pspec) FPLUS then "+"%char
                    else if has (flags pspec) FSPACE then " "%char
                    else NUL in
       if negb (is_nul pfx_c) then ret (uv, 1, pfx_c, 1)
       else ret (uv, 0, pfx_c, 0)
     else
       a <- va_uint ;; ret (to_ushort a, 0, NUL, 0)) ;;
  let buf := digits_loop 16
               (fun uv => let cc := digit_at (uv mod base) in
                          if Ascii.eqb code "x" then lower cc else cc)
               (fun uv => to_ushort (uv / base)) uv [] in
  let numWidth := Zlen buf in
  let digitWidth := numWidth in
  let prec1 := if prec pspec <? 0 then 1 else prec pspec in
  let flags1 := if prec pspec <? 0 then flags pspec
                else to_uchar (clear (flags pspec) FZERO) in
  let numWidth := MAX numWidth (to_size_t prec1) in
  let length := to_size_t (length + numWidth) in
  let '(ps1, ps2) := calc_space_padding (mkSpec flags1 (width pspec) prec1) length in
  let pz := to_size_t (numWidth - digitWidth) in
  let pz' := if has flags1 FZERO then to_size_t (pz + ps1) else pz in
  let ps1' := if has flags1 FZERO then 0 else ps1 in
  gen_out ps1' pfx_c pfx_n pz' buf digitWidth ps2.

(** [do_conv] *)
Definition do_conv (pspec : T_FormatSpec) (code : ascii) : M S Z :=
  if Ascii.eqb code "%" then emit None code 1
  else if Ascii.eqb code "c" then (v <- va_int ;; emit None (chr v) 1)
  else if Ascii.eqb code "s" then do_conv_s pspec
  else
    let pspec := if Ascii.eqb code "p" then mkSpec (flags pspec) 4 4 else pspec in
    let code := if Ascii.eqb code "p" then "X"%char else code in
    let base := 0 in
    let pspec := if Ascii.eqb code "d"
                 then mkSpec (to_uchar (Z.lor (flags pspec) F_IS_SIGNED))
                             (width pspec) (prec pspec)
                 else pspec in
    let base := if Ascii.eqb code "d" then 10 else base in
    let base := if Ascii.eqb code "u" then 10 else base in
    let base := if Ascii.eqb code "x" || Ascii.eqb code "X" then 16 else base in
    let base := if Ascii.eqb code "b" then 2 else base in
    if base >? 1 then do_conv_numeric pspec code base
    else ret EXBADFORMAT.

(** The flag loop [for (flags = 0; ; fmt++)], an if-else chain over the
    characters space, plus, minus and zero that ends at any other one. *)
Fixpoint parse_flags (fmt : cstr) (flags : Z) : Z * cstr :=
  match fmt with
  | [] => (flags, fmt)
  | c :: rest =>
      if Ascii.eqb c " " then parse_flags rest (to_uchar (Z.lor flags FSPACE))
      else if Ascii.eqb c "+" then parse_flags rest (to_uchar (Z.lor flags FPLUS))
      else if Ascii.eqb c "-" then parse_flags rest (to_uchar (Z.lor flags FMINUS))
      else if Ascii.eqb c "0" then parse_flags rest (to_uchar (Z.lor flags FZERO))
      else (flags, fmt)
  end.

(** [for (v = 0; (c = *fmt) && ISDIGIT(c) && v <= (limit / 10); fmt++)
        v = v * 10 + c - '0';] with [v] stored in an 8-bit member. *)
Fixpoint parse_number (narrow : Z -> Z) (limit : Z) (fmt : cstr) (v : Z) : Z * cstr :=
  match fmt with
  | [] => (v, fmt)
  | c :: rest =>
      if negb (is_nul c) && ISDIGIT c && (v <=? limit / 10)
      then parse_number narrow limit rest (narrow (v * 10 + code c - 48))
      else (v, fmt)
  end.

(** The loop of [microformat], by recursion on the template. *)
Fixpoint micro_loop (fuel : nat) (nChars : Z) (fmt : cstr) : M S Z :=
  match fuel with
  | O => undef
  | Datatypes.S fuel' =>
      let c := READ_CHAR fmt in
      if is_nul c then ret (to_int nChars)
      else if Ascii.eqb c "%" then
        (* found conversion specifier; skip the % *)
        let fmt := INC_VOID_PTR fmt in
        let '(flags, fmt) := parse_flags fmt 0 in
        let '(width, fmt) := parse_number to_uchar MAXWIDTH fmt 0 in
        if width >? MAXWIDTH then ret EXBADFORMAT
        else
          let '(prec, fmt) :=
            if Ascii.eqb (READ_CHAR fmt) "."
            then parse_number to_schar MAXPREC (INC_VOID_PTR fmt) 0
            else (-1, fmt) in
          if prec >? MAXPREC then ret EXBADFORMAT
          else
            nn <- do_conv (mkSpec flags width prec) (READ_CHAR fmt) ;;
            if nn <? 0 then ret EXBADFORMAT
            else micro_loop fuel' (to_uint (nChars + to_uint nn)) (INC_VOID_PTR fmt)
      else
        ok <- putc c ;;
        if ok then micro_loop fuel' (to_uint (nChars + 1)) (INC_VOID_PTR fmt)
        else ret EXBADFORMAT
  end.

Definition microformat (parg : S) (fmt : option cstr) (args : list arg)
  : option (Z * machine S) :=
  match fmt with
  | None => Some (EXBADFORMAT, mkMachine parg [] args [])
  | Some fmt => micro_loop (Datatypes.S (List.length fmt)) 0 fmt (mkMachine parg [] args [])
  end.

End WithSink.

(** The [format_putchar] of the test harness appends to a buffer. *)
Definition buf_putchar (mem : list ascii) (c : ascii) : option (list ascii) :=
  Some (mem ++ [c]).

Definition test_sprintf (fmt : string) (args : list arg) : option (Z * string) :=
  match microformat (list ascii) buf_putchar [] (Some (str fmt)) args with
  | Some (r, m) => Some (r, string_of_list_ascii (sink m))
  | None => None
  end.

End Micro.

(** * The intermediate [format.c]: centring without bias, no base, no grouping

    [emit], [pad], [gen_out] and [do_conv_n] of this version are the ones of
    the full tier, text for text, and are taken from [Full].  Width and
    precision are [unsigned int] here and a missing precision is [UINT_MAX].
    The build has no alternate address space: [READ_CHAR] is a plain read and
    a continuation always switches back to the normal mode. *)

Module Mid.

Import Full.

Definition UINT_MAX : Z := 4294967295.

Record T_FormatSpec : Type := mkSpec {
  nChars  : Z;      (* unsigned int *)
  flags   : Z;      (* unsigned int *)
  width   : Z;      (* unsigned int *)
  prec    : Z;      (* unsigned int *)
  qual    : ascii;
  repchar : ascii
}.

Definition as_full (p : T_FormatSpec) : Full.T_FormatSpec :=
  Full.mkSpec (nChars p) (flags p) (width p) (prec p) 0 (qual p) (repchar p) [].

Section WithSink.

Variable S : Type.
Variable cons : S -> list ascii -> option S.

(** [do_conv_c] *)
Definition do_conv_c (pspec : T_FormatSpec) (code : ascii) : M S Z :=
  cc <- (if Ascii.eqb code "c"
         then (v <- va_int ;; ret (chr v))
         else ret (repchar pspec)) ;;
  let prec := if prec pspec >? MAXPREC then 1 else prec pspec in
  let rep := MAX 1 prec in
  do_conv_c_loop S cons (Z.to_nat rep) cc 0.

(** [do_conv_s] *)
Definition do_conv_s (pspec : T_FormatSpec) (code : ascii) : M S Z :=
  a <- va_str ;;
  let s := match a with Some s => s | None => str "(null)" end in
  let length := Z.of_nat (strlen s) in
  let length := MIN (prec pspec) length in
  let padWidth := if length <? width pspec then to_size_t (width pspec - length) else 0 in
  let ps2 := if has (flags pspec) FMINUS then padWidth else 0 in
  let ps1 := if has (flags pspec) FMINUS then 0 else padWidth in
  let tot := to_size_t (ps1 + ps2) in
  let ps1' := if has (flags pspec) FCARET then tot / 2 else ps1 in
  let ps2' := if has (flags pspec) FCARET then to_size_t (tot - tot / 2) else ps2 in
  gen_out S cons ps1' None 0 0 (Some s) length ps2'.

(** [do_conv_numeric] up to its final [gen_out] call. *)
Definition numeric_layout (pspec : T_FormatSpec) (code : ascii) (base : Z)
  : M S layout :=
  '(uv, p0, pfxWidth, flags1) <- numeric_value S (as_full pspec) ;;
  let pfxWidth := if Ascii.eqb code "o" && negb (uv =? 0) then 1 else pfxWidth in
  let is_xb := Ascii.eqb code "x" || Ascii.eqb code "X" || Ascii.eqb code "b" in
  let p1 := if is_xb && (has flags1 FBANG || negb (uv =? 0)) then code else NUL in
  let pfxWidth := if is_xb && (has flags1 FBANG || negb (uv =? 0)) then 2 else pfxWidth in
  let p1 := if is_xb && has flags1 FBANG then lower p1 else p1 in
  let prefix := [p0; p1] in
  let length := if has flags1 FHASH then pfxWidth else 0 in
  let pfx_s := if has flags1 FHASH then Some prefix else None in
  let pfx_n := if has flags1 FHASH then pfxWidth else 0 in
  let buf :=
    if base =? 10 then
      digits_loop 64 (fun uv => chr (48 + uv mod 10)) (fun uv => uv / 10) uv []
    else
      let mask := to_uint (base - 1) in
      let shift := if base =? 16 then 4 else if base =? 8 then 3 else 1 in
      digits_loop 64
        (fun uv => let cc := digit_at (Z.land uv mask) in
                   if Ascii.eqb code "x" then lower cc else cc)
        (fun uv => Z.shiftr uv shift) uv [] in
  let numWidth := Zlen buf in
  let digitWidth := numWidth in
  let prec1 := if prec pspec >? MAXPREC then 1 else prec pspec in
  let flags2 := if prec pspec >? MAXPREC then flags1 else clear flags1 FZERO in
  let numWidth := MAX numWidth prec1 in
  let length := to_size_t (length + numWidth) in
  let padWidth := if length <? width pspec then to_size_t (width pspec - length) else 0 in
  let ps1 := if negb (has flags2 FMINUS) && negb (has flags2 FZERO) then padWidth else 0 in
  let pz := to_size_t (numWidth - digitWidth) in
  let pz := if negb (has flags2 FMINUS) && has flags2 FZERO
            then to_size_t (pz + padWidth) else pz in
  let ps2 := if has flags2 FMINUS then padWidth else 0 in
  let tot := to_size_t (ps1 + ps2) in
  let ps1' := if has flags2 FCARET then tot / 2 else ps1 in
  let ps2' := if has flags2 FCARET then to_size_t (tot - tot / 2) else ps2 in
  ret (mkLayout ps1' pfx_s pfx_n pz (Some buf) digitWidth ps2').

Definition do_conv_numeric (pspec : T_FormatSpec) (code : ascii) (base : Z) : M S Z :=
  l <- numeric_layout pspec code base ;; gen_layout S cons l.

(** [do_conv] *)
Definition do_conv (pspec : T_FormatSpec) (code : ascii) : M S Z :=
  if Ascii.eqb code "n" then do_conv_n S (as_full pspec)
  else if Ascii.eqb code "%" then gen_out S cons 0 None 0 0 (Some [code]) 1 0
  else if Ascii.eqb code "c" || Ascii.eqb code "C" then do_conv_c pspec code
  else if Ascii.eqb code "s" then do_conv_s pspec code
  else
    let pspec := if Ascii.eqb code "p"
                 then mkSpec (nChars pspec) (Z.lor FHASH FBANG) 16 16 "l"%char
                             (repchar pspec)
                 else pspec in
    let code := if Ascii.eqb code "p" then "X"%char else code in
    let base := 0 in
    let pspec := if Ascii.eqb code "d" || Ascii.eqb code "i"
                 then mkSpec (nChars pspec)
                             (clear (Z.lor (flags pspec) F_IS_SIGNED) FHASH)
                             (width pspec) (prec pspec) (qual pspec) (repchar pspec)
                 else pspec in
    let base := if Ascii.eqb code "d" || Ascii.eqb code "i" then 10 else base in
    let base := if Ascii.eqb code "x" || Ascii.eqb code "X" then 16 else base in
    let base := if Ascii.eqb code "u" then 10 else base in
    let base := if Ascii.eqb code "o" then 8 else base in
    let base := if Ascii.eqb code "b" then 2 else base in
    if base >? 0 then do_conv_numeric pspec code base
    else ret EXBADFORMAT.

(** [for (v = 0; (c = *vs) && ISDIGIT(c); ++vs) v = v * 10 + c - '0';] on an
    [unsigned int]. *)
Fixpoint parse_number (vs : cstr) (v : Z) : Z * cstr :=
  match vs with
  | [] => (v, vs)
  | c :: rest =>
      if negb (is_nul c) && ISDIGIT c
      then parse_number rest (to_uint (v * 10 + code c - 48))
      else (v, vs)
  end.

Inductive parsed : Type :=
| PBad
| PContinue
| PConv (spec : T_FormatSpec) (convspec : ascii) (rest : cstr).

Definition parse_spec (nChars : Z) (vs : cstr) : M S parsed :=
  let '(flags, vs) := parse_flags vs 0 in
  '(width, flags, vs) <-
    (if Ascii.eqb (READ_CHAR vs) "*" then
       v <- va_int ;;
       (if v <? 0 then ret (to_uint (to_int (- v)), Z.lor flags FMINUS, INC_VOID_PTR vs)
        else ret (to_uint v, flags, INC_VOID_PTR vs))
     else let '(w, vs) := parse_number vs 0 in ret (w, flags, vs)) ;;
  if width >? MAXWIDTH then ret PBad
  else
  pr <-
    (if negb (Ascii.eqb (READ_CHAR vs) ".") then ret (Some (UINT_MAX, vs))
     else
       let vs := INC_VOID_PTR vs in
       if Ascii.eqb (READ_CHAR vs) "*" then
         v <- va_int ;;
         (if v <? 0 then ret (Some (UINT_MAX, INC_VOID_PTR vs))
          else if v >? MAXPREC then ret None
          else ret (Some (to_uint v, INC_VOID_PTR vs)))
       else
         let '(p, vs) := parse_number vs 0 in
         if p >? MAXPREC then ret None else ret (Some (p, vs))) ;;
  match pr with
  | None => ret PBad
  | Some (prec, vs) =>
  let c := READ_CHAR vs in
  let is_q := negb (is_nul c)
              && match STRCHR (str "hljztL") c with Some _ => true | None => false end in
  let qual := if is_q then c else NUL in
  let vs := if is_q then INC_VOID_PTR vs else vs in
  let c := READ_CHAR vs in
  let dbl := negb (is_nul qual) && negb (is_nul c) && Ascii.eqb c qual in
  let qual := if dbl then DOUBLE_QUAL qual else qual in
  let vs := if dbl then INC_VOID_PTR vs else vs in
  let c := READ_CHAR vs in
  if is_nul c then ret PContinue
  else
  if Ascii.eqb c "C" then
    let vs := INC_VOID_PTR vs in
    let r := READ_CHAR vs in
    if is_nul r then ret PBad
    else ret (PConv (mkSpec nChars flags width prec qual r) c vs)
  else ret (PConv (mkSpec nChars flags width prec qual NUL) c vs)
  end.

Fixpoint format_loop (fuel : nat) (nChars : Z) (ptr : cstr) : M S Z :=
  match fuel with
  | O => undef
  | Datatypes.S fuel' =>
      if is_nul (READ_CHAR ptr) then ret (to_int nChars)
      else
        let '(lit, s) := scan_literal ptr in
        let n := to_uint (Zlen lit) in
        orbad S (if n >? 0 then emit S cons (Some ptr) n else ret 0)
        (let nChars := if n >? 0 then to_uint (nChars + n) else nChars in
         let ptr := s in
         if negb (is_nul (READ_CHAR ptr)) then
           p <- parse_spec nChars (INC_VOID_PTR ptr) ;;
           match p with
           | PBad => ret EXBADFORMAT
           | PContinue =>
               t <- va_str ;;
               match t with
               | Some ptr' => format_loop fuel' nChars ptr'
               | None => undef
               end
           | PConv spec convspec vs =>
               nn <- do_conv spec convspec ;;
               if nn <? 0 then ret EXBADFORMAT
               else format_loop fuel' (to_uint (nChars + to_uint nn)) (INC_VOID_PTR vs)
           end
         else format_loop fuel' nChars ptr)
  end.

Definition format (parg : S) (fmt : option cstr) (args : list arg)
  : option (Z * machine S) :=
  match fmt with
  | None => Some (EXBADFORMAT, mkMachine parg [] args [])
  | Some fmt => format_loop (format_fuel fmt args) 0 fmt (mkMachine parg [] args [])
  end.

End WithSink.

Definition test_sprintf (fmt : string) (args : list arg) : option (Z * string) :=
  match format (list ascii) bufwrite [] (Some (str fmt)) args with
  | Some (r, m) => Some (r, string_of_list_ascii (sink m))
  | None => None
  end.

End Mid.

(** * The first [format.c]: one monolithic [do_conv] *)

Module Legacy.

Definition FSPACE : Z := 1.
Definition FPLUS  : Z := 2.
Definition FMINUS : Z := 4.
Definition FHASH  : Z := 8.
Definition FZERO  : Z := 16.
Definition FBANG  : Z := 32.

Definition MAXWIDTH : Z := 999.
Definition MAXPREC  : Z := 999.
Definition BUFLEN   : Z := 40.

Definition spaces : cstr := str "                ".
Definition zeroes : cstr := str "0000000000000000".

Record T_FormatSpec : Type := mkSpec {
  nChars : Z;      (* int *)
  flags  : Z;      (* unsigned int *)
  width  : Z;      (* int *)
  prec   : Z;      (* int *)
  qual   : ascii
}.

Definition digits : cstr := str "0123456789ABCDEF".
Definition digit_at (i : Z) : ascii := nth (Z.to_nat i) digits NUL.
Definition lower (c : ascii) : ascii := chr (Z.lor (code c) 32).

Section WithSink.

Variable S : Type.
Variable cons : S -> list ascii -> option S.

(** A statement of [do_conv] either falls through ([None]) or returns. *)
Definition stmt : Type := M S (option Z).

Definition seq (a : stmt) (k : M S Z) : M S Z :=
  r <- a ;; match r with Some v => ret v | None => k end.

(** The macro [EMIT(s, n)]: returns [EXBADFORMAT] from [do_conv] when the
    consumer fails; the consumer is not called for [n <= 0]. *)
Definition EMIT (s : cstr) (n : Z) : stmt :=
  fun m =>
    if n >? 0 then
      let run := firstn (Z.to_nat n) s in
      match cons (sink m) run with
      | Some s' => Some (None, mkMachine s' (sent m ++ [run]) (ap m) (stores m))
      | None => Some (Some EXBADFORMAT,
                      mkMachine (sink m) (sent m ++ [run]) (ap m) (stores m))
      end
    else Some (None, m).

(** The macro [PAD(s, n)]. *)
Fixpoint PAD_loop (fuel : nat) (s : cstr) (j : Z) : stmt :=
  match fuel with
  | O => ret None
  | Datatypes.S fuel' =>
      if 0 <? j then
        let i := MIN (Zlen s) j in
        r <- EMIT s i ;;
        match r with
        | Some v => ret (Some v)
        | None => PAD_loop fuel' s (to_size_t (j - i))
        end
      else ret None
  end.

Definition PAD (s : cstr) (n : Z) : stmt :=
  if n >? 0 then PAD_loop (Z.to_nat n) s (to_size_t n) else ret None.

Definition when (b : bool) (a : stmt) : stmt := if b then a else ret None.

(** [do_conv] *)
Definition do_conv (pspec : T_FormatSpec) (code : ascii) : M S Z :=
  if Ascii.eqb code "n" then
    vp <- va_ptr ;;
    (if vp =? 0 then ret 0
     else
       let v := if Ascii.eqb (qual pspec) "h" then to_short (nChars pspec)
                else if Ascii.eqb (qual pspec) "l" then to_long (nChars pspec)
                else to_int (nChars pspec) in
       _ <- store vp v ;; ret 0)
  else if Ascii.eqb code "c" || Ascii.eqb code "%" then
    cc <- (if Ascii.eqb code "c" then (v <- va_int ;; ret (chr v)) else ret code) ;;
    seq (EMIT [cc] 1) (ret 1)
  else if Ascii.eqb code "s" then
    a <- va_str ;;
    let s := match a with Some s => s | None => str "(null)" end in
    let length := to_int (Z.of_nat (strlen s)) in
    let length := if (0 <=? prec pspec) && (prec pspec <? length)
                  then prec pspec else length in
    let width := MAX (to_int (width pspec - length)) 0 in
    seq (when (negb (has (flags pspec) FMINUS)) (PAD spaces width))
    (seq (EMIT s length)
     (seq (when (has (flags pspec) FMINUS) (PAD spaces width))
      (ret (to_int (length + width)))))
  else if Ascii.eqb code "d" || Ascii.eqb code "i" then
    v <- (if Ascii.eqb (qual pspec) "l" then va_long else va_int) ;;
    let v := if Ascii.eqb (qual pspec) "h" then to_short v else v in
    let uv := if v <? 0 then to_ulong (to_long (- v)) else to_ulong v in
    let length := if v <? 0 then 1
                  else if has (flags pspec) (Z.lor FPLUS FSPACE) then 1 else 0 in
    let buf := digits_loop 64 (fun uv => chr (48 + uv mod 10)) (fun uv => uv / 10) uv [] in
    let numWidth := Zlen buf in
    let digitWidth := numWidth in
    let prec1 := if prec pspec <? 0 then 1 else prec pspec in
    let flags1 := if prec pspec <? 0 then flags pspec else clear (flags pspec) FZERO in
    let numWidth := MAX numWidth prec1 in
    let length := to_int (length + numWidth) in
    let width := MAX (to_int (width pspec - length)) 0 in
    let numWidth := if has flags1 FMINUS then numWidth
                    else if has flags1 FZERO then Legacy.width pspec else numWidth in
    seq (when (negb (has flags1 FMINUS) && negb (has flags1 FZERO)) (PAD spaces width))
    (seq (if v <? 0 then EMIT (str "-") 1
          else if has flags1 FPLUS then EMIT (str "+") 1
          else if has flags1 FSPACE then EMIT (str " ") 1
          else ret None)
     (seq (PAD zeroes (to_int (numWidth - digitWidth)))
      (seq (EMIT buf digitWidth)
       (seq (when (has flags1 FMINUS) (PAD spaces width))
        (ret (to_int (length + width)))))))
  else
    let pspec := if Ascii.eqb code "p"
                 then mkSpec (nChars pspec) (Z.lor FHASH FBANG) 16 16 "l"%char
                 else pspec in
    let code := if Ascii.eqb code "p" then "X"%char else code in
    let base := if Ascii.eqb code "x" || Ascii.eqb code "X" then 16
                else if Ascii.eqb code "u" then 10
                else if Ascii.eqb code "o" then 8
                else if Ascii.eqb code "b" then 2
                else 0 in
    if base >? 0 then
      uv <- (if Ascii.eqb (qual pspec) "l" then va_ulong else va_uint) ;;
      let uv := if Ascii.eqb (qual pspec) "h" then to_ushort uv else uv in
      let pfxWidth := if Ascii.eqb code "o" && negb (uv =? 0) then 1 else 0 in
      let is_xb := Ascii.eqb code "x" || Ascii.eqb code "X" || Ascii.eqb code "b" in
      let pfxWidth := if is_xb && (has (flags pspec) FBANG || negb (uv =? 0))
                      then 2 else pfxWidth in
      let p1 := if is_xb then code else "0"%char in
      let p1 := if is_xb && has (flags pspec) FBANG then lower p1 else p1 in
      let prefix := ["0"%char; p1] in
      let buf :=
        if base =? 10 then
          digits_loop 64 (fun uv => chr (48 + uv mod 10)) (fun uv => uv / 10) uv []
        else
          let mask := to_uint (base - 1) in
          let shift := if base =? 16 then 4 else if base =? 8 then 3 else 1 in
          digits_loop 64
            (fun uv => let cc := digit_at (Z.land uv mask) in
                       if Ascii.eqb code "x" then lower cc else cc)
            (fun uv => Z.shiftr uv shift) uv [] in
      let numWidth := Zlen buf in
      let digitWidth := numWidth in
      let prec1 := if prec pspec <? 0 then 1 else prec pspec in
      let flags1 := if prec pspec <? 0 then flags pspec else clear (flags pspec) FZERO in
      let numWidth := MAX numWidth prec1 in
      let length := to_int (0 + numWidth) in
      let length := if has flags1 FHASH then to_int (length + pfxWidth) else length in
      let width := MAX (to_int (width pspec - length)) 0 in
      seq (when (negb (has flags1 FMINUS) && negb (has flags1 FZERO)) (PAD spaces width))
      (seq (when (has flags1 FHASH) (EMIT prefix pfxWidth))
       (seq (when (negb (has flags1 FMINUS) && has flags1 FZERO) (PAD zeroes width))
        (seq (PAD zeroes (to_int (numWidth - digitWidth)))
         (seq (EMIT buf digitWidth)
          (seq (when (has flags1 FMINUS) (PAD spaces width))
           (ret (to_int (length + width))))))))
    else ret EXBADFORMAT.

Definition fchar : cstr := str " +-#0!".
Definition fbit : list Z := [FSPACE; FPLUS; FMINUS; FHASH; FZERO; FBANG; 0].

Fixpoint parse_flags (s : cstr) (flags : Z) : Z * cstr :=
  match s with
  | [] => (flags, s)
  | c :: rest =>
      if is_nul c then (flags, s)
      else match STRCHR fchar c with
           | Some i => parse_flags rest (Z.lor flags (nth i fbit 0))
           | None => (flags, s)
           end
  end.

(** [for (v = 0; ISDIGIT( *s ); ++s) if (v < limit) v = v * 10 + *s - '0';] *)
Fixpoint parse_number (limit : Z) (s : cstr) (v : Z) : Z * cstr :=
  match s with
  | [] => (v, s)
  | c :: rest =>
      if ISDIGIT c
      then parse_number limit rest (if v <? limit then to_int (v * 10 + code c - 48) else v)
      else (v, s)
  end.

Fixpoint format_loop (fuel : nat) (nChars : Z) (fmt : cstr) : M S Z :=
  match fuel with
  | O => undef
  | Datatypes.S fuel' =>
      if is_nul (READ_CHAR fmt) then ret nChars
      else
        let '(lit, s) := Full.scan_literal fmt in
        let n := to_int (Zlen lit) in
        r <- (if n >? 0 then
                fun m =>
                  let run := firstn (Z.to_nat n) fmt in
                  match cons (sink m) run with
                  | Some s' => Some (true, mkMachine s' (sent m ++ [run]) (ap m) (stores m))
                  | None => Some (false, mkMachine (sink m) (sent m ++ [run]) (ap m) (stores m))
                  end
              else ret true) ;;
        if negb r then ret EXBADFORMAT
        else
          let nChars := if n >? 0 then to_int (nChars + n) else nChars in
          let fmt := s in
          if negb (is_nul (READ_CHAR s)) then
            let s := INC_VOID_PTR s in
            let '(flags, s) := parse_flags s 0 in
            '(width, flags, s) <-
              (if Ascii.eqb (READ_CHAR s) "*" then
                 w <- va_int ;;
                 (if w <? 0 then ret (to_int (- w), Z.lor flags FMINUS, INC_VOID_PTR s)
                  else ret (w, flags, INC_VOID_PTR s))
               else let '(w, s) := parse_number MAXWIDTH s 0 in ret (w, flags, s)) ;;
            '(prec, s) <-
              (if negb (Ascii.eqb (READ_CHAR s) ".") then ret (-1, s)
               else
                 let s := INC_VOID_PTR s in
                 if Ascii.eqb (READ_CHAR s) "*" then
                   p <- va_int ;; ret (p, INC_VOID_PTR s)
                 else ret (parse_number MAXPREC s 0)) ;;
            let c := READ_CHAR s in
            let is_q := negb (is_nul c)
                        && match STRCHR (str "hl") c with Some _ => true | None => false end in
            let qual := if is_q then c else NUL in
            let s := if is_q then INC_VOID_PTR s else s in
            if is_nul (READ_CHAR s) then
              t <- va_str ;;
              match t with
              | Some fmt' => format_loop fuel' nChars fmt'
              | None => undef
              end
            else
              n <- do_conv (mkSpec nChars flags width prec qual) (READ_CHAR s) ;;
              if n <? 0 then ret EXBADFORMAT
              else format_loop fuel' (to_int (nChars + n)) (INC_VOID_PTR s)
          else format_loop fuel' nChars fmt
  end.

Definition format (parg : S) (fmt : option cstr) (args : list arg)
  : option (Z * machine S) :=
  match fmt with
  | None => Some (EXBADFORMAT, mkMachine parg [] args [])
  | Some fmt => format_loop (Full.format_fuel fmt args) 0 fmt (mkMachine parg [] args [])
  end.

End WithSink.

Definition test_sprintf (fmt : string) (args : list arg) : option (Z * string) :=
  match format (list ascii) Full.bufwrite [] (Some (str fmt)) args with
  | Some (r, m) => Some (r, string_of_list_ascii (sink m))
  | None => None
  end.

End Legacy.


(** * Vocabulary of the statements *)

Definition member (c : ascii) (s : cstr) : bool := existsb (Ascii.eqb c) s.


(** The value of a string of decimal digits. *)
Definition decimal (ds : cstr) : Z :=
  fold_left (fun v c => v * 10 + (code c - 48)) ds 0.

Definition is_nonzero_digit (c : ascii) : bool := (49 <=? code c) && (code c <=? 57).


(** Everything the consumer has been handed so far, and its length. *)
Definition text {S} (m : machine S) : list ascii := List.concat (sent m).

(** The field one [gen_out] call asks for: spaces, prefix, zeros, body,
    spaces. *)
Definition field (l : Full.layout) : list ascii :=
  repeat " "%char (Z.to_nat (Full.l_ps1 l))
  ++ Full.bytes (Full.l_pfx_s l) (Full.l_pfx_n l)
  ++ repeat "0"%char (Z.to_nat (Full.l_pz l))
  ++ Full.bytes (Full.l_e_s l) (Full.l_e_n l)
  ++ repeat " "%char (Z.to_nat (Full.l_ps2 l)).

(** The count [gen_out] accumulates in its [size_t n]. *)
Definition field_count (l : Full.layout) : Z :=
  Full.l_ps1 l
  + (match Full.l_pfx_s l with
     | Some _ => if Full.l_pfx_n l =? 0 then 0 else Full.l_pfx_n l
     | None => 0
     end)
  + Full.l_pz l + Full.l_e_n l + Full.l_ps2 l.

(** A [size_t] value. *)
Definition is_size_t (n : Z) : Prop := 0 <= n < 18446744073709551616.

(** A layout whose lengths are [size_t] values and do not run over the
    strings they come with. *)
Definition layout_ok (l : Full.layout) : Prop :=
  is_size_t (Full.l_ps1 l) /\ is_size_t (Full.l_pz l) /\ is_size_t (Full.l_ps2 l)
  /\ Zlen (Full.bytes (Full.l_pfx_s l) (Full.l_pfx_n l))
     = (match Full.l_pfx_s l with
        | Some _ => if Full.l_pfx_n l =? 0 then 0 else Full.l_pfx_n l
        | None => 0
        end)
  /\ Zlen (Full.bytes (Full.l_e_s l) (Full.l_e_n l)) = Full.l_e_n l.

(** Two counts that agree as [unsigned int] values. *)
Definition same_count (a b : Z) : Prop := (a - b) mod 4294967296 = 0.

(** An [int] value. *)
Definition is_int (n : Z) : Prop := -2147483648 <= n < 2147483648.

(** The invariant of the grouping loop of [do_conv_numeric] on a number of
    [N] digits: every separator inserted so far has made the buffer one byte
    longer, and has at least one digit to its right. *)
Definition grp_ok (N : Z) (st : Full.grp_state) : Prop :=
  0 <= Full.g_drem st /\ 0 <= Full.g_ins st
  /\ Full.g_ins st + Full.g_drem st <= N
  /\ Zlen (Full.g_buf st) = N + Full.g_ins st
  /\ is_int (Full.g_wid st).




(** ** Vocabulary of the further properties *)

(** The value of a digit character, in either letter case. *)
Definition digit_value (c : ascii) : Z :=
  let k := code c in
  if (48 <=? k) && (k <=? 57) then k - 48
  else if (65 <=? k) && (k <=? 90) then k - 55
  else if (97 <=? k) && (k <=? 122) then k - 87
  else 0.

(** The number a string of digits stands for in [base], most significant
    digit first. *)
Definition decode (base : Z) (ds : cstr) : Z :=
  fold_left (fun v c => v * base + digit_value c) ds 0.

(** Calling the consumer on [runs] in order, starting from the state [s];
    [None] as soon as a call fails. *)
Fixpoint replay {S} (cons : S -> list ascii -> option S)
         (runs : list (list ascii)) (s : S) : option S :=
  match runs with
  | [] => Some s
  | run :: rest => match cons s run with
                   | Some s' => replay cons rest s'
                   | None => None
                   end
  end.

(** From [m] to [m'] every consumer call succeeded. *)
Definition threads {S} (cons : S -> list ascii -> option S) (m m' : machine S) : Prop :=
  exists runs, sent m' = sent m ++ runs /\ replay cons runs (sink m) = Some (sink m').

(** From [m] to [m'] every consumer call succeeded but the last one, which
    failed. *)
Definition fails {S} (cons : S -> list ascii -> option S) (m m' : machine S) : Prop :=
  exists runs last s, sent m' = sent m ++ runs ++ [last]
                      /\ replay cons runs (sink m) = Some s
                      /\ cons s last = None.

(** [c] leaves the consumer alone. *)
Definition still {S A} (c : M S A) : Prop :=
  forall m a m', c m = Some (a, m') -> sent m' = sent m /\ sink m' = sink m.

(** [c] stops at the first consumer call that fails, and then returns
    EXBADFORMAT. *)
Definition stops_at_failure {S} (cons : S -> list ascii -> option S) (c : M S Z) : Prop :=
  forall m r m', c m = Some (r, m') ->
    threads cons m m' \/ (r = EXBADFORMAT /\ fails cons m m').

(** [c] calls the consumer, returning 0 when all calls succeeded and a
    negative value at the first one that fails. *)
Definition sends_or_fails {S} (cons : S -> list ascii -> option S) (c : M S Z) : Prop :=
  forall m r m', c m = Some (r, m') ->
    (0 <= r /\ threads cons m m') \/ (r < 0 /\ fails cons m m').

(** A character of a template that is neither its end nor a percent sign. *)
Definition is_literal (c : ascii) : bool := negb (is_nul c) && negb (Ascii.eqb c "%").

(** The bit a flag character of the full tier stands for, and the flags a
    run of flag characters adds up to. *)
Definition flag_bit (c : ascii) : Z :=
  match STRCHR Full.fchar c with
  | Some i => nth i Full.fbit 0
  | None => 0
  end.
Definition flag_mask (fl : cstr) : Z :=
  fold_right (fun c acc => Z.lor (flag_bit c) acc) 0 fl.

(** The sign, exponent and fraction fields of the image of a double. *)
Definition fp_sign (bits : Z) : Z := bits / 2 ^ 63.
Definition fp_exp (bits : Z) : Z := (bits / 2 ^ 52) mod 2 ^ 11.
Definition fp_frac (bits : Z) : Z := bits mod 2 ^ 52.

(** The consumer a character sink stands for: it takes one character at a
    time. *)
Definition char_sink {S} (putchar : S -> ascii -> option S) (s : S) (run : list ascii)
  : option S :=
  match run with
  | [c] => putchar s c
  | _ => None
  end.

(** [c] hands over its output one character at a time. *)
Definition singles {S A} (c : M S A) : Prop :=
  forall m a m', c m = Some (a, m') ->
    exists cs, sent m' = sent m ++ map (fun ch => [ch]) cs.

(** [c] always returns: it never runs into behaviour the C standard leaves
    undefined. *)
Definition returns {S A} (c : M S A) : Prop :=
  forall m, exists a m', c m = Some (a, m').
(** * Facts *)

(** ** Machine integer helpers *)

Lemma wrapu_small (w z : Z) : 0 <= z < 2 ^ w -> wrapu w z = z.
Proof. intros H. unfold wrapu. now apply Z.mod_small. Qed.

Lemma wraps_small (w z : Z) :
  0 < w -> - 2 ^ (w - 1) <= z < 2 ^ (w - 1) -> wraps w z = z.
Proof.
  intros Hw H. unfold wraps.
  assert (E : 2 ^ w = 2 * 2 ^ (w - 1)).
  { replace w with (Z.succ (w - 1)) at 1 by lia. apply Z.pow_succ_r. lia. }
  rewrite Z.mod_small; lia.
Qed.

Lemma to_int_small (z : Z) : -2147483648 <= z < 2147483648 -> to_int z = z.
Proof. intros H. apply wraps_small; simpl; lia. Qed.

Lemma to_uint_small (z : Z) : 0 <= z < 4294967296 -> to_uint z = z.
Proof. intros H. apply wrapu_small; simpl; lia. Qed.

Lemma to_size_t_small (z : Z) : 0 <= z < 18446744073709551616 -> to_size_t z = z.
Proof. intros H. apply wrapu_small; simpl; lia. Qed.


(** ** C4: the scenario ["%+06.1d"] *)

(** C4, as stated, fails: with the PLUS flag the sign is printed, so the six
    characters are not two spaces and the digits. *)
Lemma C4_plus_sign_is_printed :
  Full.test_sprintf "%+06.1d" [AInt 1234] <> Some (6, "  1234"%string).
Proof. vm_compute. discriminate. Qed.

(** C4, amended: [format] with template ["%+06.1d"] and argument 1234 emits
    the six characters [" +1234"] (one space, the plus sign, the digits) and
    returns 6; the explicit precision cancels the ZERO flag, so the field is
    padded with a space and not with zeros.  Without the PLUS flag the output
    is ["  1234"], and without the precision it is zero padded. *)
Theorem C4_plus_zero_precision :
  Full.test_sprintf "%+06.1d" [AInt 1234] = Some (6, " +1234"%string)
  /\ Full.test_sprintf "%06.1d" [AInt 1234] = Some (6, "  1234"%string)
  /\ Full.test_sprintf "%+06d" [AInt 1234] = Some (6, "+01234"%string)
  /\ Mid.test_sprintf "%+06.1d" [AInt 1234] = Some (6, " +1234"%string).
Proof. repeat split; vm_compute; reflexivity. Qed.

(** ** C7: centring *)

(** C7, as stated, fails: with CARET and without MINUS the odd space of the
    padding goes to the left of the field (width 8, length 5: two spaces in
    front, one behind), and with MINUS it goes to the right. *)
Lemma C7_odd_space_goes_left :
  Full.calc_space_padding (Full.mkSpec 0 Full.FCARET 8 (-1) 0 NUL NUL []) 5 = (2, 1)
  /\ Full.calc_space_padding
       (Full.mkSpec 0 (Z.lor Full.FCARET Full.FMINUS) 8 (-1) 0 NUL NUL []) 5 = (1, 2)
  /\ ~ (snd (Full.calc_space_padding (Full.mkSpec 0 Full.FCARET 8 (-1) 0 NUL NUL []) 5)
        > fst (Full.calc_space_padding (Full.mkSpec 0 Full.FCARET 8 (-1) 0 NUL NUL []) 5)).
Proof. repeat split; vm_compute; congruence. Qed.

(** C7, amended: with the CARET flag the space padding [tot = max 0 (width -
    length)] is split as [left = (tot + (1 if MINUS is not set else 0)) / 2]
    and [right = tot - left]; so an odd padding puts its extra space on the
    LEFT (the text leans right) unless MINUS is also set, which puts it on the
    right (the text leans left). *)
Theorem C7_caret_split (pspec : Full.T_FormatSpec) (length : Z) :
  0 <= length < 2 ^ 63 ->
  0 <= Full.width pspec < 2 ^ 63 ->
  has (Full.flags pspec) Full.FCARET = true ->
  let tot := Z.max 0 (Full.width pspec - length) in
  let minus := has (Full.flags pspec) Full.FMINUS in
  let left := fst (Full.calc_space_padding pspec length) in
  let right := snd (Full.calc_space_padding pspec length) in
  left = (tot + (if minus then 0 else 1)) / 2
  /\ right = tot - left
  /\ (Z.odd tot = true -> if minus then right = left + 1 else left = right + 1).
Proof.
  intros Hl Hw Hc tot minus left right.
  subst left right. unfold Full.calc_space_padding. rewrite Hc.
  fold minus.
  assert (P63 : 2 ^ 63 = 9223372036854775808) by reflexivity.
  rewrite (to_size_t_small (Full.width pspec)) by lia.
  assert (Etot : (if length <? Full.width pspec
                  then to_size_t (Full.width pspec - length) else 0) = tot).
  { subst tot. destruct (Z.ltb_spec length (Full.width pspec)).
    - rewrite to_size_t_small by lia. lia.
    - lia. }
  rewrite Etot.
  assert (Htot : 0 <= tot < 2 ^ 63) by (subst tot; lia).
  assert (Esum : to_size_t ((if minus then 0 else tot) + (if minus then tot else 0)) = tot).
  { destruct minus; rewrite ?Z.add_0_l, ?Z.add_0_r; apply to_size_t_small; lia. }
  rewrite Esum. cbn [fst snd].
  set (b := if minus then 0 else 1).
  assert (Hb : 0 <= b <= 1) by (subst b; destruct minus; lia).
  rewrite (to_size_t_small (tot + b)) by lia.
  assert (Hq : 0 <= (tot + b) / 2 <= tot).
  { split. apply Z.div_pos; lia.
    assert ((tot + b) / 2 < tot + 1) by (apply Z.div_lt_upper_bound; lia). lia. }
  rewrite to_size_t_small by lia.
  split; [reflexivity|]. split; [reflexivity|].
  intros Hodd.
  rewrite Z.odd_spec in Hodd. destruct Hodd as [k Hk].
  subst b. destruct minus.
  - replace (tot + 0) with (k * 2 + 1) by lia.
    rewrite Z.div_add_l by lia. change (1 / 2) with 0. lia.
  - replace (tot + 1) with ((k + 1) * 2) by lia.
    rewrite Z.div_mul by lia. lia.
Qed.

Lemma C7_caret_split_witness :
  fst (Full.calc_space_padding (Full.mkSpec 0 Full.FCARET 8 (-1) 0 NUL NUL []) 5)
  = (Z.max 0 (8 - 5) + 1) / 2
  /\ snd (Full.calc_space_padding (Full.mkSpec 0 Full.FCARET 8 (-1) 0 NUL NUL []) 5)
     = Z.max 0 (8 - 5)
       - fst (Full.calc_space_padding (Full.mkSpec 0 Full.FCARET 8 (-1) 0 NUL NUL []) 5)
  /\ (Z.odd (Z.max 0 (8 - 5)) = true ->
      fst (Full.calc_space_padding (Full.mkSpec 0 Full.FCARET 8 (-1) 0 NUL NUL []) 5)
      = snd (Full.calc_space_padding (Full.mkSpec 0 Full.FCARET 8 (-1) 0 NUL NUL []) 5) + 1).
Proof.
  apply (C7_caret_split (Full.mkSpec 0 Full.FCARET 8 (-1) 0 NUL NUL []) 5).
  - simpl; lia.
  - simpl; lia.
  - reflexivity.
Defined.

(** ** C9: a null string argument *)

(** C9: a [%s] conversion whose pointer argument is null behaves, on the full
    and tiny tiers, exactly as if the argument were the string ["(null)"]
    (a plain [%s] returns 6); on the micro tier it sends the single character
    [?] and returns 1 whatever the flags, width and precision are. *)
Theorem C9_null_string :
  (forall S cons pspec code snk snt rest sts,
      Full.do_conv_s S cons pspec code (mkMachine snk snt (AStr None :: rest) sts)
      = Full.do_conv_s S cons pspec code
          (mkMachine snk snt (AStr (Some (str "(null)")) :: rest) sts))
  /\ Full.test_sprintf "%s" [AStr None] = Some (6, "(null)"%string)
  /\ (forall S cons pspec snk snt rest sts,
      Tiny.do_conv_s S cons pspec (mkMachine snk snt (AStr None :: rest) sts)
      = Tiny.do_conv_s S cons pspec
          (mkMachine snk snt (AStr (Some (str "(null)")) :: rest) sts))
  /\ Tiny.test_sprintf "%s" [AStr None] = Some (6, "(null)"%string)
  /\ (forall S putchar pspec snk snt rest sts,
      Micro.do_conv S putchar pspec "s" (mkMachine snk snt (AStr None :: rest) sts)
      = match putchar snk "?"%char with
        | Some snk' => Some (1, mkMachine snk' (snt ++ [["?"%char]]) rest sts)
        | None => Some (EXBADFORMAT, mkMachine snk (snt ++ [["?"%char]]) rest sts)
        end)
  /\ Micro.test_sprintf "%s" [AStr None] = Some (1, "?"%string)
  /\ Micro.test_sprintf "%-10.3s" [AStr None] = Some (1, "?"%string).
Proof.
  repeat split; try (vm_compute; reflexivity).
  intros S putchar pspec snk snt rest sts.
  cbv [Micro.do_conv Micro.do_conv_s Micro.emit Micro.emit_loop Micro.putc
       va_str va_next bind ret ap sink sent stores Ascii.eqb Bool.eqb
       Z.to_nat Pos.to_nat Pos.iter_op Nat.add option_map].
  destruct (putchar snk "?"%char); reflexivity.
Qed.

(** ** C10: unsupported conversion letters *)















(** ** C5: the style chosen for [%g] and [%G] *)



(** The harness vectors for the rule, run through [do_conv_fp]: ["%.0g"] of
    1.2345 is printed in the [f] style with one digit, ["%.2g"] of 123.45 in
    the [e] style. *)
Lemma g_style_vectors :
  Fp.test_fp (Full.mkSpec 0 0 0 0 0 NUL NUL []) "g" [ADouble 0x3ff3c083126e978d]
  = Some (3, "1.2"%string)
  /\ Fp.test_fp (Full.mkSpec 0 0 0 2 0 NUL NUL []) "g" [ADouble 0x405edccccccccccd]
     = Some (8, "1.23e+02"%string).
Proof. split; vm_compute; reflexivity. Qed.

(** The older inline [do_conv_fp] of [format.c] compares the exponent with
    the precision as parsed and replaces a zero precision only afterwards. *)
Lemma inline_do_conv_fp_zero_precision :
  Full.test_sprintf "%.0g" [ADouble 0x3ff3c083126e978d] = Some (7, "1.2e+00"%string).
Proof. vm_compute. reflexivity. Qed.

(** ** C6: rounding of the decimal mantissa *)

Lemma shift_addend_div (n : nat) (a : Z) :
  0 <= a -> Fp.shift_addend n a = a / 10 ^ Z.of_nat n.
Proof.
  revert a. induction n as [|n IH]; intros a Ha.
  - cbn. now rewrite Z.div_1_r.
  - cbn [Fp.shift_addend]. rewrite IH by (apply Z.div_pos; lia).
    rewrite Nat2Z.inj_succ, Z.pow_succ_r by lia.
    rewrite Z.div_div by lia. reflexivity.
Qed.

(** C6, as stated, fails for the [e] style with a negative exponent: for
    exponent -3 and precision 2 the half unit is added at position 5, not at
    position [|-3| + 2 + 1 = 6]. *)
Lemma C6_negative_exponent_shift :
  Fp.round_shift (-3) 2 false false = 5
  /\ Fp.round_mantissa 1000000000000000 (-3) 2 false false
     = (1000000000000000 + 5 * Full.DEC_1P0 / 10 ^ 5, -3)
  /\ Fp.round_mantissa 1000000000000000 (-3) 2 false false
     <> (1000000000000000 + 5 * Full.DEC_1P0 / 10 ^ (Z.abs (-3) + 2 + 1), -3).
Proof. repeat split; vm_compute; congruence. Qed.

(** C6, amended: before layout, and without the engineering flag,
    [round_mantissa] adds [5 * DEC_1P0 / 10 ^ shift] to the decimal mantissa,
    where for the [f] style [shift = max 0 (exponent + precision + 1)], and for
    the [e] style [shift = exponent + precision + 1] when the exponent is not
    negative and [shift = |exponent| + precision] when it is negative ([%g]
    has been turned into one of the two styles before).  If the sum reaches
    [10 * DEC_1P0], that is overflows the DEC_SIG_FIG digits, the mantissa
    becomes [(mantissa + 5) / 10] and the exponent is incremented. *)
Theorem C6_round_mantissa (mantissa exponent prec : Z) (is_f : bool) :
  0 <= mantissa < 10 * Full.DEC_1P0 ->
  -1000000 <= exponent <= 1000000 ->
  0 <= prec <= Full.MAXPREC ->
  let shift :=
    if is_f then Z.max 0 (exponent + prec + 1)
    else if exponent <? 0 then Z.abs exponent + prec
    else exponent + prec + 1 in
  let sum := mantissa + 5 * Full.DEC_1P0 / 10 ^ shift in
  Fp.round_mantissa mantissa exponent prec is_f false
  = if sum >=? 10 * Full.DEC_1P0 then ((sum + 5) / 10, exponent + 1)
    else (sum, exponent).
Proof.
  intros Hm He Hp shift sum.
  unfold Full.MAXPREC in Hp.
  assert (Hshift : Fp.round_shift exponent prec is_f false = shift /\ 0 <= shift).
  { subst shift. unfold Fp.round_shift, MAX, ABS. destruct is_f; cbn [negb].
    - rewrite to_int_small by lia.
      destruct (Z.gtb_spec (exponent + prec + 1) 0); lia.
    - destruct (Z.ltb_spec exponent 0).
      + destruct (Z.ltb_spec (exponent + 1) 0);
          rewrite to_int_small by lia;
          match goal with |- context [?a >? 0] => destruct (Z.gtb_spec a 0) end; lia.
      + destruct (Z.ltb_spec exponent 0); try lia.
        rewrite to_int_small by lia.
        destruct (Z.gtb_spec (exponent + prec + 1) 0); lia. }
  destruct Hshift as [Es Hs0].
  unfold Fp.round_mantissa. rewrite Es.
  rewrite shift_addend_div by (vm_compute; discriminate).
  rewrite Z2Nat.id by lia.
  replace (Full.DEC_1P0 * 5) with (5 * Full.DEC_1P0) by apply Z.mul_comm.
  fold sum.
  assert (Hadd : 0 <= 5 * Full.DEC_1P0 / 10 ^ shift <= 5 * Full.DEC_1P0).
  { split.
    - apply Z.div_pos; [vm_compute; discriminate | apply Z.pow_pos_nonneg; lia].
    - apply Z.div_le_upper_bound. apply Z.pow_pos_nonneg; lia.
      assert (1 <= 10 ^ shift) by (apply Z.lt_pred_le, Z.pow_pos_nonneg; lia).
      unfold Full.DEC_1P0. nia. }
  unfold Full.DEC_1P0 in *.
  assert (Hsum : 0 <= sum < 15000000000000000) by (subst sum; lia).
  rewrite (wrapu_small 64 sum) by (simpl; lia).
  destruct (Z.geb_spec sum (10 * 1000000000000000)) as [Hov|Hno];
    replace (1000000000000000 * 10) with (10 * 1000000000000000) by reflexivity;
    destruct (Z.geb_spec sum (10 * 1000000000000000)); try lia.
  - rewrite wrapu_small by (simpl; lia).
    rewrite to_int_small by lia. reflexivity.
  - reflexivity.
Qed.

Lemma C6_round_mantissa_witness :
  Fp.round_mantissa 9999999999999999 0 2 true false
  = if 9999999999999999 + 5 * Full.DEC_1P0 / 10 ^ (Z.max 0 (0 + 2 + 1))
       >=? 10 * Full.DEC_1P0
    then ((9999999999999999 + 5 * Full.DEC_1P0 / 10 ^ (Z.max 0 (0 + 2 + 1)) + 5) / 10,
          0 + 1)
    else (9999999999999999 + 5 * Full.DEC_1P0 / 10 ^ (Z.max 0 (0 + 2 + 1)), 0).
Proof.
  apply (C6_round_mantissa 9999999999999999 0 2 true).
  - vm_compute; split; congruence.
  - lia.
  - vm_compute; split; congruence.
Defined.

(** ** C3 and C8: precision, the ZERO flag and grouping in [do_conv_numeric] *)

Lemma has_clear_zero (f b : Z) :
  Z.land (Z.lnot Full.FZERO) b = b -> has (clear f Full.FZERO) b = has f b.
Proof.
  intros Hb. unfold has, clear. now rewrite <- Z.land_assoc, Hb.
Qed.

Lemma has_zero_clear_zero (f : Z) : has (clear f Full.FZERO) Full.FZERO = false.
Proof.
  unfold has, clear. rewrite <- Z.land_assoc.
  change (Z.land (Z.lnot Full.FZERO) Full.FZERO) with 0.
  now rewrite Z.land_0_r.
Qed.

Lemma clear_zero_idem (f : Z) :
  clear (clear f Full.FZERO) Full.FZERO = clear f Full.FZERO.
Proof.
  unfold clear. rewrite <- Z.land_assoc. now rewrite Z.land_diag.
Qed.

Lemma clear_zero_lor_hash (f : Z) :
  Z.lor (clear f Full.FZERO) Full.FHASH = clear (Z.lor f Full.FHASH) Full.FZERO.
Proof.
  unfold clear. rewrite Z.lor_land_distr_l.
  change (Z.lor (Z.lnot Full.FZERO) Full.FHASH) with (Z.lnot Full.FZERO).
  reflexivity.
Qed.

(** Clearing ZERO in the flags only clears it in the flags [numeric_value]
    hands on. *)
Lemma numeric_value_clear_zero S pspec m :
  Full.numeric_value S (Full.set_flags pspec (clear (Full.flags pspec) Full.FZERO)) m
  = match Full.numeric_value S pspec m with
    | Some ((uv, p0, w, f), m') => Some ((uv, p0, w, clear f Full.FZERO), m')
    | None => None
    end.
Proof.
  unfold Full.numeric_value, Full.set_flags. cbn [Full.flags Full.qual].
  rewrite !has_clear_zero by reflexivity.
  destruct (has (Full.flags pspec) Full.F_IS_SIGNED).
  - unfold bind.
    destruct ((if _ : bool then va_long else va_int) m) as [[v m']|]; [|reflexivity].
    match goal with
    | |- context [negb (is_nul ?p)] => destruct (negb (is_nul p))
    end; unfold ret; rewrite ?clear_zero_lor_hash; reflexivity.
  - unfold bind.
    destruct ((if _ : bool then va_ulong else va_uint) m) as [[v m']|]; reflexivity.
Qed.

Lemma calc_space_padding_prec pspec p length :
  Full.calc_space_padding (Full.set_prec pspec p) length
  = Full.calc_space_padding pspec length.
Proof. reflexivity. Qed.

(** C3, first half: with an explicit precision the ZERO flag has no effect on
    what [do_conv_numeric] hands to [gen_out]. *)
Lemma numeric_layout_precision_kills_zero S pspec code base m :
  0 <= Full.prec pspec ->
  Full.numeric_layout S pspec code base m
  = Full.numeric_layout S
      (Full.set_flags pspec (clear (Full.flags pspec) Full.FZERO)) code base m.
Proof.
  intros Hp. unfold Full.numeric_layout, bind.
  rewrite numeric_value_clear_zero.
  destruct (Full.numeric_value S pspec m) as [[[[[uv p0] w] f] m']|]; [|reflexivity].
  cbn [Full.prec Full.flags Full.grouping Full.set_flags Full.width].
  rewrite !has_clear_zero by reflexivity.
  destruct (Z.ltb_spec (Full.prec pspec) 0) as [Hneg|_]; [lia|].
  rewrite clear_zero_idem.
  reflexivity.
Qed.

Lemma group_loop_no_digits S fuel g st m :
  Full.g_drem st = 0 -> Full.group_loop S fuel g st m = Some (st, m).
Proof. intros H. destruct fuel; cbn; [reflexivity | now rewrite H]. Qed.

Lemma digits_loop_zero fuel digit next :
  digits_loop fuel digit next 0 [] = [].
Proof. destruct fuel; reflexivity. Qed.

Lemma numeric_digits_zero code base : Full.numeric_digits code base 0 = [].
Proof.
  unfold Full.numeric_digits.
  destruct (base =? 10); [apply digits_loop_zero|].
  destruct ((base =? 2) || (base =? 8) || (base =? 16)); apply digits_loop_zero.
Qed.

(** C3, second half: precision 0 and value 0 give an empty body and no zero
    padding. *)
Lemma numeric_layout_zero_zero S pspec code base m p0 w f m1 :
  Full.prec pspec = 0 ->
  Full.numeric_value S pspec m = Some ((0, p0, w, f), m1) ->
  exists l, Full.numeric_layout S pspec code base m = Some (l, m1)
            /\ Full.l_e_n l = 0 /\ Full.l_pz l = 0
            /\ Full.bytes (Full.l_e_s l) (Full.l_e_n l) = [].
Proof.
  intros Hp Hv. unfold Full.numeric_layout, bind. rewrite Hv.
  rewrite numeric_digits_zero. cbn [Zlen List.length Z.of_nat].
  assert (Eg : (if negb (Zlen (Full.grouping pspec) =? 0)
                then Full.group_loop S
                       (Z.to_nat (0 + Zlen (Full.grouping pspec) + 1))
                       (Full.grouping pspec)
                       (Full.mkGrp (Zlen (Full.grouping pspec)) 0 NUL 0 [] 0)
                else ret (Full.mkGrp 0 0 NUL 0 [] 0)) m1
               = Some (Full.mkGrp (if negb (Zlen (Full.grouping pspec) =? 0)
                                   then Zlen (Full.grouping pspec) else 0)
                                  0 NUL 0 [] 0, m1)).
  { destruct (negb (Zlen (Full.grouping pspec) =? 0)).
    - now apply group_loop_no_digits.
    - reflexivity. }
  rewrite Eg. cbn [Full.g_ins Full.g_buf].
  rewrite Hp. cbn [Z.ltb Z.compare].
  change (to_size_t (0 + 0)) with 0.
  change (to_size_t (to_size_t 0 + 0)) with 0.
  change (MAX 0 0) with 0.
  change (to_size_t (0 - 0)) with 0.
  rewrite has_zero_clear_zero.
  destruct (Full.calc_space_padding _ _) as [ps1 ps2].
  eexists. split; [reflexivity|]. cbn. repeat split; reflexivity.
Qed.

(** C3: for every integer conversion an explicit precision disables the ZERO
    flag: the layout handed to [gen_out] is the one obtained with the flag
    cleared, and its left space padding is never turned into zeros; and a
    conversion with precision 0 of the value 0 has an empty digit body (no
    digit and no padding zero). *)
Theorem C3_precision_and_zero :
  (forall S pspec code base m,
      0 <= Full.prec pspec ->
      Full.numeric_layout S pspec code base m
      = Full.numeric_layout S
          (Full.set_flags pspec (clear (Full.flags pspec) Full.FZERO)) code base m)
  /\ (forall S pspec code base m p0 w f m1,
      Full.prec pspec = 0 ->
      Full.numeric_value S pspec m = Some ((0, p0, w, f), m1) ->
      exists l, Full.numeric_layout S pspec code base m = Some (l, m1)
                /\ Full.l_e_n l = 0 /\ Full.l_pz l = 0
                /\ Full.bytes (Full.l_e_s l) (Full.l_e_n l) = [])
  /\ Full.test_sprintf "%.0d|%.0u|%.0x|%.0X|%.0o|%.0b|%.0i|%5.0d|%05.0d|%+.0d"
       [AInt 0; AInt 0; AInt 0; AInt 0; AInt 0; AInt 0; AInt 0; AInt 0; AInt 0; AInt 0]
     = Some (20, "|||||||     |     |+"%string)
  /\ Full.test_sprintf "%06d|%06.1d|%06.5x" [AInt 42; AInt 42; AInt 42]
     = Some (20, "000042|    42| 0002a"%string).
Proof.
  split; [|split; [|split]].
  - intros. now apply numeric_layout_precision_kills_zero.
  - intros. eapply numeric_layout_zero_zero; eassumption.
  - vm_compute. reflexivity.
  - vm_compute. reflexivity.
Qed.

Lemma C3_precision_and_zero_witness :
  exists l,
    Full.numeric_layout (list ascii) (Full.mkSpec 0 Full.FZERO 5 0 0 NUL NUL []) "u" 10
      (mkMachine [] [] [AInt 0] []) = Some (l, mkMachine [] [] [] [])
    /\ Full.l_e_n l = 0 /\ Full.l_pz l = 0
    /\ Full.bytes (Full.l_e_s l) (Full.l_e_n l) = [].
Proof.
  apply (proj1 (proj2 C3_precision_and_zero) (list ascii)
           (Full.mkSpec 0 Full.FZERO 5 0 0 NUL NUL []) "u"%char 10
           (mkMachine [] [] [AInt 0] []) "0"%char 0 Full.FZERO).
  - reflexivity.
  - reflexivity.
Defined.

(** C8, on the arguments of [gen_out]: the prefix, the body (the digits with
    their separators), its length and the arguments read do not depend on the
    precision. *)
Lemma numeric_layout_body_precision S pspec code base p1 p2 m :
  option_map (fun r => (Full.l_pfx_s (fst r), Full.l_pfx_n (fst r),
                        Full.l_e_s (fst r), Full.l_e_n (fst r), snd r))
             (Full.numeric_layout S (Full.set_prec pspec p1) code base m)
  = option_map (fun r => (Full.l_pfx_s (fst r), Full.l_pfx_n (fst r),
                          Full.l_e_s (fst r), Full.l_e_n (fst r), snd r))
               (Full.numeric_layout S (Full.set_prec pspec p2) code base m).
Proof.
  unfold Full.numeric_layout, bind.
  change (Full.numeric_value S (Full.set_prec pspec p1) m)
    with (Full.numeric_value S pspec m).
  change (Full.numeric_value S (Full.set_prec pspec p2) m)
    with (Full.numeric_value S pspec m).
  destruct (Full.numeric_value S pspec m) as [[[[[uv p0] w] f] m']|]; [|reflexivity].
  cbn [Full.grouping Full.set_prec].
  match goal with
  | |- context [(if negb (Zlen (Full.grouping pspec) =? 0) then ?a else ?b) m'] =>
      destruct ((if negb (Zlen (Full.grouping pspec) =? 0) then a else b) m')
        as [[st m'']|]; [|reflexivity]
  end.
  cbn [Full.prec].
  do 2 match goal with
       | |- context [Full.calc_space_padding ?a ?b] =>
           destruct (Full.calc_space_padding a b) as [? ?]
       end.
  reflexivity.
Qed.

(** ** What [emit], [pad] and [gen_out] hand to the consumer *)

Ltac mlia := Z.to_euclidean_division_equations; lia.

Ltac run_bind H :=
  match type of H with
  | bind ?c _ ?m = Some _ =>
      let E := fresh "E" in
      unfold bind at 1 in H;
      destruct (c m) as [[? ?]|] eqn:E; [|discriminate H]
  | Full.orbad _ ?c _ ?m = Some _ =>
      let E := fresh "E" in
      unfold Full.orbad at 1, bind at 1 in H;
      destruct (c m) as [[? ?]|] eqn:E; [|discriminate H]
  | Full.counted _ _ ?c _ ?m = Some _ =>
      let E := fresh "E" in
      unfold Full.counted at 1, bind at 1 in H;
      destruct (c m) as [[? ?]|] eqn:E; [|discriminate H]
  end.

Lemma ret_inv {S A} (a b : A) (m m' : machine S) :
  ret a m = Some (b, m') -> b = a /\ m' = m.
Proof. unfold ret. intros H. inversion H. auto. Qed.

Lemma firstn_repeat_le {A} (c : A) (k n : nat) :
  (k <= n)%nat -> firstn k (repeat c n) = repeat c k.
Proof.
  revert n. induction k as [|k IH]; intros [|n] Hk; cbn; try reflexivity; try lia.
  f_equal. apply IH. lia.
Qed.

Lemma is_size_t_wrap n : is_size_t (to_size_t n).
Proof. unfold is_size_t, to_size_t, wrapu. mlia. Qed.

Lemma is_size_t_half n : is_size_t n -> is_size_t (n / 2).
Proof. unfold is_size_t. mlia. Qed.

Lemma is_size_t_0 : is_size_t 0.
Proof. unfold is_size_t. lia. Qed.

Create HintDb fmt.

#[local] Hint Resolve is_size_t_wrap is_size_t_half is_size_t_0 : fmt.

Lemma calc_space_padding_size_t pspec length :
  is_size_t (fst (Full.calc_space_padding pspec length))
  /\ is_size_t (snd (Full.calc_space_padding pspec length)).
Proof.
  unfold Full.calc_space_padding.
  destruct (has (Full.flags pspec) Full.FCARET), (has (Full.flags pspec) Full.FMINUS),
    (length <? to_size_t (Full.width pspec)); cbn [fst snd]; auto with fmt.
Qed.

Section Emission.

Variable S : Type.
Variable cons : S -> list ascii -> option S.

Lemma emit_text s n (m m' : machine S) r :
  Full.emit S cons s n m = Some (r, m') ->
  text m' = text m ++ Full.bytes s n /\ ap m' = ap m /\ (r = 0 \/ r = EXBADFORMAT).
Proof.
  unfold Full.emit, text. intros H.
  destruct (cons (sink m) (Full.bytes s n)); inversion H; subst; cbn;
    rewrite concat_app; cbn; rewrite app_nil_r; auto.
Qed.

Lemma pad_loop_text c fuel : forall n (m m' : machine S) r,
  is_size_t n -> n <= Z.of_nat fuel ->
  Full.pad_loop S cons fuel (repeat c 16) n m = Some (r, m') ->
  ap m' = ap m
  /\ (r = EXBADFORMAT \/ (r = 0 /\ text m' = text m ++ repeat c (Z.to_nat n))).
Proof.
  induction fuel as [|fuel IH]; intros n m m' r Hn Hf H.
  - apply ret_inv in H as [-> ->]. split; [reflexivity|]. right. split; [reflexivity|].
    replace (Z.to_nat n) with 0%nat by (unfold is_size_t in Hn; lia).
    cbn. now rewrite app_nil_r.
  - cbn [Full.pad_loop] in H.
    destruct (Z.gtb_spec n 0) as [Hpos|Hz].
    + run_bind H.
      apply emit_text in E as (Et & Ea & Er).
      destruct (Z.ltb_spec z 0) as [Hneg|Hok].
      * apply ret_inv in H as [-> ->]. auto.
      * assert (Hj : 0 < MIN Full.PAD_STRING_LEN n <= 16 /\ MIN Full.PAD_STRING_LEN n <= n).
        { unfold MIN, Full.PAD_STRING_LEN. destruct (Z.ltb_spec 16 n); lia. }
        assert (Hrest : to_size_t (n - MIN Full.PAD_STRING_LEN n)
                        = n - MIN Full.PAD_STRING_LEN n).
        { unfold to_size_t, wrapu. unfold is_size_t in Hn.
          apply Z.mod_small. change (2 ^ 64) with 18446744073709551616. lia. }
        rewrite Hrest in H.
        apply IH in H as (Ha & Hr).
        -- split; [congruence|].
           destruct Hr as [Hr|[Hr Ht]]; [auto|]. right. split; [assumption|].
           rewrite Ht, Et, <- app_assoc. f_equal.
           cbn [Full.bytes]. rewrite firstn_repeat_le by lia.
           rewrite <- repeat_app. f_equal. lia.
        -- unfold is_size_t in *. lia.
        -- lia.
    + apply ret_inv in H as [-> ->]. split; [reflexivity|]. right. split; [reflexivity|].
      replace (Z.to_nat n) with 0%nat by lia.
      cbn. now rewrite app_nil_r.
Qed.

Lemma pad_text c n (m m' : machine S) r :
  is_size_t n ->
  (if n =? 0 then ret 0 else Full.pad S cons (repeat c 16) n) m = Some (r, m') ->
  ap m' = ap m
  /\ (r < 0 \/ text m' = text m ++ repeat c (Z.to_nat n)).
Proof.
  intros Hn H. destruct (Z.eqb_spec n 0) as [->|Hnz].
  - apply ret_inv in H as [-> ->]. cbn. rewrite app_nil_r. auto.
  - unfold Full.pad in H. apply pad_loop_text in H.
    + destruct H as (Ha & [->|[_ Ht]]); split; auto. left. reflexivity.
    + assumption.
    + unfold is_size_t in Hn. lia.
Qed.

(** [gen_out] either fails, or hands over exactly the field and returns its
    count cut down to an [int]. *)
Lemma gen_layout_text l (m m' : machine S) r :
  is_size_t (Full.l_ps1 l) -> is_size_t (Full.l_pz l) -> is_size_t (Full.l_ps2 l) ->
  Full.gen_layout S cons l m = Some (r, m') ->
  ap m' = ap m
  /\ (r = EXBADFORMAT
      \/ (text m' = text m ++ field l /\ same_count r (field_count l))).
Proof.
  intros H1 Hz H2 H. destruct l as [ps1 pfx_s pfx_n pz e_s e_n ps2].
  unfold Full.gen_layout, Full.gen_out in H.
  unfold field, field_count. cbn [Full.l_ps1 Full.l_pfx_s Full.l_pfx_n Full.l_pz
    Full.l_e_s Full.l_e_n Full.l_ps2] in *.
  run_bind H. apply (pad_text " "%char) in E as (Ea1 & Et1); [|assumption].
  destruct (Z.ltb_spec z 0) as [?|?]; [apply ret_inv in H as [-> ->]; auto|].
  destruct Et1 as [?|Et1]; [lia|].
  run_bind H.
  assert (Hp : ap m1 = ap m0
               /\ text m1 = text m0 ++ Full.bytes pfx_s pfx_n).
  { destruct pfx_s as [p|]; [destruct (Z.eqb_spec pfx_n 0) as [->|]|]; cbn [negb] in E.
    - apply ret_inv in E as [-> ->]. cbn. now rewrite app_nil_r.
    - apply emit_text in E as (? & ? & ?). auto.
    - apply ret_inv in E as [-> ->]. cbn. now rewrite app_nil_r. }
  destruct Hp as (Ea2 & Et2). clear E.
  destruct (Z.ltb_spec z0 0) as [?|?]; [apply ret_inv in H as [-> ->]; split; [congruence|auto]|].
  run_bind H. apply (pad_text "0"%char) in E as (Ea3 & Et3); [|assumption].
  destruct (Z.ltb_spec z1 0) as [?|?]; [apply ret_inv in H as [-> ->]; split; [congruence|auto]|].
  destruct Et3 as [?|Et3]; [lia|].
  run_bind H.
  assert (He : ap m3 = ap m2 /\ text m3 = text m2 ++ Full.bytes e_s e_n).
  { destruct (Z.eqb_spec e_n 0) as [->|].
    - apply ret_inv in E as [-> ->]. destruct e_s; cbn; now rewrite app_nil_r.
    - apply emit_text in E as (? & ? & ?). auto. }
  destruct He as (Ea4 & Et4). clear E.
  destruct (Z.ltb_spec z2 0) as [?|?]; [apply ret_inv in H as [-> ->]; split; [congruence|auto]|].
  run_bind H. apply (pad_text " "%char) in E as (Ea5 & Et5); [|assumption].
  destruct (Z.ltb_spec z3 0) as [?|?]; [apply ret_inv in H as [-> ->]; split; [congruence|auto]|].
  destruct Et5 as [?|Et5]; [lia|].
  apply ret_inv in H as [-> ->].
  split; [congruence|]. right. split.
  - rewrite Et5, Et4, Et3, Et2, Et1. now rewrite <- !app_assoc.
  - unfold same_count, to_int, wraps, to_size_t, wrapu.
    change (2 ^ 64) with 18446744073709551616.
    change (2 ^ 32) with 4294967296. change (2 ^ (32 - 1)) with 2147483648.
    destruct pfx_s as [p|]; [destruct (Z.eqb_spec pfx_n 0)|]; cbn [negb]; mlia.
Qed.

End Emission.

(** ** The layout of a numeric conversion *)

Lemma to_int_is_int z : is_int (to_int z).
Proof.
  unfold is_int, to_int, wraps.
  change (2 ^ 32) with 4294967296. change (2 ^ (32 - 1)) with 2147483648. mlia.
Qed.

Lemma va_next_quiet S (m m' : machine S) a :
  va_next m = Some (a, m') -> sent m' = sent m.
Proof. unfold va_next. destruct (ap m); intros H; inversion H. reflexivity. Qed.

Ltac va_quiet :=
  let H := fresh "H" in
  intros H; run_bind H;
  match goal with E : va_next _ = Some _ |- _ => apply va_next_quiet in E end;
  match type of H with
  | match ?a with _ => _ end _ = _ => destruct a
  end;
  try discriminate H; apply ret_inv in H as [-> ->]; auto using to_int_is_int.

Lemma va_int_quiet S (m m' : machine S) v :
  va_int m = Some (v, m') -> sent m' = sent m /\ is_int v.
Proof. unfold va_int. va_quiet. Qed.

Lemma va_uint_quiet S (m m' : machine S) v :
  va_uint m = Some (v, m') -> sent m' = sent m.
Proof. unfold va_uint. va_quiet. Qed.

Lemma va_long_quiet S (m m' : machine S) v :
  va_long m = Some (v, m') -> sent m' = sent m.
Proof. unfold va_long. va_quiet. Qed.

Lemma va_ulong_quiet S (m m' : machine S) v :
  va_ulong m = Some (v, m') -> sent m' = sent m.
Proof. unfold va_ulong. va_quiet. Qed.




Lemma numeric_value_quiet S pspec (m m' : machine S) uv p0 w f :
  Full.numeric_value S pspec m = Some ((uv, p0, w, f), m') ->
  sent m' = sent m /\ (w = 0 \/ w = 1).
Proof.
  unfold Full.numeric_value. intros H.
  destruct (has (Full.flags pspec) Full.F_IS_SIGNED).
  - run_bind H.
    assert (sent m0 = sent m).
    { destruct (_ || _ || _ || _ : bool);
        [apply va_long_quiet in E | apply va_int_quiet in E as [E _]]; exact E. }
    match type of H with
    | (if ?b then _ else _) _ = _ => destruct b
    end; apply ret_inv in H as [H ->]; inversion H; auto.
  - run_bind H.
    assert (sent m0 = sent m).
    { destruct (_ || _ || _ || _ : bool);
        [apply va_ulong_quiet in E | apply va_uint_quiet in E]; exact E. }
    apply ret_inv in H as [H ->]; inversion H; auto.
Qed.

Lemma digits_loop_length fuel digit next : forall uv buf,
  (List.length (digits_loop fuel digit next uv buf) <= fuel + List.length buf)%nat.
Proof.
  induction fuel as [|fuel IH]; intros uv buf; cbn; [lia|].
  destruct (uv =? 0); [lia|].
  specialize (IH (next uv) (digit uv :: buf)). cbn in IH. lia.
Qed.

Lemma numeric_digits_length code base uv :
  0 <= Zlen (Full.numeric_digits code base uv) <= 64.
Proof.
  unfold Zlen, Full.numeric_digits.
  destruct (base =? 10); [|destruct ((base =? 2) || (base =? 8) || (base =? 16))];
    match goal with
    | |- context [digits_loop 64 ?d ?n uv []] =>
        pose proof (digits_loop_length 64 d n uv [])
    end; cbn [List.length] in *; lia.
Qed.

Lemma group_width_is_int fuel g : forall glen wid decade grp,
  is_int wid -> is_int (snd (fst (Full.group_width fuel g glen wid decade grp))).
Proof.
  induction fuel as [|fuel IH]; intros glen wid decade grp Hw; cbn; [exact Hw|].
  destruct (glen =? 0); [exact Hw|].
  destruct (_ && _); [|exact Hw].
  apply IH. apply to_int_is_int.
Qed.

Lemma insert_sep_length buf k grp :
  Zlen (Full.insert_sep buf k grp) = Zlen buf + 1.
Proof.
  unfold Full.insert_sep, Zlen.
  rewrite length_app. cbn [List.length].
  rewrite <- (firstn_skipn (Z.to_nat k) buf) at 3. rewrite length_app. lia.
Qed.

Lemma group_insert_ok N st :
  N <= 64 -> grp_ok N st ->
  match Full.group_insert st with
  | inl st' => grp_ok N st'
  | inr st' => grp_ok N st'
  end.
Proof.
  intros HN Hok. pose proof Hok as (Hd & Hi & Hs & Hl & Hw).
  unfold Full.group_insert.
  destruct (Z.eqb_spec (Full.g_wid st) 0) as [Hz|Hnz]; cbn [negb].
  - destruct (Full.g_glen st =? 0); exact Hok.
  - destruct (Z.leb_spec (Full.g_drem st) (to_size_t (Full.g_wid st))) as [Hle|Hgt].
    + exact Hok.
    + assert (Hk : to_size_t (Full.g_drem st - Full.g_wid st)
                   = Full.g_drem st - Full.g_wid st
                   /\ 0 < Full.g_wid st < Full.g_drem st).
      { unfold is_int in Hw. unfold to_size_t, wrapu in *.
        change (2 ^ 64) with 18446744073709551616 in *. mlia. }
      destruct Hk as [Hk Hpos]. rewrite Hk.
      unfold grp_ok. cbn [Full.g_drem Full.g_ins Full.g_buf Full.g_wid].
      rewrite insert_sep_length. repeat split; try lia; apply Hw.
Qed.

Lemma group_loop_ok S N g fuel : forall st (m m' : machine S) st',
  N <= 64 -> grp_ok N st ->
  Full.group_loop S fuel g st m = Some (st', m') ->
  sent m' = sent m /\ grp_ok N st'.
Proof.
  induction fuel as [|fuel IH]; intros st m m' st' HN Hok H.
  - apply ret_inv in H as [-> ->]. auto.
  - cbn [Full.group_loop] in H.
    destruct (Full.g_drem st =? 0); [apply ret_inv in H as [-> ->]; auto|].
    assert (Hcont : forall st1 (m1 : machine S),
               grp_ok N st1 -> sent m1 = sent m ->
               match Full.group_insert st1 with
               | inl st'' => ret st''
               | inr st'' => Full.group_loop S fuel g st''
               end m1 = Some (st', m') ->
               sent m' = sent m /\ grp_ok N st').
    { intros st1 m1 Hok1 Hs1 H1.
      pose proof (group_insert_ok N st1 HN Hok1) as Hgi.
      destruct (Full.group_insert st1) as [st2|st2].
      - apply ret_inv in H1 as [-> ->]. auto.
      - apply IH in H1; [|assumption|assumption]. destruct H1. split; congruence. }
    assert (Hset : forall glen wid grp, is_int wid ->
               grp_ok N (Full.mkGrp glen wid grp (Full.g_drem st) (Full.g_buf st)
                                    (Full.g_ins st))).
    { intros glen wid grp Hw. destruct Hok as (? & ? & ? & ? & ?).
      repeat split; cbn; try assumption; apply Hw. }
    assert (Hwid : is_int (Full.g_wid st)) by apply Hok.
    destruct (negb (Full.g_glen st =? 0)).
    + destruct (Ascii.eqb _ "-").
      { apply ret_inv in H as [-> ->]. auto. }
      destruct (Ascii.eqb _ "*").
      { run_bind H. apply va_int_quiet in E as [Es Ew].
        destruct (z <? 0); [apply ret_inv in H as [-> ->]; auto|].
        destruct (Full.g_glen st - 1 =? 0); [apply ret_inv in H as [-> ->]; auto|].
        eapply Hcont; [| |exact H]; auto. }
      pose proof (group_width_is_int (Z.to_nat (Full.g_glen st)) g (Full.g_glen st) 0 1
                    (nth (Z.to_nat (Full.g_glen st - 1)) g NUL)) as Hgw.
      destruct (Full.group_width _ _ _ _ _ _) as [[glen wid] grp'].
      cbn [fst snd] in Hgw.
      assert (is_int wid) by (apply Hgw; unfold is_int; lia).
      destruct (glen =? 0); [apply ret_inv in H as [-> ->]; auto|].
      eapply Hcont; [| |exact H]; auto.
    + eapply Hcont; [| |exact H]; auto.
Qed.

Lemma numeric_layout_ok S pspec code base (m m' : machine S) l :
  Full.numeric_layout S pspec code base m = Some (l, m') ->
  sent m' = sent m /\ layout_ok l.
Proof.
  unfold Full.numeric_layout. intros H.
  run_bind H. destruct p as [[[uv p0] w] f].
  apply numeric_value_quiet in E as [Es Hw].
  pose proof (numeric_digits_length code base uv) as Hlen.
  set (buf := Full.numeric_digits code base uv) in *.
  run_bind H.
  assert (Hg : sent m1 = sent m0 /\ grp_ok (Zlen buf) g).
  { assert (Hinit : forall glen, grp_ok (Zlen buf) (Full.mkGrp glen 0 NUL (Zlen buf) buf 0)).
    { intros glen. unfold grp_ok, is_int. cbn. lia. }
    destruct (negb _).
    - eapply group_loop_ok; [| |exact E]; [lia|apply Hinit].
    - apply ret_inv in E as [-> ->]. auto. }
  destruct Hg as [Es1 (Hd & Hi & Hsum & Hbl & _)]. clear E.
  match type of H with
  | context [Full.calc_space_padding ?a ?b] =>
      pose proof (calc_space_padding_size_t a b) as [Hp1 Hp2];
      destruct (Full.calc_space_padding a b) as [ps1 ps2]
  end.
  cbn [fst snd] in Hp1, Hp2.
  apply ret_inv in H as [-> ->].
  split; [congruence|].
  assert (Hdw : to_size_t (Zlen buf + Full.g_ins g) = Zlen (Full.g_buf g)).
  { rewrite Hbl. unfold to_size_t, wrapu. apply Z.mod_small.
    change (2 ^ 64) with 18446744073709551616. lia. }
  unfold layout_ok. cbn [Full.l_ps1 Full.l_pz Full.l_ps2 Full.l_pfx_s Full.l_pfx_n
                         Full.l_e_s Full.l_e_n].
  split; [|split; [|split; [|split]]].
  - destruct (has _ Full.FZERO); [apply is_size_t_0 | apply Hp1].
  - destruct (has _ Full.FZERO); apply is_size_t_wrap.
  - apply Hp2.
  - destruct (has f Full.FHASH); [|reflexivity].
    destruct (_ && (_ || _)); [reflexivity|].
    destruct (Ascii.eqb code "o" && negb (uv =? 0)), (_ && _);
      try reflexivity; destruct Hw as [-> | ->]; reflexivity.
  - rewrite Hdw. unfold Full.bytes, Zlen. rewrite Nat2Z.id, firstn_all. reflexivity.
Qed.

(** ** C8: grouping and precision *)

Lemma Zlen_app {A} (a b : list A) : Zlen (a ++ b) = Zlen a + Zlen b.
Proof. unfold Zlen. rewrite length_app. lia. Qed.

Lemma Zlen_repeat {A} (c : A) n : 0 <= n -> Zlen (repeat c (Z.to_nat n)) = n.
Proof. intros. unfold Zlen. rewrite repeat_length. lia. Qed.

Lemma Zlen_nonneg {A} (l : list A) : 0 <= Zlen l.
Proof. unfold Zlen. lia. Qed.

Lemma field_length l : layout_ok l -> Zlen (field l) = field_count l.
Proof.
  intros (H1 & Hz & H2 & Hp & He). unfold field, field_count.
  rewrite !Zlen_app, !Zlen_repeat, Hp, He by apply H1 || apply Hz || apply H2.
  lia.
Qed.

Lemma do_conv_numeric_text S cons pspec code base (m m' : machine S) r :
  Full.do_conv_numeric S cons pspec code base m = Some (r, m') ->
  exists l m1,
    Full.numeric_layout S pspec code base m = Some (l, m1)
    /\ layout_ok l
    /\ (r = EXBADFORMAT
        \/ (text m' = text m ++ field l /\ same_count r (Zlen (field l)))).
Proof.
  unfold Full.do_conv_numeric. intros H. run_bind H.
  pose proof E as Hl. apply numeric_layout_ok in Hl as [Hs Hok].
  exists l, m0. split; [reflexivity|]. split; [assumption|].
  apply gen_layout_text in H; try apply Hok.
  destruct H as [_ [Hr|[Ht Hc]]]; [auto|]. right.
  rewrite field_length by assumption. unfold text in *. rewrite <- Hs. auto.
Qed.

(** C8: grouping commutes with precision.  The prefix, the digit body with
    its separators, the length of that body and the arguments read are the
    same for every precision; and the field a numeric conversion emits is
    the left spaces, the prefix, the padding zeros, that body and the right
    spaces, in this order, so the zeros a precision asks for are put in
    front of a body they do not change. *)
Theorem C8_grouping_commutes_with_precision :
  (forall S pspec code base p1 p2 (m : machine S),
      option_map (fun r => (Full.l_pfx_s (fst r), Full.l_pfx_n (fst r),
                            Full.l_e_s (fst r), Full.l_e_n (fst r), snd r))
                 (Full.numeric_layout S (Full.set_prec pspec p1) code base m)
      = option_map (fun r => (Full.l_pfx_s (fst r), Full.l_pfx_n (fst r),
                              Full.l_e_s (fst r), Full.l_e_n (fst r), snd r))
                   (Full.numeric_layout S (Full.set_prec pspec p2) code base m))
  /\ (forall S cons pspec code base (m m' : machine S) r,
      Full.do_conv_numeric S cons pspec code base m = Some (r, m') ->
      r <> EXBADFORMAT ->
      exists l m1,
        Full.numeric_layout S pspec code base m = Some (l, m1)
        /\ text m' = text m
                     ++ repeat " "%char (Z.to_nat (Full.l_ps1 l))
                     ++ Full.bytes (Full.l_pfx_s l) (Full.l_pfx_n l)
                     ++ repeat "0"%char (Z.to_nat (Full.l_pz l))
                     ++ Full.bytes (Full.l_e_s l) (Full.l_e_n l)
                     ++ repeat " "%char (Z.to_nat (Full.l_ps2 l)))
  /\ Full.test_sprintf "%[_2]d|%.6[_2]d|%.9[_2]d|%12.9[_2]d|%-12.9[_2]d|%.1[_2]d"
       [AInt 1234; AInt 1234; AInt 1234; AInt 1234; AInt 1234; AInt 1234]
     = Some (56, "12_34|0012_34|0000012_34|  0000012_34|0000012_34  |12_34"%string)
  /\ Full.test_sprintf "%[,3]d|%.12[,3]d|%[,3.2]d|%.12[,3.2]d|%#[_4]x|%#.10[_4]x"
       [AInt 1234567; AInt 1234567; AInt 1234567; AInt 1234567; AInt 74565; AInt 74565]
     = Some (72, "1,234,567|000001,234,567|12,345.67|0000012,345.67|0x1_2345|0x000001_2345"%string).
Proof.
  split; [|split; [|split]].
  - intros. apply numeric_layout_body_precision.
  - intros S cons pspec code base m m' r H Hr.
    apply do_conv_numeric_text in H as (l & m1 & Hl & _ & [?|[Ht _]]); [contradiction|].
    exists l, m1. split; assumption.
  - vm_compute. reflexivity.
  - vm_compute. reflexivity.
Qed.

Lemma C8_grouping_commutes_with_precision_witness :
  exists l m1,
    Full.numeric_layout (list ascii)
      (Full.mkSpec 0 Full.F_IS_SIGNED 0 6 0 NUL NUL (str "_2")) "d" 10
      (mkMachine [] [] [AInt 1234] []) = Some (l, m1)
    /\ text (mkMachine (str "0012_34") [str "00"; str "12_34"] [] [])
       = text (mkMachine (@nil ascii) [] [AInt 1234] [])
           ++ repeat " "%char (Z.to_nat (Full.l_ps1 l))
           ++ Full.bytes (Full.l_pfx_s l) (Full.l_pfx_n l)
           ++ repeat "0"%char (Z.to_nat (Full.l_pz l))
           ++ Full.bytes (Full.l_e_s l) (Full.l_e_n l)
           ++ repeat " "%char (Z.to_nat (Full.l_ps2 l)).
Proof.
  apply (proj1 (proj2 C8_grouping_commutes_with_precision) (list ascii) Full.bufwrite
           (Full.mkSpec 0 Full.F_IS_SIGNED 0 6 0 NUL NUL (str "_2")) "d"%char 10
           (mkMachine [] [] [AInt 1234] [])
           (mkMachine (str "0012_34") [str "00"; str "12_34"] [] []) 7).
  - vm_compute. reflexivity.
  - vm_compute. discriminate.
Defined.

(** ** The count of every conversion *)

Lemma same_count_int a b : same_count (to_int a) b <-> same_count a b.
Proof.
  unfold same_count, to_int, wraps.
  change (2 ^ 32) with 4294967296. change (2 ^ (32 - 1)) with 2147483648.
  split; intros; mlia.
Qed.

Lemma same_count_uint a b : same_count (to_uint a) b <-> same_count a b.
Proof.
  unfold same_count, to_uint, wrapu. change (2 ^ 32) with 4294967296.
  split; intros; mlia.
Qed.


Lemma bytes_zero s : Full.bytes s 0 = [].
Proof. destruct s; reflexivity. Qed.

Lemma strlen_le s : (strlen s <= List.length s)%nat.
Proof. induction s as [|c s IH]; cbn; [lia|]. destruct (is_nul c); lia. Qed.

Section Counting.

Variable S : Type.
Variable cons : S -> list ascii -> option S.












End Counting.

(** ** The count of the floating point conversions *)

Lemma mant_digits_length i : forall m buf,
  List.length (Full.mant_digits i m buf) = (i + List.length buf)%nat.
Proof.
  induction i as [|i IH]; intros m buf; cbn; [reflexivity|].
  rewrite IH. cbn. lia.
Qed.


Lemma is_size_t_1 : is_size_t 1.
Proof. unfold is_size_t. lia. Qed.


Lemma is_size_t_if (b : bool) x y : is_size_t x -> is_size_t y -> is_size_t (if b then x else y).
Proof. destruct b; auto. Qed.

#[local] Hint Resolve is_size_t_if is_size_t_1 : fmt.


Section CountingFp.

Variable S : Type.
Variable cons : S -> list ascii -> option S.





End CountingFp.

(** ** The count of [format] *)







Section CountingFormat.

Variable S : Type.
Variable cons : S -> list ascii -> option S.
Variable fp : bool.





End CountingFormat.

(** ** C1: the count returned by [format] *)










(** ** C2: the limits on width and precision *)

Ltac by_digit c H :=
  destruct c as [[] [] [] [] [] [] [] []];
  try discriminate H; try reflexivity.

Lemma digit_cases c :
  ISDIGIT c = true ->
  c = "0"%char \/ c = "1"%char \/ c = "2"%char \/ c = "3"%char \/ c = "4"%char
  \/ c = "5"%char \/ c = "6"%char \/ c = "7"%char \/ c = "8"%char \/ c = "9"%char.
Proof. intros H. by_digit c H; tauto. Qed.

Ltac each_digit c H :=
  destruct (digit_cases c H)
    as [-> | [-> | [-> | [-> | [-> | [-> | [-> | [-> | [-> | ->]]]]]]]]].

Lemma digit_code c : ISDIGIT c = true -> 0 <= code c - 48 <= 9 /\ is_nul c = false.
Proof.
  intros H. each_digit c H; (split; [vm_compute; split; discriminate | reflexivity]).
Qed.



Lemma nonzero_digit_is_digit c : is_nonzero_digit c = true -> ISDIGIT c = true.
Proof. intros H. by_digit c H. Qed.

Lemma digit_not_star c p : ISDIGIT c = true -> Ascii.eqb (READ_CHAR (c :: p)) "*" = false.
Proof. intros H. each_digit c H; reflexivity. Qed.

Lemma full_parse_flags_digit c rest f :
  is_nonzero_digit c = true -> Full.parse_flags (c :: rest) f = (f, c :: rest).
Proof. intros H. by_digit c H. Qed.




Section Limits.

Variable S : Type.
Variable cons : S -> list ascii -> option S.
Variable fp : bool.

Lemma format_loop_percent fuel n ptr (m : machine S) :
  Full.format_loop S cons fp (Datatypes.S fuel) n ("%"%char :: ptr) m
  = bind (Full.parse_spec S n ptr)
         (fun p => match p with
                   | Full.PBad => ret EXBADFORMAT
                   | Full.PContinue _ =>
                       t <- va_str ;;
                       match t with
                       | Some ptr' => Full.format_loop S cons fp fuel n ptr'
                       | None => undef
                       end
                   | Full.PConv spec convspec ptr' =>
                       nn <- Full.do_conv S cons fp spec convspec ;;
                       if nn <? 0 then ret EXBADFORMAT
                       else Full.format_loop S cons fp fuel
                              (to_uint (n + to_uint nn)) (INC_VOID_PTR ptr')
                   end) m.
Proof. reflexivity. Qed.











End Limits.

(** *** The micro tier *)

Section MicroLimits.

Variable S : Type.
Variable putchar : S -> ascii -> option S.









End MicroLimits.



(** The older members of the family treat the limits differently: the first
    [format.c] stops reading digits at its MAXWIDTH of 999 and never refuses
    a width, the intermediate [format.c] has the limits of the full tier,
    and [tinyformat.c] keeps the width in eight bits, so 256 is read as 0. *)
Lemma older_tiers_width_limits :
  option_map fst (Legacy.test_sprintf "%501d" [AInt 7]) = Some 501
  /\ option_map fst (Legacy.test_sprintf "%1000d" [AInt 7]) = Some 1000
  /\ option_map fst (Mid.test_sprintf "%500d" [AInt 7]) = Some 500
  /\ option_map fst (Mid.test_sprintf "%501d" [AInt 7]) = Some EXBADFORMAT
  /\ option_map fst (Tiny.test_sprintf "%80d" [AInt 7]) = Some 80
  /\ option_map fst (Tiny.test_sprintf "%81d" [AInt 7]) = Some EXBADFORMAT
  /\ option_map fst (Tiny.test_sprintf "%256d" [AInt 7]) = Some 1.
Proof. repeat split; vm_compute; reflexivity. Qed.

(** * Further properties of the full tier *)

(** ** Space padding *)

Lemma calc_space_padding_total (pspec : Full.T_FormatSpec) (length : Z) :
  0 <= length < 2 ^ 63 ->
  0 <= Full.width pspec < 2 ^ 63 ->
  0 <= fst (Full.calc_space_padding pspec length)
  /\ 0 <= snd (Full.calc_space_padding pspec length)
  /\ fst (Full.calc_space_padding pspec length)
     + snd (Full.calc_space_padding pspec length)
     = Z.max 0 (Full.width pspec - length)
  /\ (has (Full.flags pspec) Full.FCARET = false ->
      if has (Full.flags pspec) Full.FMINUS
      then fst (Full.calc_space_padding pspec length) = 0
      else snd (Full.calc_space_padding pspec length) = 0).
Proof.
  intros Hl Hw. change (2 ^ 63) with 9223372036854775808 in *.
  unfold Full.calc_space_padding.
  rewrite (to_size_t_small (Full.width pspec)) by lia.
  set (tot := if length <? Full.width pspec
              then to_size_t (Full.width pspec - length) else 0).
  assert (Htot : tot = Z.max 0 (Full.width pspec - length)).
  { subst tot. destruct (Z.ltb_spec length (Full.width pspec)).
    - rewrite to_size_t_small by lia. lia.
    - lia. }
  clearbody tot.
  destruct (has (Full.flags pspec) Full.FCARET), (has (Full.flags pspec) Full.FMINUS);
    cbn [fst snd]; rewrite ?Z.add_0_l, ?Z.add_0_r;
    rewrite ?(to_size_t_small tot) by lia;
    rewrite ?(to_size_t_small (tot + 1)) by lia;
    try (assert (0 <= tot / 2 <= tot) by (split; [apply Z.div_pos | apply Z.div_le_upper_bound]; lia));
    try (assert (0 <= (tot + 1) / 2 <= tot)
           by (split; [apply Z.div_pos; lia|];
               destruct (Z.eq_dec tot 0) as [->|]; [reflexivity|];
               apply Z.div_le_upper_bound; lia));
    rewrite ?(to_size_t_small (tot - tot / 2)) by lia;
    rewrite ?(to_size_t_small (tot - (tot + 1) / 2)) by lia;
    repeat split; try lia; try discriminate.
Qed.

(** X1: [calc_space_padding] hands out exactly the missing width: the left
    and right paddings are not negative and add up to [max 0 (width -
    length)]; without the CARET flag all of it goes to one side, the right
    one with MINUS and the left one without. *)
Theorem X1_space_padding_total (pspec : Full.T_FormatSpec) (length : Z) :
  0 <= length < 2 ^ 63 ->
  0 <= Full.width pspec < 2 ^ 63 ->
  0 <= fst (Full.calc_space_padding pspec length)
  /\ 0 <= snd (Full.calc_space_padding pspec length)
  /\ fst (Full.calc_space_padding pspec length)
     + snd (Full.calc_space_padding pspec length)
     = Z.max 0 (Full.width pspec - length)
  /\ (has (Full.flags pspec) Full.FCARET = false ->
      if has (Full.flags pspec) Full.FMINUS
      then fst (Full.calc_space_padding pspec length) = 0
      else snd (Full.calc_space_padding pspec length) = 0).
Proof. apply calc_space_padding_total. Qed.

Lemma X1_space_padding_total_witness :
  0 <= fst (Full.calc_space_padding (Full.mkSpec 0 Full.FMINUS 8 (-1) 0 NUL NUL []) 5)
  /\ 0 <= snd (Full.calc_space_padding (Full.mkSpec 0 Full.FMINUS 8 (-1) 0 NUL NUL []) 5)
  /\ fst (Full.calc_space_padding (Full.mkSpec 0 Full.FMINUS 8 (-1) 0 NUL NUL []) 5)
     + snd (Full.calc_space_padding (Full.mkSpec 0 Full.FMINUS 8 (-1) 0 NUL NUL []) 5)
     = Z.max 0 (8 - 5)
  /\ (has Full.FMINUS Full.FCARET = false ->
      if has Full.FMINUS Full.FMINUS
      then fst (Full.calc_space_padding (Full.mkSpec 0 Full.FMINUS 8 (-1) 0 NUL NUL []) 5) = 0
      else snd (Full.calc_space_padding (Full.mkSpec 0 Full.FMINUS 8 (-1) 0 NUL NUL []) 5) = 0).
Proof.
  apply (X1_space_padding_total (Full.mkSpec 0 Full.FMINUS 8 (-1) 0 NUL NUL []) 5).
  - simpl; lia.
  - simpl; lia.
Defined.

(** ** Literal text *)

Lemma scan_literal_all lit :
  forallb is_literal lit = true -> Full.scan_literal lit = (lit, []).
Proof.
  induction lit as [|c lit IH]; intros H; [reflexivity|].
  cbn [forallb] in H. apply andb_prop in H as [Hc H].
  cbn [Full.scan_literal]. unfold is_literal in Hc. rewrite Hc, (IH H). reflexivity.
Qed.

Lemma format_loop_step S cons fp fuel nChars ptr :
  Full.format_loop S cons fp (Datatypes.S fuel) nChars ptr
  = if is_nul (READ_CHAR ptr) then ret (to_int nChars)
    else
      let '(lit, s) := Full.scan_literal ptr in
      let n := to_uint (Zlen lit) in
      Full.orbad S (if n >? 0 then Full.emit S cons (Some ptr) n else ret 0)
        (let nChars := if n >? 0 then to_uint (nChars + n) else nChars in
         let ptr := s in
         if negb (is_nul (READ_CHAR ptr)) then
           p <- Full.parse_spec S nChars (INC_VOID_PTR ptr) ;;
           match p with
           | Full.PBad => ret EXBADFORMAT
           | Full.PContinue _ =>
               t <- va_str ;;
               match t with
               | Some ptr' => Full.format_loop S cons fp fuel nChars ptr'
               | None => undef
               end
           | Full.PConv spec convspec ptr' =>
               nn <- Full.do_conv S cons fp spec convspec ;;
               if nn <? 0 then ret EXBADFORMAT
               else Full.format_loop S cons fp fuel (to_uint (nChars + to_uint nn))
                      (INC_VOID_PTR ptr')
           end
         else Full.format_loop S cons fp fuel nChars ptr).
Proof. reflexivity. Qed.

Lemma format_loop_end S cons fp fuel nChars (m : machine S) :
  Full.format_loop S cons fp (Datatypes.S fuel) nChars [] m = Some (to_int nChars, m).
Proof. reflexivity. Qed.

Lemma bytes_whole (s : cstr) : Full.bytes (Some s) (Zlen s) = s.
Proof. unfold Full.bytes, Zlen. rewrite Nat2Z.id. apply firstn_all. Qed.

Lemma scan_literal_app lit rest :
  forallb is_literal lit = true -> is_literal (READ_CHAR rest) = false ->
  Full.scan_literal (lit ++ rest) = (lit, rest).
Proof.
  intros Hlit Hrest. induction lit as [|c lit IH].
  - destruct rest as [|c rest]; [reflexivity|].
    cbn [app Full.scan_literal]. cbn [READ_CHAR hd] in Hrest.
    unfold is_literal in Hrest. rewrite Hrest. reflexivity.
  - cbn [forallb] in Hlit. apply andb_prop in Hlit as [Hc Hlit].
    cbn [app Full.scan_literal]. unfold is_literal in Hc. rewrite Hc, (IH Hlit).
    reflexivity.
Qed.

Lemma literal_head c lit rest :
  forallb is_literal (c :: lit) = true -> is_nul (READ_CHAR ((c :: lit) ++ rest)) = false.
Proof.
  cbn [forallb app READ_CHAR hd]. intros H. apply andb_prop in H as [H _].
  unfold is_literal in H. apply andb_prop in H as [H _].
  now destruct (is_nul c).
Qed.

Lemma bytes_prefix (lit rest : cstr) : Full.bytes (Some (lit ++ rest)) (Zlen lit) = lit.
Proof.
  unfold Full.bytes, Zlen. rewrite Nat2Z.id.
  rewrite firstn_app, Nat.sub_diag, firstn_all. cbn. apply app_nil_r.
Qed.

(** The scan loop on a template that begins with literal text in front of a
    conversion specification: the text is sent in one call and the loop goes
    on at the percent sign with the count moved on. *)
Lemma format_loop_literal S cons fp fuel nChars lit r (m : machine S) :
  lit <> [] -> forallb is_literal lit = true -> Zlen lit < 4294967296 ->
  Full.format_loop S cons fp (Datatypes.S fuel) nChars (lit ++ "%"%char :: r) m
  = match cons (sink m) lit with
    | Some s' =>
        Full.format_loop S cons fp (Datatypes.S fuel) (to_uint (nChars + Zlen lit))
          ("%"%char :: r) (mkMachine s' (sent m ++ [lit]) (ap m) (stores m))
    | None => Some (EXBADFORMAT, mkMachine (sink m) (sent m ++ [lit]) (ap m) (stores m))
    end.
Proof.
  intros Hne Hlit Hlen. destruct lit as [|c lit]; [contradiction|].
  rewrite format_loop_step, (literal_head c lit _ Hlit).
  rewrite (scan_literal_app (c :: lit) ("%"%char :: r) Hlit eq_refl).
  assert (Hpos : 0 < Zlen (c :: lit)) by (unfold Zlen; cbn; lia).
  cbv zeta. rewrite to_uint_small by lia.
  destruct (Z.gtb_spec (Zlen (c :: lit)) 0); [|lia].
  unfold Full.orbad at 1, bind at 1, Full.emit. rewrite bytes_prefix.
  destruct (cons (sink m) (c :: lit)) as [s'|]; [|reflexivity].
  change (0 <? 0) with false. cbv iota.
  rewrite format_loop_percent. reflexivity.
Qed.

(** X2: a template without a percent sign is handed to the consumer as it
    is, in one call, and no argument is read; [format] returns its length, or
    EXBADFORMAT when the consumer refuses it. *)
Theorem X2_literal_template (S : Type) (cons : S -> list ascii -> option S) (fp : bool)
        (parg : S) (lit : cstr) (args : list arg) :
  lit <> [] -> forallb is_literal lit = true -> Zlen lit < 2147483648 ->
  Full.format S cons fp parg (Some lit) args
  = match cons parg lit with
    | Some s' => Some (Zlen lit, mkMachine s' [lit] args [])
    | None => Some (EXBADFORMAT, mkMachine parg [lit] args [])
    end.
Proof.
  intros Hne Hlit Hlen. unfold Full.format, Full.format_fuel.
  destruct lit as [|c lit]; [contradiction|].
  cbn [List.length Nat.add].
  rewrite format_loop_step.
  pose proof (literal_head c lit [] Hlit) as Hhead. rewrite app_nil_r in Hhead.
  rewrite Hhead.
  pose proof (scan_literal_app (c :: lit) [] Hlit eq_refl) as Hscan.
  rewrite app_nil_r in Hscan. rewrite Hscan.
  assert (Hpos : 0 < Zlen (c :: lit)) by (unfold Zlen; cbn; lia).
  cbv zeta. rewrite to_uint_small by lia.
  destruct (Z.gtb_spec (Zlen (c :: lit)) 0); [|lia].
  unfold Full.orbad at 1, bind at 1, Full.emit. rewrite bytes_whole.
  cbn [sink sent ap stores app].
  destruct (cons parg (c :: lit)) as [s'|]; [|reflexivity].
  change (0 <? 0) with false. cbv iota.
  change (negb (is_nul (READ_CHAR []))) with false. cbv iota.
  rewrite format_loop_end.
  rewrite Z.add_0_l, to_uint_small, to_int_small by lia.
  reflexivity.
Qed.

Lemma X2_literal_template_witness :
  Full.format (list ascii) Full.bufwrite true [] (Some (str "hello, world")) [AInt 1]
  = match Full.bufwrite [] (str "hello, world") with
    | Some s' => Some (Zlen (str "hello, world"),
                       mkMachine s' [str "hello, world"] [AInt 1] [])
    | None => Some (EXBADFORMAT, mkMachine [] [str "hello, world"] [AInt 1] [])
    end.
Proof.
  apply (X2_literal_template (list ascii) Full.bufwrite true [] (str "hello, world")
           [AInt 1]).
  - discriminate.
  - reflexivity.
  - vm_compute. reflexivity.
Defined.

(** ** The digits of a number *)

Lemma small_nat_cases (P : nat -> Prop) (bound : nat) :
  (forall n, (n < bound)%nat -> P n) ->
  forall k, 0 <= k < Z.of_nat bound -> P (Z.to_nat k).
Proof. intros H k Hk. apply H. lia. Qed.



Lemma decimal_table_ok :
  forallb (fun n => digit_value (chr (48 + Z.of_nat n)) =? Z.of_nat n) (seq 0 10) = true.
Proof. vm_compute. reflexivity. Qed.

Lemma digit_value_decimal d : 0 <= d < 10 -> digit_value (chr (48 + d)) = d.
Proof.
  intros Hd. pose proof decimal_table_ok as H. rewrite forallb_forall in H.
  specialize (H (Z.to_nat d)). rewrite Z2Nat.id in H by lia.
  apply Z.eqb_eq, H, in_seq. lia.
Qed.

Section DigitsLoop.

Variable base : Z.
Variable digit : Z -> ascii.
Variable next : Z -> Z.
Hypothesis Hbase : 2 <= base.
Hypothesis Hdigit : forall u, 0 < u -> digit_value (digit u) = u mod base.
Hypothesis Hnext : forall u, 0 < u -> next u = u / base.





End DigitsLoop.





(** ** The consumer is never called after it has failed *)

Lemma replay_app {S} (cons : S -> list ascii -> option S) a : forall b s,
  replay cons (a ++ b) s
  = match replay cons a s with
    | Some s' => replay cons b s'
    | None => None
    end.
Proof.
  induction a as [|run a IH]; intros b s; cbn; [reflexivity|].
  destruct (cons s run); [apply IH | reflexivity].
Qed.

Lemma threads_refl {S} cons (m : machine S) : threads cons m m.
Proof. exists []. split; [now rewrite app_nil_r | reflexivity]. Qed.

Lemma threads_trans {S} cons (m1 m2 m3 : machine S) :
  threads cons m1 m2 -> threads cons m2 m3 -> threads cons m1 m3.
Proof.
  intros (r1 & E1 & H1) (r2 & E2 & H2). exists (r1 ++ r2). split.
  - now rewrite E2, E1, app_assoc.
  - now rewrite replay_app, H1.
Qed.

Lemma threads_fails {S} cons (m1 m2 m3 : machine S) :
  threads cons m1 m2 -> fails cons m2 m3 -> fails cons m1 m3.
Proof.
  intros (r1 & E1 & H1) (r2 & last & s & E2 & H2 & H3).
  exists (r1 ++ r2), last, s. split; [|split].
  - now rewrite E2, E1, <- !app_assoc.
  - now rewrite replay_app, H1.
  - exact H3.
Qed.

Lemma still_threads {S} cons (m m' : machine S) :
  sent m' = sent m -> sink m' = sink m -> threads cons m m'.
Proof.
  intros Hs Hk. exists []. split; [now rewrite app_nil_r | cbn; now rewrite Hk].
Qed.

Lemma still_ret {S A} (a : A) : still (ret (S := S) a).
Proof. intros m b m' H. apply ret_inv in H as [_ ->]. auto. Qed.

Lemma still_undef {S A} : still (undef (S := S) (A := A)).
Proof. intros m b m' H. discriminate H. Qed.

Lemma still_bind {S A B} (c : M S A) (k : A -> M S B) :
  still c -> (forall a, still (k a)) -> still (bind c k).
Proof.
  intros Hc Hk m b m' H. run_bind H.
  apply Hc in E as [? ?]. apply Hk in H as [? ?]. split; congruence.
Qed.

Lemma still_va_next S : still (va_next (S := S)).
Proof.
  intros m a m' H. unfold va_next in H.
  destruct (ap m); inversion H; subst. auto.
Qed.

Lemma still_store S addr v : still (store (S := S) addr v).
Proof. intros m a m' H. inversion H; subst. auto. Qed.

Ltac still_tac :=
  repeat first
    [ apply still_ret
    | apply still_undef
    | apply still_va_next
    | apply still_store
    | assumption
    | apply still_bind; [|intros ?]
    | match goal with
      | |- still (if ?b then _ else _) => destruct b
      | |- still (match ?p with _ => _ end) => destruct p
      end ].

Lemma still_va_int S : still (va_int (S := S)).
Proof. unfold va_int. still_tac. Qed.
Lemma still_va_uint S : still (va_uint (S := S)).
Proof. unfold va_uint. still_tac. Qed.
Lemma still_va_long S : still (va_long (S := S)).
Proof. unfold va_long. still_tac. Qed.
Lemma still_va_ulong S : still (va_ulong (S := S)).
Proof. unfold va_ulong. still_tac. Qed.
Lemma still_va_double S : still (va_double (S := S)).
Proof. unfold va_double. still_tac. Qed.
Lemma still_va_str S : still (va_str (S := S)).
Proof. unfold va_str. still_tac. Qed.
Lemma still_va_ptr S : still (va_ptr (S := S)).
Proof. unfold va_ptr. still_tac. Qed.

Lemma still_numeric_value S pspec : still (Full.numeric_value S pspec).
Proof.
  pose proof (still_va_int S). pose proof (still_va_uint S).
  pose proof (still_va_long S). pose proof (still_va_ulong S).
  unfold Full.numeric_value. still_tac.
Qed.

Lemma still_group_loop S g fuel : forall st, still (Full.group_loop S fuel g st).
Proof.
  pose proof (still_va_int S).
  induction fuel as [|fuel IH]; intros st; cbn [Full.group_loop]; still_tac; apply IH.
Qed.

Lemma still_numeric_layout S pspec code base :
  still (Full.numeric_layout S pspec code base).
Proof.
  pose proof (still_numeric_value S pspec).
  unfold Full.numeric_layout. still_tac; apply still_group_loop.
Qed.

Lemma still_mant_to_char S m dt d wr : still (Full.mant_to_char S m dt d wr).
Proof. unfold Full.mant_to_char. still_tac. Qed.

Lemma still_parse_spec S nChars ptr : still (Full.parse_spec S nChars ptr).
Proof.
  pose proof (still_va_int S).
  unfold Full.parse_spec, Full.parse_prec, Full.parse_base, Full.parse_tail.
  still_tac.
Qed.

Section Failure.

Variable S : Type.
Variable cons : S -> list ascii -> option S.

Lemma sof_ret0 : sends_or_fails cons (ret 0).
Proof.
  intros m r m' H. apply ret_inv in H as [-> ->]. left. split; [lia|apply threads_refl].
Qed.

Lemma sof_emit s n : sends_or_fails cons (Full.emit S cons s n).
Proof.
  intros m r m' H. unfold Full.emit in H.
  destruct (cons (sink m) (Full.bytes s n)) as [s'|] eqn:E; inversion H; subst.
  - left. split; [lia|]. exists [Full.bytes s n]. split; [reflexivity|].
    cbn. now rewrite E.
  - right. split; [reflexivity|]. exists [], (Full.bytes s n), (sink m).
    repeat split; assumption.
Qed.

Lemma sof_orbad c k :
  sends_or_fails cons c -> sends_or_fails cons k -> sends_or_fails cons (Full.orbad S c k).
Proof.
  intros Hc Hk m r m' H. run_bind H. apply Hc in E as [[Hz Ht]|[Hz Hf]].
  - destruct (Z.ltb_spec z 0); [lia|].
    apply Hk in H as [[? ?]|[? ?]]; [left|right]; split; try assumption.
    + eapply threads_trans; eassumption.
    + eapply threads_fails; eassumption.
  - destruct (Z.ltb_spec z 0); [|lia].
    apply ret_inv in H as [-> ->]. right. split; [reflexivity|assumption].
Qed.

Lemma sof_pad_loop s fuel : forall n, sends_or_fails cons (Full.pad_loop S cons fuel s n).
Proof.
  induction fuel as [|fuel IH]; intros n; cbn [Full.pad_loop]; [apply sof_ret0|].
  destruct (n >? 0); [|apply sof_ret0].
  apply sof_orbad; [apply sof_emit | apply IH].
Qed.

Lemma saf_ret r : stops_at_failure cons (ret r).
Proof. intros m x m' H. apply ret_inv in H as [-> ->]. left. apply threads_refl. Qed.

Lemma saf_undef : stops_at_failure cons undef.
Proof. intros m x m' H. discriminate H. Qed.

Lemma saf_orbad c k :
  sends_or_fails cons c -> stops_at_failure cons k ->
  stops_at_failure cons (Full.orbad S c k).
Proof.
  intros Hc Hk m r m' H. run_bind H. apply Hc in E as [[Hz Ht]|[Hz Hf]].
  - destruct (Z.ltb_spec z 0); [lia|].
    apply Hk in H as [?|[? ?]]; [left|right; split; [assumption|]].
    + eapply threads_trans; eassumption.
    + eapply threads_fails; eassumption.
  - destruct (Z.ltb_spec z 0); [|lia].
    apply ret_inv in H as [-> ->]. right. split; [reflexivity|assumption].
Qed.

Lemma saf_bind_still {A} (c : M S A) (k : A -> M S Z) :
  still c -> (forall a, stops_at_failure cons (k a)) ->
  stops_at_failure cons (bind c k).
Proof.
  intros Hc Hk m r m' H. run_bind H. apply Hc in E as [Es Ek].
  pose proof (still_threads cons m m0 Es Ek) as Ht.
  apply Hk in H as [?|[? ?]]; [left|right; split; [assumption|]].
  - eapply threads_trans; eassumption.
  - eapply threads_fails; eassumption.
Qed.

Lemma saf_counted count c k :
  stops_at_failure cons c -> (forall x, stops_at_failure cons (k x)) ->
  stops_at_failure cons (Full.counted S count c k).
Proof.
  intros Hc Hk m r m' H. run_bind H. apply Hc in E.
  destruct (Z.eqb_spec z EXBADFORMAT) as [->|Hz].
  - apply ret_inv in H as [-> ->]. destruct E as [?|[_ ?]]; auto.
  - destruct E as [Ht|[? _]]; [|contradiction].
    apply Hk in H as [?|[? ?]]; [left|right; split; [assumption|]].
    + eapply threads_trans; eassumption.
    + eapply threads_fails; eassumption.
Qed.

Lemma sof_pad_opt s n :
  sends_or_fails cons (if n =? 0 then ret 0 else Full.pad S cons s n).
Proof. destruct (n =? 0); [apply sof_ret0 | apply sof_pad_loop]. Qed.

Lemma saf_gen_out ps1 pfx_s pfx_n pz e_s e_n ps2 :
  stops_at_failure cons (Full.gen_out S cons ps1 pfx_s pfx_n pz e_s e_n ps2).
Proof.
  unfold Full.gen_out.
  apply saf_orbad; [apply sof_pad_opt|].
  apply saf_orbad; [destruct (match pfx_s with Some _ => _ | None => _ end);
                    [apply sof_emit | apply sof_ret0]|].
  apply saf_orbad; [apply sof_pad_opt|].
  apply saf_orbad; [destruct (e_n =? 0); [apply sof_ret0 | apply sof_emit]|].
  apply saf_orbad; [apply sof_pad_opt|].
  apply saf_ret.
Qed.

Lemma saf_do_conv_c_loop cc rep : forall n,
  stops_at_failure cons (Full.do_conv_c_loop S cons rep cc n).
Proof.
  induction rep as [|rep IH]; intros n; cbn [Full.do_conv_c_loop]; [apply saf_ret|].
  intros m r m' H. run_bind H. apply saf_gen_out in E.
  destruct (Z.eqb_spec z EXBADFORMAT) as [->|Hz].
  - apply ret_inv in H as [-> ->]. destruct E as [?|[_ ?]]; auto.
  - destruct E as [Ht|[? _]]; [|contradiction].
    apply IH in H as [?|[? ?]]; [left|right; split; [assumption|]].
    + eapply threads_trans; eassumption.
    + eapply threads_fails; eassumption.
Qed.

Ltac saf_tac :=
  repeat first
    [ apply saf_ret
    | apply saf_undef
    | apply saf_gen_out
    | apply saf_do_conv_c_loop
    | assumption
    | apply saf_counted; [|intros ?]
    | apply saf_bind_still;
      [first [ apply still_va_int | apply still_va_str | apply still_va_ptr
             | apply still_va_double | apply still_store | apply still_mant_to_char
             | apply still_numeric_layout | apply still_parse_spec
             | solve [still_tac; apply still_va_int || apply still_mant_to_char] ]
      | intros ?]
    | match goal with
      | |- stops_at_failure _ (if ?b then _ else _) => destruct b
      | |- stops_at_failure _ (match ?p with _ => _ end) => destruct p
      end ].

Lemma saf_do_conv_n pspec : stops_at_failure cons (Full.do_conv_n S pspec).
Proof. unfold Full.do_conv_n. cbv zeta. saf_tac. Qed.

Lemma saf_do_conv_c pspec code : stops_at_failure cons (Full.do_conv_c S cons pspec code).
Proof. unfold Full.do_conv_c. cbv zeta. saf_tac. Qed.

Lemma saf_do_conv_s pspec code : stops_at_failure cons (Full.do_conv_s S cons pspec code).
Proof. unfold Full.do_conv_s. cbv zeta. saf_tac. Qed.

Lemma saf_do_conv_numeric pspec code base :
  stops_at_failure cons (Full.do_conv_numeric S cons pspec code base).
Proof. unfold Full.do_conv_numeric, Full.gen_layout. saf_tac. Qed.

Lemma saf_do_conv_infnan pspec code sign mantissa exponent :
  stops_at_failure cons (Full.do_conv_infnan S cons pspec code sign mantissa exponent).
Proof. unfold Full.do_conv_infnan. cbv zeta. saf_tac. Qed.

Lemma saf_do_conv_e pspec code sign mantissa exponent :
  stops_at_failure cons (Full.do_conv_e S cons pspec code sign mantissa exponent).
Proof. unfold Full.do_conv_e. cbv zeta. saf_tac. Qed.

Lemma saf_do_conv_f pspec code sign mantissa exponent :
  stops_at_failure cons (Full.do_conv_f S cons pspec code sign mantissa exponent).
Proof. unfold Full.do_conv_f. cbv zeta. saf_tac. Qed.

Lemma saf_do_conv_fp pspec code : stops_at_failure cons (Full.do_conv_fp S cons pspec code).
Proof.
  pose proof saf_do_conv_infnan. pose proof saf_do_conv_e. pose proof saf_do_conv_f.
  unfold Full.do_conv_fp. saf_tac; auto.
Qed.

Lemma saf_do_conv fp pspec code : stops_at_failure cons (Full.do_conv S cons fp pspec code).
Proof.
  unfold Full.do_conv. cbv zeta.
  destruct (Ascii.eqb code "n"); [apply saf_do_conv_n|].
  destruct (Ascii.eqb code "%"); [apply saf_gen_out|].
  destruct (_ || _); [apply saf_do_conv_c|].
  destruct (Ascii.eqb code "s"); [apply saf_do_conv_s|].
  destruct (_ && _); [apply saf_do_conv_fp|].
  destruct (_ >? 1); [apply saf_do_conv_numeric | apply saf_ret].
Qed.

Lemma saf_format_loop fp fuel : forall nChars ptr,
  stops_at_failure cons (Full.format_loop S cons fp fuel nChars ptr).
Proof.
  induction fuel as [|fuel IH]; intros nChars ptr; [apply saf_undef|].
  rewrite format_loop_step.
  destruct (is_nul (READ_CHAR ptr)); [apply saf_ret|].
  destruct (Full.scan_literal ptr) as [lit s]. cbv zeta.
  apply saf_orbad; [destruct (_ >? 0); [apply sof_emit | apply sof_ret0]|].
  destruct (negb (is_nul (READ_CHAR s))); [|apply IH].
  apply saf_bind_still; [apply still_parse_spec|]. intros [|f|spec convspec ptr'].
  - apply saf_ret.
  - apply saf_bind_still; [apply still_va_str|]. intros [ptr'|]; [apply IH|apply saf_undef].
  - intros m r m' H. run_bind H. apply saf_do_conv in E.
    destruct (Z.ltb_spec z 0).
    + apply ret_inv in H as [-> ->]. destruct E as [?|[_ ?]]; auto.
    + destruct E as [Ht|[-> _]]; [|unfold EXBADFORMAT in *; lia].
      apply IH in H as [?|[? ?]]; [left|right; split; [assumption|]].
      * eapply threads_trans; eassumption.
      * eapply threads_fails; eassumption.
Qed.

End Failure.

(** X4: [format] stops at the first consumer call that fails and returns
    EXBADFORMAT: when it returns, either every call of the consumer has
    succeeded, each one on the state the one before had returned, or the
    result is EXBADFORMAT and the last call is the only one that failed.  A
    result that is not negative therefore means that the consumer took all
    the output. *)
Theorem X4_stops_at_failure (S : Type) (cons : S -> list ascii -> option S) (fp : bool)
        (parg : S) (fmt : option cstr) (args : list arg) (n : Z) (m : machine S) :
  Full.format S cons fp parg fmt args = Some (n, m) ->
  (replay cons (sent m) parg = Some (sink m)
   \/ (n = EXBADFORMAT
       /\ exists runs last s, sent m = runs ++ [last]
                              /\ replay cons runs parg = Some s
                              /\ cons s last = None))
  /\ (0 <= n -> replay cons (sent m) parg = Some (sink m)).
Proof.
  intros H.
  assert (Hmain : threads cons (mkMachine parg [] args []) m
                  \/ (n = EXBADFORMAT /\ fails cons (mkMachine parg [] args []) m)).
  { unfold Full.format in H. destruct fmt as [fmt|].
    - eapply saf_format_loop. exact H.
    - inversion H; subst. left. apply threads_refl. }
  assert (Hgood : threads cons (mkMachine parg [] args []) m ->
                  replay cons (sent m) parg = Some (sink m)).
  { intros (runs & E & Hr). cbn in E, Hr. now rewrite E. }
  split.
  - destruct Hmain as [Ht|[Hn (runs & last & s & E & Hr & Hc)]]; [left; auto|].
    right. split; [assumption|]. exists runs, last, s. cbn in E, Hr. auto.
  - intros Hn. destruct Hmain as [Ht|[-> _]]; [auto|unfold EXBADFORMAT in Hn; lia].
Qed.

Lemma X4_stops_at_failure_witness :
  (replay Full.bufwrite (sent (mkMachine (str "42!") [str "42"; str "!"] (@nil arg) []))
     [] = Some (sink (mkMachine (str "42!") [str "42"; str "!"] (@nil arg) []))
   \/ (3 = EXBADFORMAT
       /\ exists runs last s,
            sent (mkMachine (str "42!") [str "42"; str "!"] (@nil arg) []) = runs ++ [last]
            /\ replay Full.bufwrite runs [] = Some s
            /\ Full.bufwrite s last = None))
  /\ (0 <= 3 ->
      replay Full.bufwrite (sent (mkMachine (str "42!") [str "42"; str "!"] (@nil arg) []))
        [] = Some (sink (mkMachine (str "42!") [str "42"; str "!"] (@nil arg) []))).
Proof.
  apply (X4_stops_at_failure (list ascii) Full.bufwrite true [] (Some (str "%d!"))
           [AInt 42] 3 (mkMachine (str "42!") [str "42"; str "!"] [] [])).
  vm_compute. reflexivity.
Defined.

(** ** The conversions [%c], [%C], [%s] and [%n] *)

Ltac run_bind_as H a m1 E :=
  match type of H with
  | bind ?c _ ?m = Some _ =>
      unfold bind at 1 in H;
      destruct (c m) as [[a m1]|] eqn:E; [|discriminate H]
  end.

Lemma va_next_inv S (m m' : machine S) a :
  va_next m = Some (a, m') ->
  ap m = a :: ap m' /\ sent m' = sent m /\ sink m' = sink m /\ stores m' = stores m.
Proof.
  unfold va_next. destruct (ap m) as [|x rest]; intros H; inversion H; subst. cbn. auto.
Qed.

Lemma va_int_inv S (m m' : machine S) v :
  va_int m = Some (v, m') ->
  exists z, v = to_int z /\ ap m = AInt z :: ap m'
            /\ sent m' = sent m /\ sink m' = sink m /\ stores m' = stores m.
Proof.
  unfold va_int. intros H. run_bind H. apply va_next_inv in E as (Ha & Hrest).
  destruct a; try discriminate H. apply ret_inv in H as [-> ->]. eauto.
Qed.

Lemma va_str_inv S (m m' : machine S) v :
  va_str m = Some (v, m') ->
  ap m = AStr v :: ap m' /\ sent m' = sent m /\ sink m' = sink m /\ stores m' = stores m.
Proof.
  unfold va_str. intros H. run_bind H. apply va_next_inv in E as (Ha & Hrest).
  destruct a; try discriminate H. apply ret_inv in H as [-> ->]. auto.
Qed.

Section SimpleConversions.

Variable S : Type.
Variable cons : S -> list ascii -> option S.

Lemma gen_out_char cc (m : machine S) :
  Full.gen_out S cons 0 None 0 0 (Some [cc]) 1 0 m
  = match cons (sink m) [cc] with
    | Some s' => Some (1, mkMachine s' (sent m ++ [[cc]]) (ap m) (stores m))
    | None => Some (EXBADFORMAT, mkMachine (sink m) (sent m ++ [[cc]]) (ap m) (stores m))
    end.
Proof.
  unfold Full.gen_out, Full.orbad, bind, ret, Full.emit.
  change (Full.bytes (Some [cc]) 1) with [cc].
  cbn [Z.eqb negb Z.ltb Z.compare sink sent ap stores].
  destruct (cons (sink m) [cc]); reflexivity.
Qed.

Lemma do_conv_c_loop_sent cc rep : forall n (m m' : machine S) r,
  0 <= n -> n + Z.of_nat rep < 2147483648 ->
  Full.do_conv_c_loop S cons rep cc n m = Some (r, m') ->
  r = EXBADFORMAT
  \/ (r = n + Z.of_nat rep /\ sent m' = sent m ++ repeat [cc] rep
      /\ ap m' = ap m /\ stores m' = stores m).
Proof.
  induction rep as [|rep IH]; intros n m m' r Hn Hlim H; cbn [Full.do_conv_c_loop] in H.
  - apply ret_inv in H as [-> ->]. right. cbn. rewrite app_nil_r, Z.add_0_r. auto.
  - unfold bind in H. rewrite gen_out_char in H.
    destruct (cons (sink m) [cc]) as [s'|].
    + change (1 =? EXBADFORMAT) with false in H. cbv iota in H.
      rewrite to_int_small in H by lia.
      apply IH in H; [|lia|lia]. destruct H as [?|(Hr & Hs & Ha & Hst)]; [auto|].
      right. cbn [sent ap stores] in *. rewrite Hs, <- app_assoc. cbn.
      repeat split; try assumption. lia.
    + change (EXBADFORMAT =? EXBADFORMAT) with true in H. cbv iota in H.
      apply ret_inv in H as [-> _]. auto.
Qed.

(** X5: [%c] and [%C] send the character [max 1 precision] times, one
    consumer call for each copy, and return that number; the field width and
    the flags play no part, so the character is never padded.  [%c] reads the
    character as an [int] argument, [%C] takes it from the template. *)
Theorem X5_char_is_repeated (pspec : Full.T_FormatSpec) (code : ascii)
        (m m' : machine S) (r : Z) :
  Full.prec pspec < 2147483648 ->
  Full.do_conv_c S cons pspec code m = Some (r, m') ->
  r <> EXBADFORMAT ->
  exists cc,
    (if Ascii.eqb code "c"
     then exists v, ap m = AInt v :: ap m' /\ cc = chr (to_int v)
     else cc = Full.repchar pspec /\ ap m' = ap m)
    /\ sent m' = sent m ++ repeat [cc] (Z.to_nat (Z.max 1 (Full.prec pspec)))
    /\ r = Z.max 1 (Full.prec pspec).
Proof.
  intros Hp H Hr. unfold Full.do_conv_c in H. run_bind H.
  assert (Hrep : to_uint (MAX 1 (if Full.prec pspec <? 0 then 1 else Full.prec pspec))
                 = Z.max 1 (Full.prec pspec)).
  { unfold MAX. destruct (Z.ltb_spec (Full.prec pspec) 0).
    - change (1 >? 1) with false. cbv iota. rewrite to_uint_small; lia.
    - destruct (Z.gtb_spec 1 (Full.prec pspec)); rewrite to_uint_small; lia. }
  rewrite Hrep in H.
  apply do_conv_c_loop_sent in H; [|lia|lia].
  destruct H as [?|(-> & Hs & Ha & _)]; [contradiction|].
  exists a. split; [|split].
  - destruct (Ascii.eqb code "c").
    + run_bind E. apply va_int_inv in E0 as (v0 & -> & Hap & _).
      apply ret_inv in E as [-> ->]. exists v0. rewrite Ha. auto.
    + apply ret_inv in E as [-> ->]. rewrite Ha. auto.
  - assert (sent m0 = sent m).
    { destruct (Ascii.eqb code "c").
      - run_bind E. apply va_int_quiet in E0 as [? _].
        apply ret_inv in E as [_ ->]. assumption.
      - apply ret_inv in E as [_ ->]. reflexivity. }
    congruence.
  - lia.
Qed.

End SimpleConversions.

Lemma X5_char_is_repeated_witness :
  exists cc,
    (if Ascii.eqb "c" "c"
     then exists v, ap (mkMachine (@nil ascii) [] [AInt 120] [])
                    = AInt v :: ap (mkMachine (str "xxx") [str "x"; str "x"; str "x"] [] [])
                    /\ cc = chr (to_int v)
     else cc = Full.repchar (Full.mkSpec 0 0 9 3 0 NUL NUL [])
          /\ ap (mkMachine (str "xxx") [str "x"; str "x"; str "x"] (@nil arg) [])
             = ap (mkMachine (@nil ascii) [] [AInt 120] []))
    /\ sent (mkMachine (str "xxx") [str "x"; str "x"; str "x"] (@nil arg) [])
       = sent (mkMachine (@nil ascii) [] [AInt 120] [])
         ++ repeat [cc] (Z.to_nat (Z.max 1 (Full.prec (Full.mkSpec 0 0 9 3 0 NUL NUL []))))
    /\ 3 = Z.max 1 (Full.prec (Full.mkSpec 0 0 9 3 0 NUL NUL [])).
Proof.
  apply (X5_char_is_repeated (list ascii) Full.bufwrite
           (Full.mkSpec 0 0 9 3 0 NUL NUL []) "c"%char
           (mkMachine [] [] [AInt 120] [])
           (mkMachine (str "xxx") [str "x"; str "x"; str "x"] [] []) 3).
  - simpl; lia.
  - vm_compute. reflexivity.
  - unfold EXBADFORMAT. lia.
Defined.

Section StringField.

Variable S : Type.
Variable cons : S -> list ascii -> option S.

Lemma orbad_is_int c k :
  (forall (m m' : machine S) r, k m = Some (r, m') -> is_int r) ->
  forall (m m' : machine S) r, Full.orbad S c k m = Some (r, m') -> is_int r.
Proof.
  intros Hk m m' r H. run_bind H. destruct (z <? 0).
  - apply ret_inv in H as [-> _]. unfold is_int, EXBADFORMAT. lia.
  - eapply Hk. exact H.
Qed.

Lemma gen_out_is_int ps1 pfx_s pfx_n pz e_s e_n ps2 (m m' : machine S) r :
  Full.gen_out S cons ps1 pfx_s pfx_n pz e_s e_n ps2 m = Some (r, m') -> is_int r.
Proof.
  unfold Full.gen_out. revert m m' r.
  do 5 apply orbad_is_int.
  intros m m' r H. apply ret_inv in H as [-> _]. apply to_int_is_int.
Qed.

(** X6: [%s] sends the string cut down to the precision, never more than up
    to its terminator, between the spaces [calc_space_padding] asks for; the
    field is as wide as the larger of the width and the length sent, so a
    string is padded but never cut by the width. *)
Theorem X6_string_field (pspec : Full.T_FormatSpec) (code : ascii)
        (m m' : machine S) (r : Z) :
  0 <= Full.width pspec < 2147483648 ->
  Full.prec pspec < 2147483648 ->
  Full.do_conv_s S cons pspec code m = Some (r, m') ->
  r <> EXBADFORMAT ->
  exists a s len,
    ap m = AStr a :: ap m'
    /\ s = match a with Some s => s | None => str "(null)" end
    /\ len = (if Full.prec pspec <? 0 then Z.of_nat (strlen s)
              else Z.min (Full.prec pspec) (Z.of_nat (strlen s)))
    /\ (len < 2147483648 ->
        text m' = text m
                  ++ repeat " "%char (Z.to_nat (fst (Full.calc_space_padding pspec len)))
                  ++ firstn (Z.to_nat len) s
                  ++ repeat " "%char (Z.to_nat (snd (Full.calc_space_padding pspec len)))
        /\ r = Z.max (Full.width pspec) len).
Proof.
  intros Hw Hp H Hr. unfold Full.do_conv_s in H. run_bind_as H a m0 E.
  apply va_str_inv in E as (Hap & Hsent & _).
  set (s := match a with Some s => s | None => str "(null)" end) in *.
  set (len := if Full.prec pspec >=? 0
              then if to_size_t (Full.prec pspec) <? Z.of_nat (strlen s)
                   then to_size_t (Full.prec pspec) else Z.of_nat (strlen s)
              else Z.of_nat (strlen s)) in *.
  assert (Hlen : len = if Full.prec pspec <? 0 then Z.of_nat (strlen s)
                       else Z.min (Full.prec pspec) (Z.of_nat (strlen s))).
  { subst len. destruct (Z.ltb_spec (Full.prec pspec) 0) as [Hneg|Hpos].
    - destruct (Z.geb_spec (Full.prec pspec) 0); [lia|reflexivity].
    - destruct (Z.geb_spec (Full.prec pspec) 0); [|lia].
      rewrite to_size_t_small by lia.
      destruct (Z.ltb_spec (Full.prec pspec) (Z.of_nat (strlen s))); lia. }
  assert (Hl0 : len < 2147483648 -> 0 <= len <= Zlen s).
  { intros Hsmall. pose proof (strlen_le s). rewrite Hlen. unfold Zlen.
    destruct (Full.prec pspec <? 0) eqn:E; [lia|]. apply Z.ltb_ge in E. lia. }
  pose proof (calc_space_padding_size_t pspec len) as [Hp1 Hp2].
  assert (Hsum : len < 2147483648 ->
                 fst (Full.calc_space_padding pspec len)
                 + snd (Full.calc_space_padding pspec len)
                 = Z.max 0 (Full.width pspec - len)).
  { intros Hsmall. specialize (Hl0 Hsmall).
    apply (calc_space_padding_total pspec len);
      change (2 ^ 63) with 9223372036854775808; lia. }
  destruct (Full.calc_space_padding pspec len) as [ps1 ps2] eqn:Ecsp. cbn [fst snd] in *.
  pose proof (gen_out_is_int _ _ _ _ _ _ _ _ _ _ H) as Hint.
  change (Full.gen_layout S cons (Full.mkLayout ps1 None 0 0 (Some s) len ps2) m0
          = Some (r, m')) in H.
  apply gen_layout_text in H; try assumption; [|apply is_size_t_0].
  destruct H as [Hap' [?|[Ht Hc]]]; [contradiction|].
  exists a, s, len. split; [rewrite Hap, Hap'; reflexivity|]. split; [reflexivity|].
  split; [exact Hlen|]. intros Hsmall. rewrite Ecsp. cbn [fst snd].
  specialize (Hl0 Hsmall). specialize (Hsum Hsmall).
  unfold field, field_count in *.
  cbn [Full.l_ps1 Full.l_pfx_s Full.l_pfx_n Full.l_pz Full.l_e_s Full.l_e_n Full.l_ps2] in *.
  split.
  - rewrite Ht. unfold text. rewrite Hsent. reflexivity.
  - unfold same_count, is_int, is_size_t in *. mlia.
Qed.

End StringField.

Lemma X6_string_field_witness :
  exists a s len,
    ap (mkMachine (@nil ascii) [] [AStr (Some (str "hello"))] [])
    = AStr a :: ap (mkMachine (str "   hel") [str "   "; str "hel"] (@nil arg) [])
    /\ s = match a with Some s => s | None => str "(null)" end
    /\ len = (if Full.prec (Full.mkSpec 0 0 6 3 0 NUL NUL []) <? 0
              then Z.of_nat (strlen s)
              else Z.min (Full.prec (Full.mkSpec 0 0 6 3 0 NUL NUL [])) (Z.of_nat (strlen s)))
    /\ (len < 2147483648 ->
        text (mkMachine (str "   hel") [str "   "; str "hel"] (@nil arg) [])
        = text (mkMachine (@nil ascii) [] [AStr (Some (str "hello"))] [])
          ++ repeat " "%char
               (Z.to_nat (fst (Full.calc_space_padding (Full.mkSpec 0 0 6 3 0 NUL NUL []) len)))
          ++ firstn (Z.to_nat len) s
          ++ repeat " "%char
               (Z.to_nat (snd (Full.calc_space_padding (Full.mkSpec 0 0 6 3 0 NUL NUL []) len)))
        /\ 6 = Z.max (Full.width (Full.mkSpec 0 0 6 3 0 NUL NUL [])) len).
Proof.
  apply (X6_string_field (list ascii) Full.bufwrite (Full.mkSpec 0 0 6 3 0 NUL NUL [])
           "s"%char (mkMachine [] [] [AStr (Some (str "hello"))] [])
           (mkMachine (str "   hel") [str "   "; str "hel"] [] []) 6).
  - simpl; lia.
  - simpl; lia.
  - vm_compute. reflexivity.
  - unfold EXBADFORMAT. lia.
Defined.

(** X7: [%n] sends nothing and stores the number of bytes sent so far
    through its pointer argument, as an [int] when there is no length
    qualifier; a null pointer is read and ignored. *)
Theorem X7_count_so_far (S : Type) (cons : S -> list ascii -> option S) (fp : bool)
        (parg : S) (lit : cstr) (p : Z) (args : list arg) :
  lit <> [] -> forallb is_literal lit = true -> Zlen lit < 2147483648 ->
  Full.format S cons fp parg (Some (lit ++ str "%n")) (APtr p :: args)
  = match cons parg lit with
    | Some s' =>
        Some (Zlen lit,
              mkMachine s' [lit] args (if p =? 0 then [] else [(p, Zlen lit)]))
    | None => Some (EXBADFORMAT, mkMachine parg [lit] (APtr p :: args) [])
    end.
Proof.
  intros Hne Hlit Hlen. unfold Full.format, Full.format_fuel.
  assert (Hfuel : exists f, (List.length (lit ++ str "%n")
                             + list_sum (map Full.arg_weight (APtr p :: args)))%nat
                            = Datatypes.S f).
  { rewrite length_app. cbn. eexists. rewrite Nat.add_comm. cbn. reflexivity. }
  destruct Hfuel as [f ->].
  assert (Hpos : 0 <= Zlen lit) by apply Zlen_nonneg.
  change (str "%n") with ("%"%char :: str "n").
  rewrite format_loop_literal by (try assumption; lia).
  cbn [sink sent ap stores app].
  destruct (cons parg lit) as [s'|]; [|reflexivity].
  rewrite format_loop_percent. unfold bind at 1.
  change (Full.parse_spec S (to_uint (0 + Zlen lit)) (str "n")
            (mkMachine s' [lit] (APtr p :: args) []))
    with (Some (Full.PConv (Full.mkSpec (to_uint (0 + Zlen lit)) 0 0 (-1) 0 NUL NUL [])
                           "n"%char (str "n"),
                mkMachine s' [lit] (APtr p :: args) [])).
  cbv iota beta.
  change (Full.do_conv S cons fp (Full.mkSpec (to_uint (0 + Zlen lit)) 0 0 (-1) 0 NUL NUL [])
                       "n")
    with (Full.do_conv_n S (Full.mkSpec (to_uint (0 + Zlen lit)) 0 0 (-1) 0 NUL NUL [])).
  unfold bind at 1, Full.do_conv_n. unfold bind at 1.
  change (va_ptr (mkMachine s' [lit] (APtr p :: args) []))
    with (Some (p, mkMachine s' [lit] args [])).
  cbv iota beta.
  rewrite Z.add_0_l, (to_uint_small (Zlen lit)) by lia.
  destruct (p =? 0).
  - unfold ret at 1. change (0 <? 0) with false. cbv iota.
    change (INC_VOID_PTR (str "n")) with (@nil ascii).
    rewrite format_loop_end. change (to_uint 0) with 0.
    rewrite Z.add_0_r, to_uint_small, to_int_small by lia. reflexivity.
  - cbn [Full.qual Full.nChars]. change (Ascii.eqb NUL "h") with false.
    change (Ascii.eqb NUL (Full.DOUBLE_QUAL "h")) with false.
    change (Ascii.eqb NUL "l") with false. change (Ascii.eqb NUL "j") with false.
    change (Ascii.eqb NUL "z") with false. change (Ascii.eqb NUL "t") with false.
    cbv iota. unfold bind at 1, store at 1, ret at 1. cbn [sink sent ap stores app].
    change (0 <? 0) with false. cbv iota.
    change (INC_VOID_PTR (str "n")) with (@nil ascii).
    rewrite format_loop_end. change (to_uint 0) with 0.
    rewrite Z.add_0_r, to_uint_small, !to_int_small by lia. reflexivity.
Qed.

Lemma X7_count_so_far_witness :
  Full.format (list ascii) Full.bufwrite true [] (Some (str "abc" ++ str "%n"))
    (APtr 4096 :: [])
  = match Full.bufwrite [] (str "abc") with
    | Some s' =>
        Some (Zlen (str "abc"),
              mkMachine s' [str "abc"] []
                (if 4096 =? 0 then [] else [(4096, Zlen (str "abc"))]))
    | None => Some (EXBADFORMAT, mkMachine [] [str "abc"] (APtr 4096 :: []) [])
    end.
Proof.
  apply (X7_count_so_far (list ascii) Full.bufwrite true [] (str "abc") 4096 []).
  - discriminate.
  - reflexivity.
  - vm_compute. reflexivity.
Defined.

(** ** Refused specifications *)




Section BaseLimits.

Variable S : Type.
Variable cons : S -> list ascii -> option S.
Variable fp : bool.





End BaseLimits.





(** ** Continuation *)

Ltac step_both H :=
  match type of H with
  | match ?e with _ => _ end = _ =>
      destruct e as [[? ?]|] eqn:?; [|discriminate H]
  end.

Section Continuation.

Variable S : Type.
Variable cons : S -> list ascii -> option S.
Variable fp : bool.

(** The scan loop does not depend on the bound on its iterations once the
    bound is large enough. *)
Lemma format_loop_more_fuel fuel : forall fuel' nChars ptr (m : machine S) x,
  (fuel <= fuel')%nat ->
  Full.format_loop S cons fp fuel nChars ptr m = Some x ->
  Full.format_loop S cons fp fuel' nChars ptr m = Some x.
Proof.
  induction fuel as [|fuel IH]; intros fuel' nChars ptr m x Hle H; [discriminate H|].
  destruct fuel' as [|fuel']; [lia|].
  rewrite format_loop_step in *.
  destruct (is_nul (READ_CHAR ptr)); [exact H|].
  destruct (Full.scan_literal ptr) as [lit s]. cbv zeta in *.
  unfold Full.orbad, bind in *.
  step_both H. destruct (z <? 0); [exact H|].
  destruct (negb (is_nul (READ_CHAR s))); [|apply IH; [lia|exact H]].
  cbv beta in *. step_both H.
  destruct p as [|f|spec convspec ptr']; [exact H| |]; cbv beta in *.
  - step_both H. destruct o as [t|]; [|exact H]. apply IH; [lia|exact H].
  - step_both H. destruct (z0 <? 0); [exact H|]. apply IH; [lia|exact H].
Qed.

End Continuation.

(** X11: a template that ends right behind a percent sign is continued by
    the next argument, a string: the call with the template ["%"] in front of
    the template [t] in the argument list returns what the call with the
    template [t] returns, having sent the same output and read the same
    arguments. *)
Theorem X11_continuation (S : Type) (cons : S -> list ascii -> option S) (fp : bool)
        (parg : S) (t : cstr) (args : list arg) (x : Z * machine S) :
  Full.format S cons fp parg (Some t) args = Some x ->
  Full.format S cons fp parg (Some (str "%")) (AStr (Some t) :: args) = Some x.
Proof.
  intros H. unfold Full.format, Full.format_fuel in *.
  cbn [List.length str list_ascii_of_string Nat.add map list_sum Full.arg_weight].
  change (str "%") with ("%"%char :: []). rewrite format_loop_percent.
  unfold bind at 1.
  change (Full.parse_spec S 0 [] (mkMachine parg [] (AStr (Some t) :: args) []))
    with (Some (Full.PContinue 0, mkMachine parg [] (AStr (Some t) :: args) [])).
  cbv iota beta. unfold bind at 1.
  change (va_str (mkMachine parg [] (AStr (Some t) :: args) []))
    with (Some (Some t, mkMachine parg [] args [])).
  cbv iota beta.
  eapply format_loop_more_fuel; [|exact H].
  change (list_sum (Datatypes.S (List.length t) :: map Full.arg_weight args))
    with (Datatypes.S (List.length t) + list_sum (map Full.arg_weight args))%nat.
  lia.
Qed.

Lemma X11_continuation_witness :
  Full.format (list ascii) Full.bufwrite true [] (Some (str "%")) 
    (AStr (Some (str "n=%d")) :: [AInt 7])
  = Some (3, mkMachine (str "n=7") [str "n="; str "7"] [] []).
Proof.
  apply (X11_continuation (list ascii) Full.bufwrite true [] (str "n=%d") [AInt 7]).
  vm_compute. reflexivity.
Defined.

(** ** Flags *)

Lemma parse_flags_flag c p f :
  member c Full.fchar = true ->
  Full.parse_flags (c :: p) f = Full.parse_flags p (Z.lor f (flag_bit c)).
Proof.
  intros Hc.
  destruct c as [[] [] [] [] [] [] [] []]; try discriminate Hc; reflexivity.
Qed.

Lemma parse_flags_stop rest f :
  member (READ_CHAR rest) Full.fchar = false -> Full.parse_flags rest f = (f, rest).
Proof.
  destruct rest as [|c rest]; [reflexivity|]. cbn [READ_CHAR hd]. intros Hc.
  destruct c as [[] [] [] [] [] [] [] []]; try discriminate Hc; reflexivity.
Qed.

Lemma parse_flags_mask fl : forall rest f,
  forallb (fun c => member c Full.fchar) fl = true ->
  member (READ_CHAR rest) Full.fchar = false ->
  Full.parse_flags (fl ++ rest) f = (Z.lor f (flag_mask fl), rest).
Proof.
  induction fl as [|c fl IH]; intros rest f Hfl Hrest.
  - cbn [app flag_mask fold_right]. rewrite Z.lor_0_r. now apply parse_flags_stop.
  - cbn [forallb] in Hfl. apply andb_prop in Hfl as [Hc Hfl].
    cbn [app]. rewrite parse_flags_flag by assumption.
    rewrite IH by assumption. cbn [flag_mask fold_right].
    now rewrite Z.lor_assoc.
Qed.

(** X12: the flags of a conversion specification add up: two templates that
    differ only in the run of flag characters behind the percent sign give
    the same call when the two runs name the same flags, whatever the order
    and the repetitions (the runs are taken of equal length, so that the
    templates are equally long). *)
Theorem X12_flag_order (S : Type) (cons : S -> list ascii -> option S) (fp : bool)
        (parg : S) (fl fl' rest : cstr) (args : list arg) :
  forallb (fun c => member c Full.fchar) fl = true ->
  forallb (fun c => member c Full.fchar) fl' = true ->
  flag_mask fl = flag_mask fl' ->
  List.length fl = List.length fl' ->
  member (READ_CHAR rest) Full.fchar = false ->
  Full.format S cons fp parg (Some ("%"%char :: fl ++ rest)) args
  = Full.format S cons fp parg (Some ("%"%char :: fl' ++ rest)) args.
Proof.
  intros Hfl Hfl' Hmask Hlen Hrest.
  unfold Full.format, Full.format_fuel.
  cbn [List.length]. rewrite !length_app, Hlen.
  rewrite !format_loop_percent. unfold bind at 1 3.
  unfold Full.parse_spec.
  rewrite !parse_flags_mask by assumption.
  now rewrite Hmask.
Qed.

Lemma X12_flag_order_witness :
  Full.format (list ascii) Full.bufwrite true [] (Some ("%"%char :: str "-+0" ++ str "6d"))
    [AInt 42]
  = Full.format (list ascii) Full.bufwrite true [] (Some ("%"%char :: str "0-+" ++ str "6d"))
      [AInt 42].
Proof.
  apply (X12_flag_order (list ascii) Full.bufwrite true [] (str "-+0") (str "0-+")
           (str "6d") [AInt 42]).
  - reflexivity.
  - reflexivity.
  - reflexivity.
  - reflexivity.
  - reflexivity.
Defined.

(** ** The plain decimal conversion *)



Section PlainDecimal.

Variable S : Type.
Variable cons : S -> list ascii -> option S.



End PlainDecimal.



(** ** The decimal image of a double *)

Lemma radix_frac_range fuel : forall bm dm inc,
  0 <= inc -> 0 <= dm -> dm + 2 * inc + Z.of_nat fuel < 2 ^ 63 ->
  dm <= Full.radix_frac fuel bm dm inc <= dm + 2 * inc + Z.of_nat fuel.
Proof.
  induction fuel as [|fuel IH]; intros bm dm inc Hi Hd Hb.
  - cbn [Full.radix_frac]. lia.
  - cbn [Full.radix_frac]. destruct (bm =? 0); [lia|].
    change (2 ^ 63) with 9223372036854775808 in *.
    assert (Hinc : wrapu 64 (inc + 1) / 2 = (inc + 1) / 2).
    { rewrite wrapu_small; [reflexivity|]. change (2 ^ 64) with 18446744073709551616. lia. }
    rewrite Hinc.
    assert (H2 : 0 <= (inc + 1) / 2 /\ 2 * ((inc + 1) / 2) <= inc + 1) by mlia.
    destruct (negb (Z.land bm Full.BIN_MANT_REG_TOP_BIT =? 0)).
    + rewrite (wrapu_small 64 (dm + inc))
        by (change (2 ^ 64) with 18446744073709551616; lia).
      specialize (IH (wrapu 64 (Z.shiftl bm 1)) (dm + inc) ((inc + 1) / 2)).
      change (2 ^ 63) with 9223372036854775808 in IH. lia.
    + specialize (IH (wrapu 64 (Z.shiftl bm 1)) dm ((inc + 1) / 2)).
      change (2 ^ 63) with 9223372036854775808 in IH. lia.
Qed.

Lemma radix_up_range e : forall dm de,
  Full.DEC_1P0 <= dm < 10 * Full.DEC_1P0 -> 0 <= de -> de + Z.of_nat e < 2147483648 ->
  Full.DEC_1P0 <= fst (Full.radix_up e dm de) < 10 * Full.DEC_1P0
  /\ de <= snd (Full.radix_up e dm de) <= de + Z.of_nat e.
Proof.
  unfold Full.DEC_1P0.
  induction e as [|e IH]; intros dm de Hd H0 He.
  - cbn [Full.radix_up fst snd]. lia.
  - cbn [Full.radix_up]. unfold Full.DEC_1P0.
    rewrite (wrapu_small 64 (dm * 2)) by (change (2 ^ 64) with 18446744073709551616; lia).
    destruct (Z.geb_spec (dm * 2) (1000000000000000 * 10)) as [Hge|Hlt].
    + rewrite (wrapu_small 64 (dm * 2 + 5))
        by (change (2 ^ 64) with 18446744073709551616; lia).
      rewrite to_int_small by lia.
      specialize (IH ((dm * 2 + 5) / 10) (de + 1)).
      assert (1000000000000000 <= (dm * 2 + 5) / 10 < 10 * 1000000000000000) by mlia.
      lia.
    + specialize (IH (dm * 2) de). lia.
Qed.

Lemma radix_down_step dm :
  500000000000000 <= dm < 10 * Full.DEC_1P0 ->
  Full.DEC_1P0
  <= wrapu 64 ((if dm <? Full.DEC_1P0 * 2 then wrapu 64 (dm * 10) else dm) + 1) / 2
  < 10 * Full.DEC_1P0.
Proof.
  unfold Full.DEC_1P0. intros Hd.
  destruct (Z.ltb_spec dm (1000000000000000 * 2)).
  - rewrite (wrapu_small 64 (dm * 10)) by (change (2 ^ 64) with 18446744073709551616; lia).
    rewrite wrapu_small by (change (2 ^ 64) with 18446744073709551616; lia). mlia.
  - rewrite wrapu_small by (change (2 ^ 64) with 18446744073709551616; lia). mlia.
Qed.

Lemma radix_down_unfold e dm de :
  Full.radix_down (Datatypes.S e) dm de
  = Full.radix_down e
      (wrapu 64 ((if dm <? Full.DEC_1P0 * 2 then wrapu 64 (dm * 10) else dm) + 1) / 2)
      (if dm <? Full.DEC_1P0 * 2 then to_int (de - 1) else de).
Proof. cbn [Full.radix_down]. destruct (dm <? Full.DEC_1P0 * 2); reflexivity. Qed.

Lemma radix_down_range e : forall dm de,
  Full.DEC_1P0 <= dm < 10 * Full.DEC_1P0 -> de <= 2147483647 ->
  -2147483648 <= de - Z.of_nat e ->
  Full.DEC_1P0 <= fst (Full.radix_down e dm de) < 10 * Full.DEC_1P0
  /\ de - Z.of_nat e <= snd (Full.radix_down e dm de) <= de.
Proof.
  induction e as [|e IH]; intros dm de Hd H0 He.
  - cbn [Full.radix_down fst snd]. lia.
  - rewrite radix_down_unfold.
    assert (Hs := radix_down_step dm). unfold Full.DEC_1P0 in *.
    specialize (Hs ltac:(lia)).
    destruct (dm <? 1000000000000000 * 2).
    + rewrite to_int_small by lia.
      specialize (IH _ (de - 1) Hs). lia.
    + specialize (IH _ de Hs). lia.
Qed.

(** The fields of a 64-bit image, as the masks and shifts of
    [radix_convert] read them. *)
Lemma fp_fields bits :
  0 <= bits < 2 ^ 64 ->
  Z.land bits Full.BIN_MANT_MASK = fp_frac bits
  /\ Z.land (Z.shiftr bits Full.BIN_EXP_SHIFT) Full.BIN_EXP_MASK = fp_exp bits
  /\ Z.land (Z.shiftr bits Full.BIN_SIGN_SHIFT) Full.BIN_SIGN_MASK = fp_sign bits.
Proof.
  intros Hb. unfold fp_frac, fp_exp, fp_sign.
  change Full.BIN_MANT_MASK with (Z.ones 52).
  change Full.BIN_EXP_MASK with (Z.ones 11).
  change Full.BIN_SIGN_MASK with (Z.ones 1).
  rewrite !Z.land_ones by lia.
  unfold Full.BIN_EXP_SHIFT, Full.BIN_SIGN_SHIFT.
  rewrite !Z.shiftr_div_pow2 by lia.
  split; [reflexivity|]. split; [reflexivity|].
  apply Z.mod_small.
  change (2 ^ 64) with (2 ^ 63 * 2) in Hb. change (2 ^ 1) with 2.
  assert (0 < 2 ^ 63) by lia.
  split; [apply Z.div_pos; lia|apply Z.div_lt_upper_bound; lia].
Qed.

Lemma fp_field_ranges bits :
  0 <= bits < 2 ^ 64 ->
  0 <= fp_frac bits < 2 ^ 52 /\ 0 <= fp_exp bits < 2048 /\ 0 <= fp_sign bits <= 1.
Proof.
  intros Hb. unfold fp_frac, fp_exp, fp_sign.
  split; [apply Z.mod_pos_bound; lia|]. split; [apply Z.mod_pos_bound; lia|].
  change (2 ^ 64) with (2 ^ 63 * 2) in Hb. assert (0 < 2 ^ 63) by lia.
  split; [apply Z.div_pos; lia|].
  assert (bits / 2 ^ 63 < 2) by (apply Z.div_lt_upper_bound; lia). lia.
Qed.

(** X14: [radix_convert] of the full tier returns the sign bit as the sign;
    an infinity or a NaN as the exponent INT_MAX with the fraction bits as the
    mantissa; a zero as mantissa and exponent 0; and every other value as a
    mantissa of exactly DEC_SIG_FIG digits, with an exponent of the sign of
    the binary one and no larger than it. *)
Theorem X14_radix_convert_normalised (bits : Z) :
  0 <= bits < 2 ^ 64 ->
  fst (fst (Full.radix_convert bits)) = fp_sign bits
  /\ (fp_exp bits = 2047 ->
      snd (fst (Full.radix_convert bits)) = fp_frac bits
      /\ snd (Full.radix_convert bits) = INT_MAX)
  /\ (fp_exp bits = 0 -> fp_frac bits = 0 ->
      snd (fst (Full.radix_convert bits)) = 0 /\ snd (Full.radix_convert bits) = 0)
  /\ (fp_exp bits <> 2047 -> fp_exp bits <> 0 \/ fp_frac bits <> 0 ->
      Full.DEC_1P0 <= snd (fst (Full.radix_convert bits)) < 10 * Full.DEC_1P0
      /\ Z.min 0 (fp_exp bits - 1023) <= snd (Full.radix_convert bits)
         <= Z.max 0 (fp_exp bits - 1023)).
Proof.
  intros Hb. destruct (fp_fields bits Hb) as (Hm & He & Hs).
  destruct (fp_field_ranges bits Hb) as (Rm & Re & Rs).
  unfold Full.radix_convert. rewrite Hm, He, Hs.
  unfold Full.BIN_EXP_MASK, Full.BIN_EXP_BIAS.
  destruct (Z.eqb_spec (fp_exp bits) 2047) as [E1|E1].
  { cbn [fst snd]. repeat split; try reflexivity; try lia; try contradiction. }
  destruct (Z.eqb_spec (fp_frac bits) 0) as [E2|E2];
    destruct (Z.eqb_spec (fp_exp bits) 0) as [E3|E3]; cbn [andb].
  { cbn [fst snd]. repeat split; try reflexivity; try lia.
    all: intros _ [?|?]; contradiction. }
  all: set (dm := Full.radix_frac 64 _ _ _);
    assert (Hdm : Full.DEC_1P0 <= dm < 10 * Full.DEC_1P0)
      by (subst dm; unfold Full.DEC_1P0;
          match goal with |- _ <= Full.radix_frac 64 ?bm ?d ?i < _ =>
            pose proof (radix_frac_range 64 bm d i) as Hf end;
          change ((1000000000000000 + 1) / 2) with 500000000000000 in *;
          change (2 ^ 63) with 9223372036854775808 in Hf;
          change (Z.of_nat 64) with 64 in Hf; lia);
    destruct (Z.le_gt_cases 0 (fp_exp bits - 1023)) as [Hpos|Hneg].
  all: try (replace (Z.to_nat (- (fp_exp bits - 1023))) with 0%nat by lia;
    pose proof (radix_up_range (Z.to_nat (fp_exp bits - 1023)) dm 0 Hdm) as Hu;
    destruct (Full.radix_up (Z.to_nat (fp_exp bits - 1023)) dm 0) as [dm1 de1];
    cbn [Full.radix_down fst snd] in *;
    split; [reflexivity|]; split; [intros; lia|]; split; [intros; lia|];
    intros _ _; lia).
  all: replace (Z.to_nat (fp_exp bits - 1023)) with 0%nat by lia;
    cbn [Full.radix_up];
    pose proof (radix_down_range (Z.to_nat (- (fp_exp bits - 1023))) dm 0 Hdm) as Hd;
    destruct (Full.radix_down (Z.to_nat (- (fp_exp bits - 1023))) dm 0) as [dm1 de1];
    cbn [fst snd] in *;
    split; [reflexivity|]; split; [intros; lia|]; split; [intros; lia|];
    intros _ _; lia.
Qed.

Lemma X14_radix_convert_normalised_witness :
  fst (fst (Full.radix_convert 4614253070214989087)) = fp_sign 4614253070214989087
  /\ (fp_exp 4614253070214989087 = 2047 ->
      snd (fst (Full.radix_convert 4614253070214989087)) = fp_frac 4614253070214989087
      /\ snd (Full.radix_convert 4614253070214989087) = INT_MAX)
  /\ (fp_exp 4614253070214989087 = 0 -> fp_frac 4614253070214989087 = 0 ->
      snd (fst (Full.radix_convert 4614253070214989087)) = 0
      /\ snd (Full.radix_convert 4614253070214989087) = 0)
  /\ (fp_exp 4614253070214989087 <> 2047 ->
      fp_exp 4614253070214989087 <> 0 \/ fp_frac 4614253070214989087 <> 0 ->
      Full.DEC_1P0 <= snd (fst (Full.radix_convert 4614253070214989087)) < 10 * Full.DEC_1P0
      /\ Z.min 0 (fp_exp 4614253070214989087 - 1023)
         <= snd (Full.radix_convert 4614253070214989087)
         <= Z.max 0 (fp_exp 4614253070214989087 - 1023)).
Proof.
  apply (X14_radix_convert_normalised 4614253070214989087). lia.
Defined.

(** A single bit of a non-negative number, as the mask tests read it. *)
Lemma land_pow2 a k :
  0 <= a -> 0 <= k -> (Z.land a (2 ^ k) =? 0) = ((a / 2 ^ k) mod 2 =? 0).
Proof.
  intros Ha Hk.
  assert (Hbit : Z.land a (2 ^ k) = if Z.testbit a k then 2 ^ k else 0).
  { apply Z.bits_inj'. intros n Hn. rewrite Z.land_spec, Z.pow2_bits_eqb by lia.
    destruct (Z.eqb_spec k n) as [->|Hne].
    - destruct (Z.testbit a n) eqn:E.
      + rewrite Z.pow2_bits_true by lia. reflexivity.
      + rewrite Z.bits_0. reflexivity.
    - rewrite andb_false_r. destruct (Z.testbit a k).
      + rewrite Z.pow2_bits_false by lia. reflexivity.
      + rewrite Z.bits_0. reflexivity. }
  rewrite Hbit. pose proof (Z.testbit_spec' a k Hk) as Ht.
  assert (0 < 2 ^ k) by (apply Z.pow_pos_nonneg; lia).
  destruct (Z.testbit a k); cbn [Z.b2z] in Ht; rewrite <- Ht; cbn [Z.eqb]; [|reflexivity].
  destruct (Z.eqb_spec (2 ^ k) 0); [lia|reflexivity].
Qed.

Lemma denormal_shift_range fuel : forall bm be,
  0 < bm < 2 ^ 52 -> 2 ^ 51 <= bm * 2 ^ Z.of_nat fuel ->
  -2147483648 <= be - Z.of_nat fuel -> be <= 2147483647 ->
  2 ^ 51 <= fst (Fp.denormal_shift fuel bm be) < 2 ^ 52
  /\ be - Z.of_nat fuel <= snd (Fp.denormal_shift fuel bm be) <= be.
Proof.
  induction fuel as [|fuel IH]; intros bm be Hbm Hf Hlo Hhi.
  - cbn [Fp.denormal_shift fst snd]. change (2 ^ Z.of_nat 0) with 1 in Hf. lia.
  - cbn [Fp.denormal_shift].
    change (Z.shiftl 1 (Full.BIN_MANT_WIDTH - 1)) with (2 ^ 51).
    rewrite land_pow2 by lia.
    change (2 ^ 52) with (2 ^ 51 * 2) in *.
    assert (H51 : 0 < 2 ^ 51) by lia.
    destruct (Z.eqb_spec ((bm / 2 ^ 51) mod 2) 0) as [Hz|Hnz].
    + assert (Hlt : bm < 2 ^ 51) by mlia.
      rewrite Z.shiftl_mul_pow2 by lia. change (2 ^ 1) with 2.
      rewrite wrapu_small by (change (2 ^ 64) with (2 ^ 51 * 8192); lia).
      rewrite to_int_small by lia.
      specialize (IH (bm * 2) (be - 1)).
      rewrite Nat2Z.inj_succ, Z.pow_succ_r in Hf by lia.
      lia.
    + cbn [fst snd]. assert (2 ^ 51 <= bm) by mlia. lia.
Qed.

Lemma radix_frac_top fuel bm dm inc :
  2 ^ 63 <= bm < 2 ^ 64 ->
  Full.radix_frac (Datatypes.S fuel) bm dm inc
  = Full.radix_frac fuel (wrapu 64 (Z.shiftl bm 1)) (wrapu 64 (dm + inc))
      (wrapu 64 (inc + 1) / 2).
Proof.
  intros Hb. cbn [Full.radix_frac].
  destruct (Z.eqb_spec bm 0) as [E|_]; [change (2 ^ 63) with 9223372036854775808 in Hb; lia|].
  unfold Full.BIN_MANT_REG_TOP_BIT. rewrite land_pow2 by lia.
  change (2 ^ 64) with (2 ^ 63 * 2) in Hb. assert (0 < 2 ^ 63) by lia.
  assert (Hq : bm / 2 ^ 63 = 1) by mlia.
  rewrite Hq. reflexivity.
Qed.

(** The cases of [radix_convert] of [format_fp.c]. *)
Lemma fp_radix_convert_cases (bits : Z) :
  0 <= bits < 2 ^ 64 ->
  fst (fst (Fp.radix_convert bits)) = fp_sign bits
  /\ (fp_exp bits = 2047 ->
      snd (fst (Fp.radix_convert bits)) = fp_frac bits
      /\ snd (Fp.radix_convert bits) = INT_MAX)
  /\ (fp_exp bits = 0 -> fp_frac bits = 0 ->
      snd (fst (Fp.radix_convert bits)) = 0 /\ snd (Fp.radix_convert bits) = 0)
  /\ (fp_exp bits <> 2047 -> fp_exp bits <> 0 \/ fp_frac bits <> 0 ->
      Full.DEC_1P0 <= snd (fst (Fp.radix_convert bits)) < 10 * Full.DEC_1P0
      /\ (if fp_exp bits =? 0 then -1086 else Z.min 0 (fp_exp bits - 1023))
         <= snd (Fp.radix_convert bits)
         <= Z.max 0 (fp_exp bits - 1023)).
Proof.
  intros Hb. destruct (fp_fields bits Hb) as (Hm & He & Hs).
  destruct (fp_field_ranges bits Hb) as (Rm & Re & Rs).
  unfold Fp.radix_convert. rewrite Hm, He, Hs.
  rewrite (to_int_small (fp_exp bits)), (to_uint_small (fp_sign bits)) by lia.
  unfold Full.BIN_EXP_MASK, Full.BIN_EXP_BIAS.
  destruct (Z.eqb_spec (fp_exp bits) 2047) as [E1|E1].
  { cbn [fst snd]. repeat split; try reflexivity; try lia; try contradiction. }
  destruct (Z.eqb_spec (fp_exp bits) 0) as [E3|E3].
  - destruct (Z.eqb_spec (fp_frac bits) 0) as [E2|E2]; cbn [andb].
    { cbn [fst snd]. repeat split; try reflexivity; try lia.
      all: intros _ [?|?]; contradiction. }
    (* a denormal *)
    pose proof (denormal_shift_range 64 (fp_frac bits) 1) as Hsh.
    assert (Hp : 2 ^ 51 <= fp_frac bits * 2 ^ Z.of_nat 64).
    { change (2 ^ Z.of_nat 64) with 18446744073709551616.
      change (2 ^ 51) with 2251799813685248. lia. }
    specialize (Hsh ltac:(lia) Hp ltac:(cbn; lia) ltac:(lia)).
    destruct (Fp.denormal_shift 64 (fp_frac bits) 1) as [bm be]. cbn [fst snd] in Hsh.
    change (Z.of_nat 64) with 64 in Hsh.
    set (bm' := wrapu 64 (Z.shiftl bm Full.BIN_MANT_LEFT_ALIGN)).
    assert (Hbm' : 2 ^ 63 <= bm' < 2 ^ 64).
    { subst bm'. unfold Full.BIN_MANT_LEFT_ALIGN. rewrite Z.shiftl_mul_pow2 by lia.
      change (2 ^ 52) with 4503599627370496 in Hsh.
      change (2 ^ 51) with 2251799813685248 in Hsh.
      rewrite wrapu_small by (change (2 ^ 64) with 18446744073709551616;
                              change (2 ^ 12) with 4096; lia).
      change (2 ^ 63) with 9223372036854775808.
      change (2 ^ 64) with 18446744073709551616. change (2 ^ 12) with 4096. lia. }
    change 64%nat with (Datatypes.S 63).
    rewrite radix_frac_top by exact Hbm'.
    set (dm := Full.radix_frac 63 _ _ _).
    assert (Hdm : 500000000000000 <= dm < 10 * Full.DEC_1P0).
    { subst dm. unfold Full.DEC_1P0.
      change ((1000000000000000 + 1) / 2) with 500000000000000.
      change (wrapu 64 (0 + 500000000000000)) with 500000000000000.
      change (wrapu 64 (500000000000000 + 1) / 2) with 250000000000000.
      match goal with |- _ <= Full.radix_frac 63 ?b ?d ?i < _ =>
        pose proof (radix_frac_range 63 b d i) as Hf end.
      change (2 ^ 63) with 9223372036854775808 in Hf.
      change (Z.of_nat 63) with 63 in Hf. lia. }
    replace (Z.to_nat (be - 1023)) with 0%nat by lia.
    cbn [Full.radix_up].
    assert (Hn : exists k, Z.to_nat (- (be - 1023)) = Datatypes.S k
                           /\ Z.of_nat k = 1022 - be).
    { exists (Z.to_nat (1022 - be)). split; lia. }
    destruct Hn as (k & -> & Hk).
    rewrite radix_down_unfold.
    pose proof (radix_down_step dm Hdm) as Hst.
    set (dm1 := wrapu 64 ((if dm <? Full.DEC_1P0 * 2 then wrapu 64 (dm * 10) else dm) + 1) / 2)
      in *.
    set (de1 := if dm <? Full.DEC_1P0 * 2 then to_int (0 - 1) else 0).
    assert (Hde1 : -1 <= de1 <= 0).
    { subst de1. destruct (dm <? Full.DEC_1P0 * 2); [change (to_int (0 - 1)) with (-1)|]; lia. }
    pose proof (radix_down_range k dm1 de1 Hst) as Hd.
    destruct (Full.radix_down k dm1 de1) as [dm2 de2]. cbn [fst snd] in *.
    split; [reflexivity|]. split; [intros; lia|]. split; [intros; contradiction|].
    intros _ _. change (0 =? 0) with true. cbv iota. lia.
  - rewrite andb_false_r.
    set (dm := Full.radix_frac 64 _ _ _).
    assert (Hdm : Full.DEC_1P0 <= dm < 10 * Full.DEC_1P0).
    { subst dm. unfold Full.DEC_1P0.
      match goal with |- _ <= Full.radix_frac 64 ?bm ?d ?i < _ =>
        pose proof (radix_frac_range 64 bm d i) as Hf end.
      change ((1000000000000000 + 1) / 2) with 500000000000000 in *.
      change (2 ^ 63) with 9223372036854775808 in Hf.
      change (Z.of_nat 64) with 64 in Hf. lia. }
    destruct (Z.eqb_spec (fp_exp bits) 0) as [?|_]; [contradiction|].
    destruct (Z.le_gt_cases 0 (fp_exp bits - 1023)) as [Hpos|Hneg].
    + replace (Z.to_nat (- (fp_exp bits - 1023))) with 0%nat by lia.
      pose proof (radix_up_range (Z.to_nat (fp_exp bits - 1023)) dm 0 Hdm) as Hu.
      destruct (Full.radix_up (Z.to_nat (fp_exp bits - 1023)) dm 0) as [dm1 de1].
      cbn [Full.radix_down fst snd] in *.
      split; [reflexivity|]. split; [intros; lia|]. split; [intros; lia|].
      intros _ _. lia.
    + replace (Z.to_nat (fp_exp bits - 1023)) with 0%nat by lia.
      cbn [Full.radix_up].
      pose proof (radix_down_range (Z.to_nat (- (fp_exp bits - 1023))) dm 0 Hdm) as Hd.
      destruct (Full.radix_down (Z.to_nat (- (fp_exp bits - 1023))) dm 0) as [dm1 de1].
      cbn [fst snd] in *.
      split; [reflexivity|]. split; [intros; lia|]. split; [intros; lia|].
      intros _ _. lia.
Qed.

(** X15: [radix_convert] of [format_fp.c] does the same for the normal
    numbers and, unlike the one of [format.c], shifts the leading bit of a
    denormal into place first: every finite non-zero value, denormal or not,
    comes out as a mantissa of exactly DEC_SIG_FIG digits. *)
Theorem X15_fp_radix_convert_normalised (bits : Z) :
  0 <= bits < 2 ^ 64 ->
  fst (fst (Fp.radix_convert bits)) = fp_sign bits
  /\ (fp_exp bits = 2047 ->
      snd (fst (Fp.radix_convert bits)) = fp_frac bits
      /\ snd (Fp.radix_convert bits) = INT_MAX)
  /\ (fp_exp bits = 0 -> fp_frac bits = 0 ->
      snd (fst (Fp.radix_convert bits)) = 0 /\ snd (Fp.radix_convert bits) = 0)
  /\ (fp_exp bits <> 2047 -> fp_exp bits <> 0 \/ fp_frac bits <> 0 ->
      Full.DEC_1P0 <= snd (fst (Fp.radix_convert bits)) < 10 * Full.DEC_1P0
      /\ (if fp_exp bits =? 0 then -1086 else Z.min 0 (fp_exp bits - 1023))
         <= snd (Fp.radix_convert bits)
         <= Z.max 0 (fp_exp bits - 1023)).
Proof. apply fp_radix_convert_cases. Qed.

Lemma X15_fp_radix_convert_normalised_witness :
  fst (fst (Fp.radix_convert 1)) = fp_sign 1
  /\ (fp_exp 1 = 2047 ->
      snd (fst (Fp.radix_convert 1)) = fp_frac 1 /\ snd (Fp.radix_convert 1) = INT_MAX)
  /\ (fp_exp 1 = 0 -> fp_frac 1 = 0 ->
      snd (fst (Fp.radix_convert 1)) = 0 /\ snd (Fp.radix_convert 1) = 0)
  /\ (fp_exp 1 <> 2047 -> fp_exp 1 <> 0 \/ fp_frac 1 <> 0 ->
      Full.DEC_1P0 <= snd (fst (Fp.radix_convert 1)) < 10 * Full.DEC_1P0
      /\ (if fp_exp 1 =? 0 then -1086 else Z.min 0 (fp_exp 1 - 1023))
         <= snd (Fp.radix_convert 1)
         <= Z.max 0 (fp_exp 1 - 1023)).
Proof.
  apply (X15_fp_radix_convert_normalised 1). lia.
Defined.

(** ** The digits of a mantissa *)

Lemma mant_drop_plain k : forall m,
  0 <= m -> Full.mant_drop k false m = m / 10 ^ Z.of_nat k.
Proof.
  induction k as [|k IH]; intros m Hm.
  - cbn [Full.mant_drop]. change (10 ^ Z.of_nat 0) with 1. now rewrite Z.div_1_r.
  - cbn [Full.mant_drop].
    assert (Hstep : match k with
                    | O => m / 10
                    | Datatypes.S _ => m / 10
                    end = m / 10) by (destruct k; reflexivity).
    rewrite Hstep, IH by (apply Z.div_pos; lia).
    rewrite Nat2Z.inj_succ, Z.pow_succ_r by lia.
    rewrite Z.div_div by lia. reflexivity.
Qed.

Lemma mant_drop_round k : forall m,
  0 <= m < 2 ^ 63 ->
  Full.mant_drop (Datatypes.S k) true m = (m / 10 ^ Z.of_nat k + 5) / 10.
Proof.
  induction k as [|k IH]; intros m Hm.
  - cbn [Full.mant_drop]. change (10 ^ Z.of_nat 0) with 1. rewrite Z.div_1_r.
    rewrite wrapu_small; [reflexivity|].
    change (2 ^ 63) with 9223372036854775808 in Hm.
    change (2 ^ 64) with 18446744073709551616. lia.
  - change (Full.mant_drop (Datatypes.S (Datatypes.S k)) true m)
      with (Full.mant_drop (Datatypes.S k) true (m / 10)).
    assert (0 <= m / 10 < 2 ^ 63).
    { change (2 ^ 63) with 9223372036854775808 in *. mlia. }
    rewrite IH by assumption.
    rewrite Nat2Z.inj_succ, Z.pow_succ_r by lia.
    rewrite Z.div_div by lia. reflexivity.
Qed.

Lemma mant_digits_decode i : forall m buf,
  0 <= m ->
  fold_left (fun v c => v * 10 + digit_value c) (Full.mant_digits i m buf) 0
  = fold_left (fun v c => v * 10 + digit_value c) buf (m mod 10 ^ Z.of_nat i).
Proof.
  induction i as [|i IH]; intros m buf Hm.
  - cbn [Full.mant_digits]. change (10 ^ Z.of_nat 0) with 1. now rewrite Z.mod_1_r.
  - cbn [Full.mant_digits]. rewrite IH by (apply Z.div_pos; lia).
    cbn [fold_left]. rewrite digit_value_decimal by (apply Z.mod_pos_bound; lia).
    f_equal. rewrite Nat2Z.inj_succ, Z.pow_succ_r by lia.
    rewrite Z.rem_mul_r by lia. lia.
Qed.

Lemma decimal_is_digit d : 0 <= d < 10 -> ISDIGIT (chr (48 + d)) = true.
Proof.
  intros Hd.
  assert (H : forallb (fun n => ISDIGIT (chr (48 + Z.of_nat n))) (seq 0 10) = true)
    by (vm_compute; reflexivity).
  rewrite forallb_forall in H. specialize (H (Z.to_nat d)).
  rewrite Z2Nat.id in H by lia. apply H, in_seq. lia.
Qed.

Lemma mant_digits_are_digits i : forall m buf,
  Forall (fun c => ISDIGIT c = true) buf ->
  Forall (fun c => ISDIGIT c = true) (Full.mant_digits i m buf).
Proof.
  induction i as [|i IH]; intros m buf Hbuf; [exact Hbuf|].
  cbn [Full.mant_digits]. apply IH. constructor; [|exact Hbuf].
  apply decimal_is_digit, Z.mod_pos_bound. lia.
Qed.

(** X16: asked for [n] digits of a mantissa of [total] digits, [mant_to_char]
    writes exactly [n] decimal digit characters: those of the mantissa
    without its [total - n] low digits, the last dropped digit rounding the
    rest half up when rounding is asked for.  The version of [format_fp.c]
    is the one of [format.c] without rounding. *)
Theorem X16_mant_to_char_digits (S : Type) (m total n : Z) (want_round : bool)
        (mc : machine S) :
  0 <= m < 2 ^ 63 -> 0 <= n <= Full.DEC_SIG_FIG ->
  exists buf,
    Full.mant_to_char S m total n want_round mc = Some (buf, mc)
    /\ Zlen buf = n
    /\ Forall (fun c => ISDIGIT c = true) buf
    /\ decode 10 buf
       = (if want_round && (n <? total)
          then (m / 10 ^ (total - n - 1) + 5) / 10
          else m / 10 ^ Z.max 0 (total - n)) mod 10 ^ n
    /\ Fp.mant_to_char S m total n mc = Full.mant_to_char S m total n false mc.
Proof.
  intros Hm Hn. unfold Full.DEC_SIG_FIG in Hn.
  unfold Full.mant_to_char, Fp.mant_to_char, Full.DEC_SIG_FIG.
  destruct (Z.ltb_spec n 0); [lia|]. destruct (Z.gtb_spec n 16); [lia|]. cbn [orb].
  eexists. split; [reflexivity|]. split; [|split; [|split; [|reflexivity]]].
  - unfold Zlen. rewrite mant_digits_length. cbn [List.length]. lia.
  - apply mant_digits_are_digits. constructor.
  - unfold decode.
    assert (Hdrop : 0 <= Full.mant_drop (Z.to_nat (total - n)) want_round m
                    /\ Full.mant_drop (Z.to_nat (total - n)) want_round m
                       = if want_round && (n <? total)
                         then (m / 10 ^ (total - n - 1) + 5) / 10
                         else m / 10 ^ Z.max 0 (total - n)).
    { destruct (Z.ltb_spec n total) as [Hlt|Hge].
      - destruct want_round; cbn [andb].
        + replace (Z.to_nat (total - n)) with (Datatypes.S (Z.to_nat (total - n - 1))) by lia.
          rewrite mant_drop_round by exact Hm.
          rewrite Z2Nat.id by lia.
          assert (0 <= m / 10 ^ (total - n - 1)) by (apply Z.div_pos; lia).
          split; [apply Z.div_pos; lia|reflexivity].
        + rewrite mant_drop_plain by lia. rewrite Z2Nat.id by lia.
          replace (Z.max 0 (total - n)) with (total - n) by lia.
          split; [apply Z.div_pos; lia|reflexivity].
      - rewrite andb_false_r.
        replace (Z.to_nat (total - n)) with 0%nat by lia.
        replace (Z.max 0 (total - n)) with 0 by lia.
        cbn [Full.mant_drop]. change (10 ^ 0) with 1. rewrite Z.div_1_r. lia. }
    destruct Hdrop as [Hpos Heq]. rewrite <- Heq.
    rewrite mant_digits_decode by exact Hpos.
    cbn [fold_left]. rewrite Z2Nat.id by lia. reflexivity.
Qed.

Lemma X16_mant_to_char_digits_witness :
  exists buf,
    Full.mant_to_char unit 3141592653589793 16 3 true (mkMachine tt [] [] [])
    = Some (buf, mkMachine tt [] [] [])
    /\ Zlen buf = 3
    /\ Forall (fun c => ISDIGIT c = true) buf
    /\ decode 10 buf
       = (if true && (3 <? 16)
          then (3141592653589793 / 10 ^ (16 - 3 - 1) + 5) / 10
          else 3141592653589793 / 10 ^ Z.max 0 (16 - 3)) mod 10 ^ 3
    /\ Fp.mant_to_char unit 3141592653589793 16 3 (mkMachine tt [] [] [])
       = Full.mant_to_char unit 3141592653589793 16 3 false (mkMachine tt [] [] []).
Proof.
  apply (X16_mant_to_char_digits unit 3141592653589793 16 3 true (mkMachine tt [] [] [])).
  - lia.
  - unfold Full.DEC_SIG_FIG. lia.
Defined.

(** ** Infinities and NaNs *)




Section InfNan.

Variable S : Type.
Variable cons : S -> list ascii -> option S.



End InfNan.


(** * Further properties of the older tiers *)

(** ** The intermediate [format.c]: widths are read modulo 2^32 *)

Lemma mid_parse_number_digits ds : forall rest v,
  forallb ISDIGIT ds = true -> ISDIGIT (READ_CHAR rest) = false ->
  Mid.parse_number (ds ++ rest) v
  = (fold_left (fun v c => to_uint (v * 10 + code c - 48)) ds v, rest).
Proof.
  induction ds as [|c ds IH]; intros rest v Hds Hrest.
  - cbn [app fold_left]. destruct rest as [|c rest]; [reflexivity|].
    cbn [Mid.parse_number]. cbn [READ_CHAR hd] in Hrest. rewrite Hrest.
    now rewrite andb_false_r.
  - cbn [forallb] in Hds. apply andb_prop in Hds as [Hc Hds].
    cbn [app Mid.parse_number fold_left]. rewrite Hc.
    destruct (digit_code c Hc) as [_ ->]. cbn [negb andb]. now apply IH.
Qed.

Lemma wrapped_decimal ds : forall v,
  fold_left (fun v c => to_uint (v * 10 + code c - 48)) ds (to_uint v)
  = to_uint (fold_left (fun v c => v * 10 + (code c - 48)) ds v).
Proof.
  induction ds as [|c ds IH]; intros v; cbn [fold_left].
  - reflexivity.
  - rewrite <- IH. f_equal. unfold to_uint, wrapu.
    replace (v mod 2 ^ 32 * 10 + code c - 48) with (code c - 48 + v mod 2 ^ 32 * 10) by lia.
    replace (v * 10 + (code c - 48)) with (code c - 48 + v * 10) by lia.
    rewrite <- Z.add_mod_idemp_r, Z.mul_mod_idemp_l by lia.
    rewrite Z.add_mod_idemp_r by lia. reflexivity.
Qed.

Lemma wrapped_decimal_0 ds :
  fold_left (fun v c => to_uint (v * 10 + code c - 48)) ds 0 = to_uint (decimal ds).
Proof. unfold decimal. rewrite <- wrapped_decimal. reflexivity. Qed.

Section MidWidth.

Variable S : Type.
Variable cons : S -> list ascii -> option S.

Lemma mid_format_loop_percent fuel n ptr (m : machine S) :
  Mid.format_loop S cons (Datatypes.S fuel) n ("%"%char :: ptr) m
  = bind (Mid.parse_spec S n ptr)
         (fun p => match p with
                   | Mid.PBad => ret EXBADFORMAT
                   | Mid.PContinue =>
                       t <- va_str ;;
                       match t with
                       | Some ptr' => Mid.format_loop S cons fuel n ptr'
                       | None => undef
                       end
                   | Mid.PConv spec convspec vs =>
                       nn <- Mid.do_conv S cons spec convspec ;;
                       if nn <? 0 then ret EXBADFORMAT
                       else Mid.format_loop S cons fuel
                              (to_uint (n + to_uint nn)) (INC_VOID_PTR vs)
                   end) m.
Proof. reflexivity. Qed.

Lemma mid_parse_spec_modulo n d ds d' ds' rest (m : machine S) :
  is_nonzero_digit d = true -> forallb ISDIGIT ds = true ->
  is_nonzero_digit d' = true -> forallb ISDIGIT ds' = true ->
  ISDIGIT (READ_CHAR rest) = false ->
  decimal (d :: ds) mod 2 ^ 32 = decimal (d' :: ds') mod 2 ^ 32 ->
  Mid.parse_spec S n (d :: ds ++ rest) m = Mid.parse_spec S n (d' :: ds' ++ rest) m.
Proof.
  intros Hd Hds Hd' Hds' Hrest Heq. unfold Mid.parse_spec.
  rewrite !full_parse_flags_digit by assumption.
  rewrite !digit_not_star by now apply nonzero_digit_is_digit.
  change (d :: ds ++ rest) with ((d :: ds) ++ rest).
  change (d' :: ds' ++ rest) with ((d' :: ds') ++ rest).
  rewrite !mid_parse_number_digits
    by (try assumption; cbn [forallb]; rewrite ?Hds, ?Hds';
        rewrite nonzero_digit_is_digit by assumption; reflexivity).
  rewrite !wrapped_decimal_0. unfold to_uint, wrapu. rewrite Heq. reflexivity.
Qed.

Lemma mid_format_loop_step fuel nChars ptr :
  Mid.format_loop S cons (Datatypes.S fuel) nChars ptr
  = if is_nul (READ_CHAR ptr) then ret (to_int nChars)
    else
      let '(lit, s) := Full.scan_literal ptr in
      let n := to_uint (Zlen lit) in
      Full.orbad S (if n >? 0 then Full.emit S cons (Some ptr) n else ret 0)
        (let nChars := if n >? 0 then to_uint (nChars + n) else nChars in
         let ptr := s in
         if negb (is_nul (READ_CHAR ptr)) then
           p <- Mid.parse_spec S nChars (INC_VOID_PTR ptr) ;;
           match p with
           | Mid.PBad => ret EXBADFORMAT
           | Mid.PContinue =>
               t <- va_str ;;
               match t with
               | Some ptr' => Mid.format_loop S cons fuel nChars ptr'
               | None => undef
               end
           | Mid.PConv spec convspec vs =>
               nn <- Mid.do_conv S cons spec convspec ;;
               if nn <? 0 then ret EXBADFORMAT
               else Mid.format_loop S cons fuel (to_uint (nChars + to_uint nn))
                      (INC_VOID_PTR vs)
           end
         else Mid.format_loop S cons fuel nChars ptr).
Proof. reflexivity. Qed.

(** The scan loop does not depend on the bound on its iterations once the
    bound is large enough. *)
Lemma mid_format_loop_more_fuel fuel : forall fuel' nChars ptr (m : machine S) x,
  (fuel <= fuel')%nat ->
  Mid.format_loop S cons fuel nChars ptr m = Some x ->
  Mid.format_loop S cons fuel' nChars ptr m = Some x.
Proof.
  induction fuel as [|fuel IH]; intros fuel' nChars ptr m x Hle H; [discriminate H|].
  destruct fuel' as [|fuel']; [lia|].
  rewrite mid_format_loop_step in *.
  destruct (is_nul (READ_CHAR ptr)); [exact H|].
  destruct (Full.scan_literal ptr) as [lit s]. cbv zeta in *.
  unfold Full.orbad, bind in *.
  step_both H. destruct (z <? 0); [exact H|].
  destruct (negb (is_nul (READ_CHAR s))); [|apply IH; [lia|exact H]].
  cbv beta in *. step_both H.
  destruct p as [| |spec convspec ptr']; [exact H| |]; cbv beta in *.
  - step_both H. destruct o as [t|]; [|exact H]. apply IH; [lia|exact H].
  - step_both H. destruct (z0 <? 0); [exact H|]. apply IH; [lia|exact H].
Qed.

(** X18: the intermediate [format.c] reads a width into an [unsigned int]
    without a bound, so it is taken modulo 2^32: two widths that differ by a
    multiple of 2^32 give the same conversion specification, and what the
    call does with the shorter of two such templates it does with the
    longer one.  A width of 2^32 + 5 is accepted as 5 although it is far
    above MAXWIDTH. *)
Theorem X18_mid_width_modulo (parg : S) (d d' : ascii) (ds ds' rest : cstr)
        (args : list arg) :
  is_nonzero_digit d = true -> forallb ISDIGIT ds = true ->
  is_nonzero_digit d' = true -> forallb ISDIGIT ds' = true ->
  ISDIGIT (READ_CHAR rest) = false ->
  decimal (d :: ds) mod 2 ^ 32 = decimal (d' :: ds') mod 2 ^ 32 ->
  (forall n (m : machine S),
      Mid.parse_spec S n (d :: ds ++ rest) m = Mid.parse_spec S n (d' :: ds' ++ rest) m)
  /\ ((List.length ds' <= List.length ds)%nat ->
      forall x,
        Mid.format S cons parg (Some ("%"%char :: d' :: ds' ++ rest)) args = Some x ->
        Mid.format S cons parg (Some ("%"%char :: d :: ds ++ rest)) args = Some x).
Proof.
  intros Hd Hds Hd' Hds' Hrest Heq. split.
  - intros n m. now apply mid_parse_spec_modulo.
  - intros Hlen x H. unfold Mid.format, Full.format_fuel in *.
    eapply (mid_format_loop_more_fuel _ (Datatypes.S (List.length ("%"%char :: d :: ds ++ rest)
                                          + list_sum (map Full.arg_weight args)))) in H.
    + rewrite mid_format_loop_percent in *. unfold bind at 1 in H. unfold bind at 1.
      rewrite (mid_parse_spec_modulo 0 d ds d' ds' rest) by assumption. exact H.
    + cbn [List.length]. rewrite !length_app. lia.
Qed.

End MidWidth.

Lemma X18_mid_width_modulo_witness :
  (forall n (m : machine (list ascii)),
      Mid.parse_spec (list ascii) n ("4"%char :: str "294967301" ++ str "d") m
      = Mid.parse_spec (list ascii) n ("5"%char :: (@nil ascii) ++ str "d") m)
  /\ ((List.length (@nil ascii) <= List.length (str "294967301"))%nat ->
      forall x,
        Mid.format (list ascii) Full.bufwrite []
          (Some ("%"%char :: "5"%char :: (@nil ascii) ++ str "d")) [AInt 7] = Some x ->
        Mid.format (list ascii) Full.bufwrite []
          (Some ("%"%char :: "4"%char :: str "294967301" ++ str "d")) [AInt 7] = Some x).
Proof.
  apply (X18_mid_width_modulo (list ascii) Full.bufwrite [] "4"%char "5"%char
           (str "294967301") [] (str "d") [AInt 7]).
  - reflexivity.
  - reflexivity.
  - reflexivity.
  - reflexivity.
  - reflexivity.
  - vm_compute. reflexivity.
Defined.

(** ** The micro tier: one character at a time, and none after a failure *)

Lemma singles_ret {S A} (a : A) : singles (ret (S := S) a).
Proof.
  intros m b m' H. apply ret_inv in H as [_ ->]. exists []. cbn. now rewrite app_nil_r.
Qed.

Lemma singles_still {S A} (c : M S A) : still c -> singles c.
Proof.
  intros Hc m a m' H. apply Hc in H as [Hs _]. exists []. cbn. now rewrite app_nil_r.
Qed.

Lemma singles_bind {S A B} (c : M S A) (k : A -> M S B) :
  singles c -> (forall a, singles (k a)) -> singles (bind c k).
Proof.
  intros Hc Hk m b m' H. run_bind H.
  apply Hc in E as [cs1 E1]. apply Hk in H as [cs2 E2].
  exists (cs1 ++ cs2). rewrite E2, E1, map_app, app_assoc. reflexivity.
Qed.

Section MicroFailure.

Variable S : Type.
Variable format_putchar : S -> ascii -> option S.

Let cons := char_sink format_putchar.

Lemma micro_putc_runs c (m m' : machine S) ok :
  Micro.putc S format_putchar c m = Some (ok, m') ->
  sent m' = sent m ++ [[c]]
  /\ (if ok then cons (sink m) [c] = Some (sink m')
      else cons (sink m) [c] = None).
Proof.
  unfold Micro.putc, cons, char_sink. intros H.
  destruct (format_putchar (sink m) c) as [s'|] eqn:E; inversion H; subst; cbn; auto.
Qed.

Lemma micro_singles_putc c : singles (Micro.putc S format_putchar c).
Proof.
  intros m ok m' H. apply micro_putc_runs in H as [Hs _]. exists [c]. exact Hs.
Qed.

Lemma micro_sof_emit_loop n : forall s c,
  sends_or_fails cons (Micro.emit_loop S format_putchar n s c).
Proof.
  induction n as [|n IH]; intros s c m r m' H; cbn [Micro.emit_loop] in H.
  - apply ret_inv in H as [-> ->]. left. split; [lia|apply threads_refl].
  - run_bind H. apply micro_putc_runs in E as [Hs Hc]. destruct b.
    + apply IH in H as [[Hr Ht]|[Hr Hf]]; [left|right]; (split; [exact Hr|]).
      * eapply threads_trans; [|exact Ht]. eexists. split; [exact Hs|]. cbn [replay]. now rewrite Hc.
      * eapply threads_fails; [|exact Hf]. eexists. split; [exact Hs|]. cbn [replay]. now rewrite Hc.
    + apply ret_inv in H as [-> ->]. right. split; [reflexivity|].
      eexists [], _, (sink m). split; [exact Hs|]. split; [reflexivity|exact Hc].
Qed.

Lemma micro_bad_emit_loop n : forall s c (m m' : machine S) r,
  Micro.emit_loop S format_putchar n s c m = Some (r, m') -> r < 0 -> r = EXBADFORMAT.
Proof.
  induction n as [|n IH]; intros s c m m' r H Hr; cbn [Micro.emit_loop] in H.
  - apply ret_inv in H as [-> _]. lia.
  - run_bind H. destruct b; [eapply IH; eassumption|].
    apply ret_inv in H as [-> _]. reflexivity.
Qed.

Lemma micro_singles_emit_loop n : forall s c,
  singles (Micro.emit_loop S format_putchar n s c).
Proof.
  induction n as [|n IH]; intros s c; cbn [Micro.emit_loop]; [apply singles_ret|].
  apply singles_bind; [apply micro_singles_putc|]. intros [|]; [apply IH|apply singles_ret].
Qed.

Lemma micro_sof_emit s c n : sends_or_fails cons (Micro.emit S format_putchar s c n).
Proof. apply micro_sof_emit_loop. Qed.

Lemma micro_saf_emit s c n : stops_at_failure cons (Micro.emit S format_putchar s c n).
Proof.
  intros m r m' H. pose proof (micro_bad_emit_loop _ _ _ _ _ _ H) as Hbad.
  apply micro_sof_emit in H as [[_ Ht]|[Hr Hf]]; [left; exact Ht|].
  right. split; [apply Hbad; exact Hr|exact Hf].
Qed.

Lemma micro_singles_emit s c n : singles (Micro.emit S format_putchar s c n).
Proof. apply micro_singles_emit_loop. Qed.

Lemma micro_saf_orbad c k :
  sends_or_fails cons c -> stops_at_failure cons k ->
  stops_at_failure cons (Micro.orbad S c k).
Proof.
  intros Hc Hk m r m' H. unfold Micro.orbad in H. run_bind H.
  apply Hc in E as [[Hz Ht]|[Hz Hf]].
  - destruct (Z.ltb_spec z 0); [lia|].
    apply Hk in H as [?|[? ?]]; [left|right; split; [assumption|]].
    + eapply threads_trans; eassumption.
    + eapply threads_fails; eassumption.
  - destruct (Z.ltb_spec z 0); [|lia].
    apply ret_inv in H as [-> ->]. right. split; [reflexivity|assumption].
Qed.

Lemma micro_singles_orbad c k :
  singles c -> singles k -> singles (Micro.orbad S c k).
Proof.
  intros Hc Hk. unfold Micro.orbad. apply singles_bind; [exact Hc|].
  intros r. destruct (r <? 0); [apply singles_ret|exact Hk].
Qed.

Lemma micro_saf_ret r : stops_at_failure cons (ret (S := S) r).
Proof. intros m x m' H. apply ret_inv in H as [-> ->]. left. apply threads_refl. Qed.

Lemma micro_saf_bind_still {A} (c : M S A) (k : A -> M S Z) :
  still c -> (forall a, stops_at_failure cons (k a)) ->
  stops_at_failure cons (bind c k).
Proof.
  intros Hc Hk m r m' H. run_bind H. apply Hc in E as [Es Ek].
  pose proof (still_threads cons m m0 Es Ek) as Ht.
  apply Hk in H as [?|[? ?]]; [left|right; split; [assumption|]].
  - eapply threads_trans; eassumption.
  - eapply threads_fails; eassumption.
Qed.

Lemma micro_saf_gen_out ps1 pfx_c pfx_n pz e_s e_n ps2 :
  stops_at_failure cons (Micro.gen_out S format_putchar ps1 pfx_c pfx_n pz e_s e_n ps2).
Proof.
  unfold Micro.gen_out.
  repeat (apply micro_saf_orbad; [apply micro_sof_emit|]). apply micro_saf_ret.
Qed.

Lemma micro_singles_gen_out ps1 pfx_c pfx_n pz e_s e_n ps2 :
  singles (Micro.gen_out S format_putchar ps1 pfx_c pfx_n pz e_s e_n ps2).
Proof.
  unfold Micro.gen_out.
  repeat (apply micro_singles_orbad; [apply micro_singles_emit|]). apply singles_ret.
Qed.

Lemma micro_saf_do_conv_s pspec :
  stops_at_failure cons (Micro.do_conv_s S format_putchar pspec).
Proof.
  unfold Micro.do_conv_s. apply micro_saf_bind_still; [apply still_va_str|].
  intros [s|]; [|apply micro_saf_emit].
  destruct (Micro.calc_space_padding _ _) as [ps1 ps2].
  repeat (apply micro_saf_orbad; [apply micro_sof_emit|]). apply micro_saf_ret.
Qed.

Lemma micro_singles_do_conv_s pspec :
  singles (Micro.do_conv_s S format_putchar pspec).
Proof.
  unfold Micro.do_conv_s. apply singles_bind; [apply singles_still, still_va_str|].
  intros [s|]; [|apply micro_singles_emit].
  destruct (Micro.calc_space_padding _ _) as [ps1 ps2].
  repeat (apply micro_singles_orbad; [apply micro_singles_emit|]). apply singles_ret.
Qed.

Lemma micro_still_numeric_value pspec :
  still (if has (Micro.flags pspec) Micro.F_IS_SIGNED then
           a <- va_int ;;
           let v := to_short a in
           let uv := to_ushort (ABS v) in
           let pfx_c := if v <? 0 then "-"%char
                        else if has (Micro.flags pspec) Micro.FPLUS then "+"%char
                        else if has (Micro.flags pspec) Micro.FSPACE then " "%char
                        else NUL in
           if negb (is_nul pfx_c) then ret (S := S) (uv, 1, pfx_c, 1)
           else ret (uv, 0, pfx_c, 0)
         else
           a <- va_uint ;; ret (to_ushort a, 0, NUL, 0)).
Proof.
  destruct (has _ Micro.F_IS_SIGNED).
  - apply still_bind; [apply still_va_int|]. intros a. cbv zeta.
    destruct (negb _); apply still_ret.
  - apply still_bind; [apply still_va_uint|]. intros a. apply still_ret.
Qed.

Lemma micro_saf_do_conv_numeric pspec code base :
  stops_at_failure cons (Micro.do_conv_numeric S format_putchar pspec code base).
Proof.
  unfold Micro.do_conv_numeric.
  apply micro_saf_bind_still; [apply micro_still_numeric_value|].
  intros [[[uv length] pfx_c] pfx_n].
  destruct (Micro.calc_space_padding _ _) as [ps1 ps2]. apply micro_saf_gen_out.
Qed.

Lemma micro_singles_do_conv_numeric pspec code base :
  singles (Micro.do_conv_numeric S format_putchar pspec code base).
Proof.
  unfold Micro.do_conv_numeric.
  apply singles_bind; [apply singles_still, micro_still_numeric_value|].
  intros [[[uv length] pfx_c] pfx_n].
  destruct (Micro.calc_space_padding _ _) as [ps1 ps2]. apply micro_singles_gen_out.
Qed.

Lemma micro_saf_do_conv pspec code :
  stops_at_failure cons (Micro.do_conv S format_putchar pspec code).
Proof.
  unfold Micro.do_conv.
  destruct (Ascii.eqb code "%"); [apply micro_saf_emit|].
  destruct (Ascii.eqb code "c").
  { apply micro_saf_bind_still; [apply still_va_int|]. intros v. apply micro_saf_emit. }
  destruct (Ascii.eqb code "s"); [apply micro_saf_do_conv_s|].
  cbv zeta. destruct (_ >? 1); [apply micro_saf_do_conv_numeric|apply micro_saf_ret].
Qed.

Lemma micro_singles_do_conv pspec code :
  singles (Micro.do_conv S format_putchar pspec code).
Proof.
  unfold Micro.do_conv.
  destruct (Ascii.eqb code "%"); [apply micro_singles_emit|].
  destruct (Ascii.eqb code "c").
  { apply singles_bind; [apply singles_still, still_va_int|].
    intros v. apply micro_singles_emit. }
  destruct (Ascii.eqb code "s"); [apply micro_singles_do_conv_s|].
  cbv zeta. destruct (_ >? 1); [apply micro_singles_do_conv_numeric|apply singles_ret].
Qed.

Lemma micro_loop_step fuel nChars fmt :
  Micro.micro_loop S format_putchar (Datatypes.S fuel) nChars fmt
  = let c := READ_CHAR fmt in
    if is_nul c then ret (to_int nChars)
    else if Ascii.eqb c "%" then
      let fmt := INC_VOID_PTR fmt in
      let '(flags, fmt) := Micro.parse_flags fmt 0 in
      let '(width, fmt) := Micro.parse_number to_uchar Micro.MAXWIDTH fmt 0 in
      if width >? Micro.MAXWIDTH then ret EXBADFORMAT
      else
        let '(prec, fmt) :=
          if Ascii.eqb (READ_CHAR fmt) "."
          then Micro.parse_number to_schar Micro.MAXPREC (INC_VOID_PTR fmt) 0
          else (-1, fmt) in
        if prec >? Micro.MAXPREC then ret EXBADFORMAT
        else
          nn <- Micro.do_conv S format_putchar (Micro.mkSpec flags width prec)
                  (READ_CHAR fmt) ;;
          if nn <? 0 then ret EXBADFORMAT
          else Micro.micro_loop S format_putchar fuel (to_uint (nChars + to_uint nn))
                 (INC_VOID_PTR fmt)
    else
      ok <- Micro.putc S format_putchar c ;;
      if ok then Micro.micro_loop S format_putchar fuel (to_uint (nChars + 1))
                   (INC_VOID_PTR fmt)
      else ret EXBADFORMAT.
Proof. reflexivity. Qed.

Lemma micro_saf_loop fuel : forall nChars fmt,
  stops_at_failure cons (Micro.micro_loop S format_putchar fuel nChars fmt).
Proof.
  induction fuel as [|fuel IH]; intros nChars fmt; [intros m x m' H; discriminate H|].
  rewrite micro_loop_step. cbv zeta.
  destruct (is_nul (READ_CHAR fmt)); [apply micro_saf_ret|].
  destruct (Ascii.eqb (READ_CHAR fmt) "%").
  - destruct (Micro.parse_flags _ _) as [flags f1].
    destruct (Micro.parse_number to_uchar _ _ _) as [width f2].
    destruct (width >? Micro.MAXWIDTH); [apply micro_saf_ret|].
    destruct (if Ascii.eqb (READ_CHAR f2) "." then _ else _) as [prec f3].
    destruct (prec >? Micro.MAXPREC); [apply micro_saf_ret|].
    intros m r m' H. run_bind H. apply micro_saf_do_conv in E.
    destruct (Z.ltb_spec z 0) as [Hneg|Hpos].
    + apply ret_inv in H as [-> ->].
      destruct E as [Ht|[_ Hf]]; [left; exact Ht|right; split; [reflexivity|exact Hf]].
    + destruct E as [Ht|[Hz _]]; [|unfold EXBADFORMAT in Hz; lia].
      apply IH in H as [?|[? ?]]; [left|right; split; [assumption|]].
      * eapply threads_trans; eassumption.
      * eapply threads_fails; eassumption.
  - intros m r m' H. run_bind H. apply micro_putc_runs in E as [Hs Hc]. destruct b.
    + assert (Ht : threads cons m m0).
      { eexists. split; [exact Hs|]. cbn [replay]. now rewrite Hc. }
      apply IH in H as [?|[? ?]]; [left|right; split; [assumption|]].
      * eapply threads_trans; eassumption.
      * eapply threads_fails; eassumption.
    + apply ret_inv in H as [-> ->]. right. split; [reflexivity|].
      eexists [], _, (sink m). split; [exact Hs|]. split; [reflexivity|exact Hc].
Qed.

Lemma micro_singles_loop fuel : forall nChars fmt,
  singles (Micro.micro_loop S format_putchar fuel nChars fmt).
Proof.
  induction fuel as [|fuel IH]; intros nChars fmt; [intros m x m' H; discriminate H|].
  rewrite micro_loop_step. cbv zeta.
  destruct (is_nul (READ_CHAR fmt)); [apply singles_ret|].
  destruct (Ascii.eqb (READ_CHAR fmt) "%").
  - destruct (Micro.parse_flags _ _) as [flags f1].
    destruct (Micro.parse_number to_uchar _ _ _) as [width f2].
    destruct (width >? Micro.MAXWIDTH); [apply singles_ret|].
    destruct (if Ascii.eqb (READ_CHAR f2) "." then _ else _) as [prec f3].
    destruct (prec >? Micro.MAXPREC); [apply singles_ret|].
    apply singles_bind; [apply micro_singles_do_conv|].
    intros nn. destruct (nn <? 0); [apply singles_ret|apply IH].
  - apply singles_bind; [apply micro_singles_putc|].
    intros [|]; [apply IH|apply singles_ret].
Qed.

(** X19: [microformat] hands its output to [format_putchar] one character
    at a time and stops at the first call that fails, returning
    EXBADFORMAT: when it returns, either every call has succeeded, each one
    on the state the one before had left, or the result is EXBADFORMAT and
    the last call is the only one that failed.  A result that is not
    negative means that every character was taken. *)
Theorem X19_micro_stops_at_failure (parg : S) (fmt : option cstr) (args : list arg)
        (n : Z) (m : machine S) :
  Micro.microformat S format_putchar parg fmt args = Some (n, m) ->
  (exists cs, sent m = map (fun ch => [ch]) cs)
  /\ (replay (char_sink format_putchar) (sent m) parg = Some (sink m)
      \/ (n = EXBADFORMAT
          /\ exists cs c s,
               sent m = map (fun ch => [ch]) cs ++ [[c]]
               /\ replay (char_sink format_putchar) (map (fun ch => [ch]) cs) parg = Some s
               /\ format_putchar s c = None))
  /\ (0 <= n -> replay (char_sink format_putchar) (sent m) parg = Some (sink m)).
Proof.
  intros H. unfold Micro.microformat in H. destruct fmt as [fmt|].
  - pose proof (micro_singles_loop _ _ _ _ _ _ H) as [cs Hcs]. cbn [sent app] in Hcs.
    assert (Hmain : replay cons (sent m) parg = Some (sink m)
                    \/ (n = EXBADFORMAT
                        /\ exists cs c s,
                             sent m = map (fun ch => [ch]) cs ++ [[c]]
                             /\ replay cons (map (fun ch => [ch]) cs) parg = Some s
                             /\ format_putchar s c = None)).
    { apply micro_saf_loop in H as [(runs & Hs & Hr)|[Hn (runs & last & s & Hs & Hr & Hl)]];
        cbn [sent sink app] in *.
      - left. rewrite Hs. exact Hr.
      - right. split; [exact Hn|].
        rewrite Hs in Hcs.
        assert (Hsplit : exists cs' c, cs = cs' ++ [c]).
        { destruct cs as [|c0 cs0] using rev_ind.
          - destruct runs; discriminate Hcs.
          - eauto. }
        destruct Hsplit as (cs' & c & ->).
        rewrite map_app in Hcs. cbn [map] in Hcs.
        apply app_inj_tail in Hcs as [-> ->].
        exists cs', c, s. split; [exact Hs|]. split; [exact Hr|exact Hl]. }
    split; [exists cs; exact Hcs|]. split; [exact Hmain|].
    intros Hn. destruct Hmain as [?|[-> _]]; [assumption|unfold EXBADFORMAT in Hn; lia].
  - inversion H; subst. cbn. split; [exists []; reflexivity|].
    split; [left; reflexivity|intros; reflexivity].
Qed.

End MicroFailure.

Lemma X19_micro_stops_at_failure_witness :
  (exists cs, sent (mkMachine (str "a7") [str "a"; str "7"] (@nil arg) [])
              = map (fun ch => [ch]) cs)
  /\ (replay (char_sink Micro.buf_putchar)
        (sent (mkMachine (str "a7") [str "a"; str "7"] (@nil arg) [])) []
      = Some (sink (mkMachine (str "a7") [str "a"; str "7"] (@nil arg) []))
      \/ (2 = EXBADFORMAT
          /\ exists cs c s,
               sent (mkMachine (str "a7") [str "a"; str "7"] (@nil arg) [])
               = map (fun ch => [ch]) cs ++ [[c]]
               /\ replay (char_sink Micro.buf_putchar) (map (fun ch => [ch]) cs) [] = Some s
               /\ Micro.buf_putchar s c = None))
  /\ (0 <= 2 -> replay (char_sink Micro.buf_putchar)
                  (sent (mkMachine (str "a7") [str "a"; str "7"] (@nil arg) [])) []
                = Some (sink (mkMachine (str "a7") [str "a"; str "7"] (@nil arg) []))).
Proof.
  apply (X19_micro_stops_at_failure (list ascii) Micro.buf_putchar [] (Some (str "a%d"))
           [AInt 7] 2 (mkMachine (str "a7") [str "a"; str "7"] [] [])).
  vm_compute. reflexivity.
Defined.

(** ** The first [format.c]: the count of a zero-padded negative number *)


Section LegacyCount.

Variable S : Type.
Variable cons : S -> list ascii -> option S.






End LegacyCount.


(** ** The tiny tier: numbers are sixteen bits wide *)



Section BoundedDigits.

Variable base bound : Z.
Variable digit : Z -> ascii.
Variable next : Z -> Z.
Hypothesis Hbase : 2 <= base.
Hypothesis Hdigit : forall u, 0 < u < bound -> digit_value (digit u) = u mod base.
Hypothesis Hnext : forall u, 0 < u < bound -> next u = u / base.


End BoundedDigits.




Section TinyOutput.

Variable S : Type.
Variable cons : S -> list ascii -> option S.









End TinyOutput.


(** ** The tiny tier: the width is kept in eight bits *)

Lemma tiny_parse_flags_digit c rest f :
  is_nonzero_digit c = true -> Tiny.parse_flags (c :: rest) f = (f, c :: rest).
Proof. intros H. by_digit c H. Qed.

Lemma tiny_parse_number_step narrow limit c rest v :
  ISDIGIT c = true -> v < limit ->
  Tiny.parse_number narrow limit (c :: rest) v
  = Tiny.parse_number narrow limit rest (narrow (v * 10 + code c - 48)).
Proof.
  intros Hc Hv. cbn [Tiny.parse_number]. rewrite Hc.
  destruct (digit_code c Hc) as [_ ->].
  destruct (Z.ltb_spec v limit); [reflexivity|lia].
Qed.

Lemma tiny_parse_number_stop narrow limit rest v :
  ISDIGIT (READ_CHAR rest) = false \/ limit <= v ->
  Tiny.parse_number narrow limit rest v = (v, rest).
Proof.
  intros H. destruct rest as [|c rest]; [reflexivity|].
  cbn [Tiny.parse_number]. cbn [READ_CHAR hd] in H.
  destruct H as [-> | H]; [now rewrite andb_false_r|].
  destruct (Z.ltb_spec v limit); [lia|]. now rewrite andb_false_r.
Qed.

(** A width of three digits whose first two are worth less than MAXWIDTH is
    read to its end, modulo 256. *)
Lemma tiny_parse_width_three a b c rest :
  is_nonzero_digit a = true -> ISDIGIT b = true -> ISDIGIT c = true ->
  decimal [a; b] < Tiny.MAXWIDTH ->
  ISDIGIT (READ_CHAR rest) = false ->
  Tiny.parse_number to_uchar Tiny.MAXWIDTH (a :: b :: c :: rest) 0
  = (decimal [a; b; c] mod 256, rest).
Proof.
  intros Ha Hb Hc Hab Hrest. unfold Tiny.MAXWIDTH in *.
  pose proof (nonzero_digit_is_digit a Ha) as Ha'.
  destruct (digit_code a Ha') as [Ra _]. destruct (digit_code b Hb) as [Rb _].
  destruct (digit_code c Hc) as [Rc _].
  unfold decimal in *. cbn [fold_left] in *.
  rewrite tiny_parse_number_step by (assumption || lia).
  assert (H1 : to_uchar (0 * 10 + code a - 48) = code a - 48).
  { unfold to_uchar. apply wrapu_small. change (2 ^ 8) with 256. lia. }
  rewrite H1. rewrite tiny_parse_number_step by (assumption || lia).
  assert (H2 : to_uchar ((code a - 48) * 10 + code b - 48)
               = (code a - 48) * 10 + code b - 48).
  { unfold to_uchar. apply wrapu_small. change (2 ^ 8) with 256. lia. }
  rewrite H2. rewrite tiny_parse_number_step by (assumption || lia).
  rewrite tiny_parse_number_stop by (left; assumption).
  f_equal; unfold to_uchar, wrapu; change (2 ^ 8) with 256; f_equal; lia.
Qed.

(** A width below 256 written without a leading zero is read as it is. *)
Lemma tiny_parse_width_small d ds rest :
  is_nonzero_digit d = true -> forallb ISDIGIT ds = true ->
  (List.length ds <= 2)%nat -> decimal (d :: ds) < 256 ->
  ISDIGIT (READ_CHAR rest) = false ->
  Tiny.parse_number to_uchar Tiny.MAXWIDTH (d :: ds ++ rest) 0
  = (decimal (d :: ds), rest).
Proof.
  intros Hd Hds Hlen Hval Hrest. unfold Tiny.MAXWIDTH in *.
  pose proof (nonzero_digit_is_digit d Hd) as Hd'.
  destruct (digit_code d Hd') as [Rd _].
  assert (H1 : to_uchar (0 * 10 + code d - 48) = code d - 48).
  { unfold to_uchar. apply wrapu_small. change (2 ^ 8) with 256. lia. }
  rewrite tiny_parse_number_step by (assumption || lia). rewrite H1.
  destruct ds as [|e ds]; [|destruct ds as [|f ds]; [|destruct ds as [|g ds]]];
    cbn [List.length] in Hlen; try lia; cbn [forallb] in Hds; cbn [app];
    unfold decimal in *; cbn [fold_left] in *.
  - rewrite tiny_parse_number_stop by (left; assumption). f_equal; lia.
  - apply andb_prop in Hds as [He _]. destruct (digit_code e He) as [Re _].
    rewrite tiny_parse_number_step by (assumption || lia).
    assert (H2 : to_uchar ((code d - 48) * 10 + code e - 48)
                 = (code d - 48) * 10 + code e - 48).
    { unfold to_uchar. apply wrapu_small. change (2 ^ 8) with 256. lia. }
    rewrite H2. rewrite tiny_parse_number_stop by (left; assumption). f_equal; lia.
  - apply andb_prop in Hds as [He Hds]. apply andb_prop in Hds as [Hf _].
    destruct (digit_code e He) as [Re _]. destruct (digit_code f Hf) as [Rf _].
    rewrite tiny_parse_number_step by (assumption || lia).
    assert (H2 : to_uchar ((code d - 48) * 10 + code e - 48)
                 = (code d - 48) * 10 + code e - 48).
    { unfold to_uchar. apply wrapu_small. change (2 ^ 8) with 256. lia. }
    rewrite H2. rewrite tiny_parse_number_step by (assumption || lia).
    assert (H3 : to_uchar (((code d - 48) * 10 + code e - 48) * 10 + code f - 48)
                 = ((code d - 48) * 10 + code e - 48) * 10 + code f - 48).
    { unfold to_uchar. apply wrapu_small. change (2 ^ 8) with 256. lia. }
    rewrite H3. rewrite tiny_parse_number_stop by (left; assumption). f_equal; lia.
Qed.

Section TinyWidth.

Variable S : Type.
Variable cons : S -> list ascii -> option S.

Lemma tiny_format_loop_step fuel nChars fmt :
  Tiny.format_loop S cons (Datatypes.S fuel) nChars fmt
  = if is_nul (READ_CHAR fmt) then ret (to_int nChars)
    else
      let '(lit, s) := Tiny.scan_literal fmt in
      let n := Zlen lit in
      Tiny.orbad S (Tiny.emit S cons fmt n)
        (let nChars := to_uint (nChars + n) in
         let fmt := s in
         if negb (is_nul (READ_CHAR fmt)) then
           let fmt := INC_VOID_PTR fmt in
           let '(flags, fmt) := Tiny.parse_flags fmt 0 in
           let '(width, fmt) := Tiny.parse_number to_uchar Tiny.MAXWIDTH fmt 0 in
           if width >? Tiny.MAXWIDTH then ret EXBADFORMAT
           else
             let '(prec, fmt) :=
               if negb (Ascii.eqb (READ_CHAR fmt) ".") then (-1, fmt)
               else Tiny.parse_number to_schar Tiny.MAXPREC (INC_VOID_PTR fmt) 0 in
             if prec >? Tiny.MAXPREC then ret EXBADFORMAT
             else
               let c := READ_CHAR fmt in
               if is_nul c then
                 t <- va_str ;;
                 match t with
                 | Some fmt' => Tiny.format_loop S cons fuel nChars fmt'
                 | None => undef
                 end
               else
                 nn <- Tiny.do_conv S cons (Tiny.mkSpec nChars flags width prec) c ;;
                 if nn <? 0 then ret EXBADFORMAT
                 else Tiny.format_loop S cons fuel (to_uint (nChars + to_uint nn))
                        (INC_VOID_PTR fmt)
         else Tiny.format_loop S cons fuel nChars fmt).
Proof. reflexivity. Qed.

(** The scan loop does not depend on the bound on its iterations once the
    bound is large enough. *)
Lemma tiny_format_loop_more_fuel fuel : forall fuel' nChars fmt (m : machine S) x,
  (fuel <= fuel')%nat ->
  Tiny.format_loop S cons fuel nChars fmt m = Some x ->
  Tiny.format_loop S cons fuel' nChars fmt m = Some x.
Proof.
  induction fuel as [|fuel IH]; intros fuel' nChars fmt m x Hle H; [discriminate H|].
  destruct fuel' as [|fuel']; [lia|].
  rewrite tiny_format_loop_step in *.
  destruct (is_nul (READ_CHAR fmt)); [exact H|].
  destruct (Tiny.scan_literal fmt) as [lit s]. cbv zeta in *.
  unfold Tiny.orbad, bind in *.
  step_both H. destruct (z <? 0); [exact H|].
  destruct (negb (is_nul (READ_CHAR s))); [|apply IH; [lia|exact H]].
  destruct (Tiny.parse_flags (INC_VOID_PTR s) 0) as [flags f1].
  destruct (Tiny.parse_number to_uchar Tiny.MAXWIDTH f1 0) as [width f2].
  destruct (width >? Tiny.MAXWIDTH); [exact H|].
  destruct (if negb (Ascii.eqb (READ_CHAR f2) ".") then _ else _) as [prec f3].
  destruct (prec >? Tiny.MAXPREC); [exact H|].
  destruct (is_nul (READ_CHAR f3)).
  - step_both H. destruct o as [t|]; [|exact H]. apply IH; [lia|exact H].
  - step_both H. destruct (z0 <? 0); [exact H|]. apply IH; [lia|exact H].
Qed.

Lemma tiny_format_loop_percent fuel fmt (m : machine S) :
  Tiny.format_loop S cons (Datatypes.S fuel) 0 ("%"%char :: fmt) m
  = (let '(flags, fmt) := Tiny.parse_flags fmt 0 in
     let '(width, fmt) := Tiny.parse_number to_uchar Tiny.MAXWIDTH fmt 0 in
     if width >? Tiny.MAXWIDTH then ret EXBADFORMAT
     else
       let '(prec, fmt) :=
         if negb (Ascii.eqb (READ_CHAR fmt) ".") then (-1, fmt)
         else Tiny.parse_number to_schar Tiny.MAXPREC (INC_VOID_PTR fmt) 0 in
       if prec >? Tiny.MAXPREC then ret EXBADFORMAT
       else
         let c := READ_CHAR fmt in
         if is_nul c then
           t <- va_str ;;
           match t with
           | Some fmt' => Tiny.format_loop S cons fuel 0 fmt'
           | None => undef
           end
         else
           nn <- Tiny.do_conv S cons (Tiny.mkSpec 0 flags width prec) c ;;
           if nn <? 0 then ret EXBADFORMAT
           else Tiny.format_loop S cons fuel (to_uint (0 + to_uint nn))
                  (INC_VOID_PTR fmt)) m.
Proof. reflexivity. Qed.

Lemma tiny_format_loop_width fuel w1 w2 rest (m : machine S) d1 d2 :
  is_nonzero_digit d1 = true -> is_nonzero_digit d2 = true ->
  forall v,
  Tiny.parse_number to_uchar Tiny.MAXWIDTH (d1 :: w1 ++ rest) 0 = (v, rest) ->
  Tiny.parse_number to_uchar Tiny.MAXWIDTH (d2 :: w2 ++ rest) 0 = (v, rest) ->
  Tiny.format_loop S cons (Datatypes.S fuel) 0 ("%"%char :: d1 :: w1 ++ rest) m
  = Tiny.format_loop S cons (Datatypes.S fuel) 0 ("%"%char :: d2 :: w2 ++ rest) m.
Proof.
  intros H1 H2 v P1 P2. rewrite !tiny_format_loop_percent.
  rewrite !tiny_parse_flags_digit by assumption.
  rewrite P1, P2. reflexivity.
Qed.

(** X22: [tinyformat.c] keeps the width in eight bits while it reads it, so
    a width of three digits is taken modulo 256: what a call does with a
    width [w] below 256 it does with every three-digit width that is [w]
    modulo 256 (its first two digits being below MAXWIDTH, so that the third
    one is read).  A width of 300 is not refused: it is the width 44. *)
Theorem X22_tiny_width_wraps (parg : S) (a b c d : ascii) (ds rest : cstr)
        (args : list arg) (x : Z * machine S) :
  is_nonzero_digit a = true -> ISDIGIT b = true -> ISDIGIT c = true ->
  decimal [a; b] < Tiny.MAXWIDTH ->
  is_nonzero_digit d = true -> forallb ISDIGIT ds = true -> (List.length ds <= 2)%nat ->
  decimal (d :: ds) = decimal [a; b; c] mod 256 ->
  ISDIGIT (READ_CHAR rest) = false ->
  Tiny.format S cons parg (Some ("%"%char :: d :: ds ++ rest)) args = Some x ->
  Tiny.format S cons parg (Some ("%"%char :: a :: b :: c :: rest)) args = Some x.
Proof.
  intros Ha Hb Hc Hab Hd Hds Hlen Heq Hrest H.
  unfold Tiny.format, Full.format_fuel in *.
  eapply (tiny_format_loop_more_fuel _
            (Datatypes.S (List.length ("%"%char :: a :: b :: c :: rest)
                          + list_sum (map Full.arg_weight args)))) in H.
  - rewrite <- H. symmetry.
    apply (tiny_format_loop_width _ ds [b; c] rest _ d a Hd Ha (decimal (d :: ds))).
    + apply tiny_parse_width_small; try assumption.
      rewrite Heq. apply Z.mod_pos_bound. lia.
    + cbn [app]. rewrite Heq. now apply tiny_parse_width_three.
  - cbn [List.length]. rewrite length_app. lia.
Qed.

End TinyWidth.

Lemma X22_tiny_width_wraps_witness :
  Tiny.format (list ascii) Full.bufwrite []
    (Some ("%"%char :: "3"%char :: "0"%char :: "0"%char :: str "d|")) [AInt 7]
  = Some (45, mkMachine (repeat " "%char 43 ++ str "7|")
                (repeat [" "%char] 43 ++ [str "7"; str "|"]) [] []).
Proof.
  apply (X22_tiny_width_wraps (list ascii) Full.bufwrite [] "3"%char "0"%char "0"%char
           "4"%char (str "4") (str "d|") [AInt 7]).
  - reflexivity.
  - reflexivity.
  - reflexivity.
  - vm_compute. reflexivity.
  - reflexivity.
  - reflexivity.
  - simpl; lia.
  - vm_compute. reflexivity.
  - reflexivity.
  - vm_compute. reflexivity.
Defined.

(** ** The width of a numeric field *)

Section NumericWidth.

Variable S : Type.
Variable cons : S -> list ascii -> option S.

(** The layout of a number at every width, from the layout at one: the
    fields differ in their padding only, and each is as wide as the width
    or as the number, whichever is larger. *)
Lemma numeric_layout_any_width n fl pr b q rc g code base (m m1 : machine S) w l :
  pr <= 500 -> 0 <= w <= 500 ->
  Full.numeric_layout S (Full.mkSpec n fl w pr b q rc g) code base m = Some (l, m1) ->
  exists natural,
    0 <= natural <= 1000
    /\ forall w', 0 <= w' <= 500 ->
         exists l',
           Full.numeric_layout S (Full.mkSpec n fl w' pr b q rc g) code base m
           = Some (l', m1)
           /\ field_count l' = Z.max w' natural.
Proof.
  intros Hpr Hw H. unfold Full.numeric_layout in H.
  run_bind_as H p mA E. destruct p as [[[uv p0] pw] f].
  pose proof E as Eq. apply numeric_value_quiet in Eq as [_ Hpw].
  pose proof (numeric_digits_length code base uv) as Hlen.
  set (buf := Full.numeric_digits code base uv) in *.
  cbn [Full.grouping Full.prec] in H.
  run_bind_as H st mB Eg.
  assert (Hm1 : m1 = mB).
  { cbv zeta in H. destruct (Full.calc_space_padding _ _) in H.
    apply ret_inv in H as [_ ->]. reflexivity. }
  subst m1. clear H.
  assert (Hg : grp_ok (Zlen buf) st).
  { assert (Hinit : forall glen, grp_ok (Zlen buf) (Full.mkGrp glen 0 NUL (Zlen buf) buf 0)).
    { intros glen. unfold grp_ok, is_int. cbn. lia. }
    destruct (negb _).
    - eapply group_loop_ok; [| |exact Eg]; [lia|apply Hinit].
    - apply ret_inv in Eg as [-> ->]. apply Hinit. }
  destruct Hg as (Hd & Hi & Hsum & Hbl & _).
  set (ins := Full.g_ins st) in *.
  set (pw' := if (Ascii.eqb code "x" || Ascii.eqb code "X" || Ascii.eqb code "b")
                 && (has f Full.FBANG || negb (uv =? 0))
              then 2
              else if Ascii.eqb code "o" && negb (uv =? 0) then 1 else pw) in *.
  assert (Hpw' : 0 <= pw' <= 2).
  { subst pw'. destruct (_ && (_ || _)); [lia|]. destruct (_ && _); lia. }
  set (prec1 := if pr <? 0 then 1 else pr) in *.
  assert (Hprec1 : 0 <= prec1 <= 500).
  { subst prec1. destruct (Z.ltb_spec pr 0); lia. }
  set (flags2 := if pr <? 0 then f else clear f Full.FZERO) in *.
  assert (Hdw : to_size_t (Zlen buf + ins) = Zlen buf + ins)
    by (apply to_size_t_small; lia).
  assert (Hpi : to_size_t (to_size_t prec1 + ins) = prec1 + ins).
  { rewrite (to_size_t_small prec1) by lia. apply to_size_t_small. lia. }
  set (numWidth := MAX (Zlen buf + ins) (prec1 + ins)).
  assert (HnumWidth : Zlen buf + ins <= numWidth <= 564 /\ prec1 + ins <= numWidth).
  { subst numWidth. unfold MAX. destruct (Z.gtb_spec (Zlen buf + ins) (prec1 + ins)); lia. }
  set (length0 := if has f Full.FHASH then pw' else 0).
  assert (Hlength0 : 0 <= length0 <= 2) by (subst length0; destruct (has f Full.FHASH); lia).
  exists (length0 + numWidth). split; [lia|].
  intros w' Hw'.
  unfold Full.numeric_layout. unfold bind at 1.
  change (Full.numeric_value S (Full.mkSpec n fl w' pr b q rc g))
    with (Full.numeric_value S (Full.mkSpec n fl w pr b q rc g)).
  rewrite E. cbv iota beta. cbn [Full.grouping Full.prec].
  fold buf. unfold bind at 1. rewrite Eg. cbv iota beta zeta.
  fold ins. rewrite Hdw. fold prec1. rewrite Hpi. fold numWidth.
  fold pw'. fold length0. fold flags2.
  rewrite (to_size_t_small (length0 + numWidth)) by lia.
  pose proof (calc_space_padding_total
                (Full.set_prec (Full.set_flags (Full.mkSpec n fl w' pr b q rc g) flags2) prec1)
                (length0 + numWidth)) as Htot.
  change (2 ^ 63) with 9223372036854775808 in Htot.
  cbn [Full.width Full.set_prec Full.set_flags] in Htot.
  specialize (Htot ltac:(lia) ltac:(lia)). destruct Htot as (H1 & H2 & Hsum' & _).
  destruct (Full.calc_space_padding _ _) as [ps1 ps2]. cbn [fst snd] in *.
  eexists. split; [reflexivity|].
  unfold field_count.
  cbn [Full.l_ps1 Full.l_pfx_s Full.l_pfx_n Full.l_pz Full.l_e_n Full.l_ps2].
  assert (Hpz : to_size_t (numWidth - (Zlen buf + ins)) = numWidth - (Zlen buf + ins))
    by (apply to_size_t_small; lia).
  rewrite Hpz.
  subst length0. destruct (has f Full.FHASH); cbv iota;
    [destruct (Z.eqb_spec pw' 0)|]; destruct (has flags2 Full.FZERO);
    rewrite ?to_size_t_small by lia; lia.
Qed.

(** X23: a numeric field is as wide as the width asks, or as the number
    itself when that is wider: the count a conversion returns is the larger
    of the width and the count the same conversion returns without a width,
    whatever the flags, the precision, the base and the grouping; it is the
    number of characters sent, and the same arguments are read. *)
Theorem X23_numeric_field_width (pspec : Full.T_FormatSpec) (code : ascii) (base : Z)
        (m m0 m' : machine S) (r0 r : Z) :
  0 <= Full.width pspec <= Full.MAXWIDTH -> Full.prec pspec <= Full.MAXPREC ->
  Full.do_conv_numeric S cons (Full.set_width pspec 0) code base m = Some (r0, m0) ->
  r0 <> EXBADFORMAT ->
  Full.do_conv_numeric S cons pspec code base m = Some (r, m') ->
  r <> EXBADFORMAT ->
  r = Z.max (Full.width pspec) r0
  /\ Zlen (text m') - Zlen (text m) = r
  /\ Zlen (text m0) - Zlen (text m) = r0
  /\ ap m' = ap m0.
Proof.
  unfold Full.MAXWIDTH, Full.MAXPREC. intros Hw Hp H0 Hr0 H Hr.
  destruct pspec as [n fl w pr b q rc g]. cbn [Full.width Full.prec] in *.
  change (Full.set_width (Full.mkSpec n fl w pr b q rc g) 0)
    with (Full.mkSpec n fl 0 pr b q rc g) in H0.
  unfold Full.do_conv_numeric in H0, H.
  run_bind_as H0 l0 mA E0. run_bind_as H l mB E.
  pose proof (gen_out_is_int S cons _ _ _ _ _ _ _ _ _ _ H0) as Hi0.
  pose proof (gen_out_is_int S cons _ _ _ _ _ _ _ _ _ _ H) as Hi.
  pose proof E0 as Hok0. apply numeric_layout_ok in Hok0 as [Hs0 Hok0].
  pose proof E as Hok. apply numeric_layout_ok in Hok as [Hs Hok].
  destruct (numeric_layout_any_width _ _ _ _ _ _ _ _ _ _ _ _ _ Hp Hw E)
    as (natural & Hnat & Hall).
  destruct (Hall w Hw) as (l1 & E1 & Hc1). rewrite E in E1. inversion E1; subst l1.
  destruct (Hall 0 ltac:(lia)) as (l2 & E2 & Hc2). rewrite E0 in E2.
  inversion E2; subst l2 mA. clear E1 E2.
  apply gen_layout_text in H0; [|apply Hok0..].
  apply gen_layout_text in H; [|apply Hok..].
  destruct H0 as [Ha0 [?|[Ht0 Hcnt0]]]; [contradiction|].
  destruct H as [Ha [?|[Ht Hcnt]]]; [contradiction|].
  rewrite <- (field_length l0) in Hc2, Hcnt0 by exact Hok0.
  rewrite <- (field_length l) in Hc1, Hcnt by exact Hok.
  assert (Htm : text mB = text m) by (unfold text; congruence).
  rewrite Htm in Ht, Ht0.
  assert (Hr0' : r0 = Zlen (field l0)).
  { unfold same_count, is_int in *. mlia. }
  assert (Hr' : r = Zlen (field l)).
  { unfold same_count, is_int in *. mlia. }
  split; [lia|]. split; [rewrite Ht, Zlen_app; lia|].
  split; [rewrite Ht0, Zlen_app; lia|congruence].
Qed.

End NumericWidth.

Lemma X23_numeric_field_width_witness :
  8 = Z.max (Full.width (Full.mkSpec 0 (Z.lor Full.F_IS_SIGNED Full.FZERO) 8 (-1) 0
                           NUL NUL [])) 3
  /\ Zlen (text (mkMachine (str "-0000042") [str "-"; str "00000"; str "42"] (@nil arg) []))
     - Zlen (text (mkMachine (@nil ascii) [] [AInt (-42)] [])) = 8
  /\ Zlen (text (mkMachine (str "-42") [str "-"; str "42"] (@nil arg) []))
     - Zlen (text (mkMachine (@nil ascii) [] [AInt (-42)] [])) = 3
  /\ ap (mkMachine (str "-0000042") [str "-"; str "00000"; str "42"] (@nil arg) [])
     = ap (mkMachine (str "-42") [str "-"; str "42"] (@nil arg) []).
Proof.
  apply (X23_numeric_field_width (list ascii) Full.bufwrite
           (Full.mkSpec 0 (Z.lor Full.F_IS_SIGNED Full.FZERO) 8 (-1) 0 NUL NUL [])
           "d"%char 10 (mkMachine [] [] [AInt (-42)] [])).
  - unfold Full.MAXWIDTH. simpl. lia.
  - unfold Full.MAXPREC. simpl. lia.
  - vm_compute. reflexivity.
  - unfold EXBADFORMAT. lia.
  - vm_compute. reflexivity.
  - unfold EXBADFORMAT. lia.
Defined.

(** ** The digit buffer of [format_fp.c] is never overrun *)

Lemma returns_ret {S A} (a : A) : returns (ret (S := S) a).
Proof. intros m. exists a, m. reflexivity. Qed.

Lemma returns_bind {S A B} (c : M S A) (k : A -> M S B) :
  returns c -> (forall a, returns (k a)) -> returns (bind c k).
Proof.
  intros Hc Hk m. destruct (Hc m) as (a & m1 & E). destruct (Hk a m1) as (b & m2 & E2).
  exists b, m2. unfold bind. now rewrite E.
Qed.

Lemma trim_zeros_range sigfig : forall mantissa,
  0 <= fst (Full.trim_zeros sigfig mantissa) <= Z.of_nat sigfig.
Proof.
  induction sigfig as [|s IH]; intros mantissa; cbn [Full.trim_zeros]; [cbn; lia|].
  destruct (negb (mantissa mod 10 =? 0)); [cbn [fst]; lia|].
  specialize (IH (mantissa / 10)). lia.
Qed.

Lemma si_scale_range fuel : forall idx e,
  e - 3 * Z.of_nat fuel <= snd (Fp.si_scale fuel idx e) <= e + 3 * Z.of_nat fuel.
Proof.
  induction fuel as [|fuel IH]; intros idx e; cbn [Fp.si_scale]; [cbn [snd]; lia|].
  destruct (_ && _); [|cbn [snd]; lia].
  destruct (Z.geb_spec e 3).
  - specialize (IH (idx + 1) (e - 3)). lia.
  - destruct (Z.ltb_spec e 0).
    + specialize (IH (idx - 1) (e + 3)). lia.
    + cbn [snd]. lia.
Qed.

Lemma strip_trailing_range fuel : forall n_right m,
  0 <= n_right -> 0 <= Full.strip_trailing fuel n_right m <= n_right.
Proof.
  induction fuel as [|fuel IH]; intros n_right m Hn; cbn [Full.strip_trailing]; [lia|].
  destruct (Z.gtb_spec n_right 0); cbn [andb]; [|lia].
  destruct (m mod 10 =? 0); [|lia].
  specialize (IH (n_right - 1) (m / 10)). lia.
Qed.

Section FpBuffer.

Variable S : Type.
Variable cons : S -> list ascii -> option S.

Lemma returns_emit s n : returns (Full.emit S cons s n).
Proof.
  intros m. unfold Full.emit. destruct (cons (sink m) (Full.bytes s n)); eauto.
Qed.

Lemma returns_orbad c k : returns c -> returns k -> returns (Full.orbad S c k).
Proof.
  intros Hc Hk. unfold Full.orbad. apply returns_bind; [exact Hc|].
  intros r. destruct (r <? 0); [apply returns_ret|exact Hk].
Qed.

Lemma returns_pad_loop fuel s : forall n, returns (Full.pad_loop S cons fuel s n).
Proof.
  induction fuel as [|fuel IH]; intros n; cbn [Full.pad_loop]; [apply returns_ret|].
  destruct (n >? 0); [|apply returns_ret].
  apply returns_orbad; [apply returns_emit|apply IH].
Qed.

Lemma returns_gen_out ps1 pfx_s pfx_n pz e_s e_n ps2 :
  returns (Full.gen_out S cons ps1 pfx_s pfx_n pz e_s e_n ps2).
Proof.
  unfold Full.gen_out, Full.pad.
  repeat (apply returns_orbad;
          [match goal with
           | |- returns (if ?b then _ else _) =>
               destruct b; first [apply returns_ret|apply returns_emit|apply returns_pad_loop]
           end|]; cbv zeta).
  apply returns_ret.
Qed.

Lemma returns_counted count c k :
  returns c -> (forall x, returns (k x)) -> returns (Full.counted S count c k).
Proof.
  intros Hc Hk. unfold Full.counted. apply returns_bind; [exact Hc|].
  intros n. destruct (n =? EXBADFORMAT); [apply returns_ret|apply Hk].
Qed.

Lemma returns_fp_mant_to_char m dt d :
  d <= Full.DEC_SIG_FIG -> returns (Fp.mant_to_char S m dt d).
Proof.
  intros Hd. unfold Fp.mant_to_char. destruct (Z.gtb_spec d Full.DEC_SIG_FIG); [lia|].
  apply returns_ret.
Qed.

Lemma returns_do_conv_efg pspec code sign mantissa exponent :
  Full.prec pspec <= 500 -> -2000 <= exponent <= 2000 ->
  returns (Fp.do_conv_efg S cons pspec code sign mantissa exponent).
Proof.
  intros Hp He. unfold Fp.do_conv_efg.
  destruct (Fp.efg_select pspec code exponent) as [[[code' flags] prec] really_g] eqn:Esel.
  assert (Hprec : prec <= 500).
  { unfold Fp.efg_select in Esel. destruct (_ || _) in Esel; inversion Esel; subst; [|lia].
    destruct (Full.prec pspec =? 0); lia. }
  clear Esel.
  set (is_f := Ascii.eqb code' "f" || Ascii.eqb code' "F").
  set (precd := if prec <? 0 then 6 else prec).
  assert (Hprecd : 0 <= precd <= 500) by (subst precd; destruct (Z.ltb_spec prec 0); lia).
  destruct (Fp.round_mantissa mantissa exponent precd is_f (has flags Full.FBANG))
    as [mant1 exp1] eqn:Er.
  assert (Hexp1 : -2000 <= exp1 <= 2001).
  { unfold Fp.round_mantissa in Er. destruct (_ >=? _) in Er; inversion Er; subst; [|lia].
    rewrite to_int_small by lia. lia. }
  clear Er.
  destruct (if negb (mant1 =? 0)
            then Full.trim_zeros (Z.to_nat Full.DEC_SIG_FIG) mant1
            else (0, mant1)) as [sigfig mant2] eqn:Et.
  assert (Hsig : 0 <= sigfig <= 16).
  { destruct (negb (mant1 =? 0)).
    - pose proof (trim_zeros_range (Z.to_nat Full.DEC_SIG_FIG) mant1) as Ht.
      rewrite Et in Ht. cbn [fst] in Ht. unfold Full.DEC_SIG_FIG in Ht. lia.
    - inversion Et; subst. lia. }
  clear Et.
  match goal with
  | |- returns (match ?t with _ => _ end) =>
      destruct t as [[si n_left] exp2] eqn:En
  end.
  assert (Hleft : -2100 <= exp2 <= 2100
                  /\ (is_f = true -> n_left = (if exp2 >? -1 then 1 + exp2 else 0))
                  /\ (is_f = false -> 1 <= n_left <= 3)).
  { destruct is_f.
    - destruct (has flags Full.FBANG).
      + pose proof (si_scale_range 17 (Zlen Fp.sitab / 2) exp1) as Hsi.
        destruct (Fp.si_scale 17 (Zlen Fp.sitab / 2) exp1) as [idx e2].
        cbn [snd] in Hsi. change (Z.of_nat 17) with 17 in Hsi.
        assert (E2 : n_left = if e2 >? -1 then to_int (1 + e2) else 0) by congruence.
        assert (E3 : exp2 = e2) by congruence. subst e2.
        split; [lia|]. split; [intros _|discriminate].
        rewrite E2. destruct (exp2 >? -1); [apply to_int_small; lia|reflexivity].
      + assert (E2 : n_left = if exp1 >? -1 then to_int (1 + exp1) else 0) by congruence.
        assert (E3 : exp2 = exp1) by congruence. subst exp2.
        split; [lia|]. split; [intros _|discriminate].
        rewrite E2. destruct (exp1 >? -1); [apply to_int_small; lia|reflexivity].
    - assert (Hrem : 0 <= (if Z.rem exp1 3 <? 0 then Z.rem exp1 3 + 3 else Z.rem exp1 3) <= 2).
      { pose proof (Z.rem_bound_abs exp1 3 ltac:(lia)) as Hb.
        destruct (Z.ltb_spec (Z.rem exp1 3) 0); lia. }
      destruct (has flags Full.FBANG).
      + assert (E2 : n_left = 1 + (if Z.rem exp1 3 <? 0 then Z.rem exp1 3 + 3
                                   else Z.rem exp1 3)) by congruence.
        assert (E3 : exp2 = to_int (exp1 - (if Z.rem exp1 3 <? 0 then Z.rem exp1 3 + 3
                                            else Z.rem exp1 3))) by congruence.
        rewrite E3, E2, to_int_small by lia.
        split; [lia|]. split; [discriminate|intros _; lia].
      + assert (E2 : n_left = 1) by congruence.
        assert (E3 : exp2 = exp1) by congruence.
        split; [lia|]. split; [discriminate|intros _; lia]. }
  clear En. destruct Hleft as (Hexp2 & Hleft_f & Hleft_e).
  set (pz3 := if is_f && (exp2 <? -1) && (precd >? 0)
              then to_size_t (MIN (to_int (-1 - exp2)) precd) else 0) in *.
  set (n0 := MIN (MAX (to_int (sigfig - n_left)) 0) precd) in *.
  set (n1 := if is_f && really_g
             then Full.strip_trailing (Z.to_nat n0) n0
                    (Full.strip_extra (Z.to_nat sigfig) sigfig (to_int (n_left + n0)) mant2)
             else n0) in *.
  set (tot := to_int (to_size_t (pz3 + n1))) in *.
  set (lt := (tot <? precd) && negb (really_g && negb (has flags Full.FHASH))) in *.
  set (x := if negb lt && is_f && (tot >? precd) then to_int (to_int pz3 + n1 - precd) else 0)
    in *.
  set (pz2 := if is_f && (n_left >? sigfig) then to_size_t (n_left - sigfig) else 0) in *.
  destruct (Full.calc_space_padding _ _) as [ps1 ps2].
  assert (Hnl : 0 <= n_left <= 2101).
  { destruct is_f.
    - rewrite (Hleft_f eq_refl). destruct (Z.gtb_spec exp2 (-1)); lia.
    - specialize (Hleft_e eq_refl). lia. }
  assert (Hn0 : 0 <= n0 <= 16).
  { subst n0. rewrite to_int_small by lia. unfold MIN, MAX.
    destruct (Z.gtb_spec (sigfig - n_left) 0);
      match goal with |- context [?a <? precd] => destruct (Z.ltb_spec a precd) end; lia. }
  assert (Hn1 : 0 <= n1 <= 16).
  { subst n1. destruct (is_f && really_g); [|exact Hn0].
    pose proof (strip_trailing_range (Z.to_nat n0) n0
                  (Full.strip_extra (Z.to_nat sigfig) sigfig (to_int (n_left + n0)) mant2)).
    lia. }
  assert (Hpz3 : 0 <= pz3 <= precd).
  { subst pz3. destruct is_f; cbn [andb]; [|lia].
    destruct (Z.ltb_spec exp2 (-1)); cbn [andb]; [|lia].
    destruct (Z.gtb_spec precd 0); [|lia].
    rewrite (to_int_small (-1 - exp2)) by lia. unfold MIN.
    destruct (Z.ltb_spec (-1 - exp2) precd); rewrite to_size_t_small by lia; lia. }
  assert (Hright : to_int (n1 - x) <= 16).
  { assert (Htot : tot = pz3 + n1).
    { subst tot. rewrite to_size_t_small, to_int_small by lia. reflexivity. }
    subst x. destruct (negb lt && is_f); cbn [andb].
    - destruct (Z.gtb_spec tot precd).
      + rewrite (to_int_small pz3) by lia.
        rewrite (to_int_small (pz3 + n1 - precd)) by lia.
        rewrite to_int_small by lia. lia.
      + rewrite Z.sub_0_r, to_int_small by lia. lia.
    - rewrite Z.sub_0_r, to_int_small by lia. lia. }
  assert (Hfirst : to_int (to_size_t (n_left - pz2)) <= 16).
  { subst pz2. destruct is_f eqn:Ef; cbn [andb].
    - destruct (Z.gtb_spec n_left sigfig).
      + rewrite (to_size_t_small (n_left - sigfig)) by lia.
        rewrite to_size_t_small, to_int_small by lia. lia.
      + rewrite Z.sub_0_r, to_size_t_small, to_int_small by lia. lia.
    - specialize (Hleft_e eq_refl).
      rewrite Z.sub_0_r, to_size_t_small, to_int_small by lia. lia. }
  clearbody pz3 n0 n1 tot lt x pz2.
  repeat first
    [ apply returns_ret
    | apply returns_gen_out
    | apply returns_fp_mant_to_char; unfold Full.DEC_SIG_FIG; lia
    | apply returns_counted; [|intros ?]
    | apply returns_bind; [|intros ?]
    | match goal with |- returns (if ?b then _ else _) => destruct b end ].
Qed.

(** X24: every floating point conversion of [format_fp.c] runs to its end,
    whatever the value, the flags and the width, for every precision up to
    MAXPREC: [mant_to_char] is never asked for more digits than the
    DEC_SIG_FIG characters of the buffer it fills. *)
Theorem X24_fp_digit_buffer (pspec : Full.T_FormatSpec) (code : ascii) (bits : Z)
        (rest : list arg) (m : machine S) :
  Full.prec pspec <= Full.MAXPREC ->
  0 <= bits < 2 ^ 64 ->
  ap m = ADouble bits :: rest ->
  exists r m', Fp.do_conv_fp S cons pspec code m = Some (r, m').
Proof.
  unfold Full.MAXPREC. intros Hp Hb Hap. unfold Fp.do_conv_fp.
  destruct (Ascii.eqb (Full.qual pspec) "L"); [eexists _, _; reflexivity|].
  unfold bind at 1, va_double, bind at 1, va_next. rewrite Hap.
  cbv iota beta. unfold ret at 1. cbv iota beta.
  rewrite (wrapu_small 64 bits) by exact Hb.
  pose proof (fp_radix_convert_cases bits Hb) as (_ & Hspecial & Hzero & Hnormal).
  destruct (fp_field_ranges bits Hb) as (Rm & Re & Rs).
  destruct (Fp.radix_convert bits) as [[sign mantissa] exponent]. cbn [fst snd] in *.
  assert (Hinfnan : forall mant e,
             returns (Full.do_conv_infnan S cons pspec code sign mant e)).
  { intros mant e. unfold Full.do_conv_infnan.
    destruct (Full.calc_space_padding _ _) as [ps1 ps2]. apply returns_gen_out. }
  destruct (Z.eq_dec (fp_exp bits) 2047) as [E1|E1].
  { destruct (Hspecial E1) as [_ ->].
    assert (Hs : Full.DEC_FP_IS_NAN mantissa INT_MAX || Full.DEC_FP_IS_INF mantissa INT_MAX
                 = true).
    { unfold Full.DEC_FP_IS_NAN, Full.DEC_FP_IS_INF. change (INT_MAX =? INT_MAX) with true.
      destruct (mantissa =? 0); reflexivity. }
    rewrite Hs. apply Hinfnan. }
  destruct (Full.DEC_FP_IS_NAN mantissa exponent || Full.DEC_FP_IS_INF mantissa exponent);
    [apply Hinfnan|].
  apply returns_do_conv_efg; [exact Hp|].
  destruct (Z.eq_dec (fp_exp bits) 0) as [E2|E2];
    [destruct (Z.eq_dec (fp_frac bits) 0) as [E3|E3]|].
  - destruct (Hzero E2 E3) as [_ ->]. lia.
  - destruct (Hnormal E1 (or_intror E3)) as [_ Hr]. rewrite E2 in Hr.
    change (0 =? 0) with true in Hr. cbv iota in Hr. lia.
  - destruct (Hnormal E1 (or_introl E2)) as [_ Hr].
    destruct (Z.eqb_spec (fp_exp bits) 0); [contradiction|]. lia.
Qed.

End FpBuffer.

Lemma X24_fp_digit_buffer_witness :
  exists r m',
    Fp.do_conv_fp (list ascii) Full.bufwrite (Full.mkSpec 0 0 0 19 0 NUL NUL []) "f"%char
      (mkMachine [] [] [ADouble 4562254508917369340] [])
    = Some (r, m').
Proof.
  apply (X24_fp_digit_buffer (list ascii) Full.bufwrite (Full.mkSpec 0 0 0 19 0 NUL NUL [])
           "f"%char 4562254508917369340 [] (mkMachine [] [] [ADouble 4562254508917369340] [])).
  - unfold Full.MAXPREC. simpl. lia.
  - lia.
  - reflexivity.
Defined.

(** * More on the specification parser of the full tier *)

(** ** Width through an argument *)

Lemma decimal_step_grows ds : forall v,
  forallb ISDIGIT ds = true -> 0 <= v ->
  v <= fold_left (fun v c => v * 10 + (code c - 48)) ds v.
Proof.
  induction ds as [|c ds IH]; intros v Hds Hv; cbn [fold_left]; [lia|].
  cbn [forallb] in Hds. apply andb_prop in Hds as [Hc Hds].
  destruct (digit_code c Hc) as [Rc _].
  specialize (IH (v * 10 + (code c - 48)) Hds). lia.
Qed.

(** A number that does not exceed the limit is read to its last digit. *)
Lemma full_parse_number_exact limit ds : forall rest v,
  0 < limit < 2147483648 ->
  forallb ISDIGIT ds = true -> 0 <= v ->
  fold_left (fun v c => v * 10 + (code c - 48)) ds v <= limit ->
  ISDIGIT (READ_CHAR rest) = false ->
  Full.parse_number limit (ds ++ rest) v
  = (fold_left (fun v c => v * 10 + (code c - 48)) ds v, rest).
Proof.
  induction ds as [|c ds IH]; intros rest v Hl Hds Hv Hle Hrest.
  - cbn [app fold_left]. destruct rest as [|c rest]; [reflexivity|].
    cbn [Full.parse_number]. cbn [READ_CHAR hd] in Hrest. rewrite Hrest.
    now rewrite andb_false_r.
  - cbn [forallb] in Hds. apply andb_prop in Hds as [Hc Hds].
    destruct (digit_code c Hc) as [Rc Hnul].
    cbn [app Full.parse_number fold_left] in *. rewrite Hc, Hnul. cbn [negb andb].
    pose proof (decimal_step_grows ds (v * 10 + (code c - 48)) Hds ltac:(lia)) as Hg.
    destruct (Z.ltb_spec v limit); [|lia].
    replace (v * 10 + code c - 48) with (v * 10 + (code c - 48)) by lia.
    rewrite to_int_small by lia.
    apply IH; try assumption; lia.
Qed.

Section StarWidth.

Variable S : Type.
Variable cons : S -> list ascii -> option S.
Variable fp : bool.

(** The specification parser after a width has been taken from an
    argument. *)
Lemma parse_spec_star n flags fl rest snk snt a args st :
  Full.parse_flags (fl ++ "*"%char :: rest) 0 = (flags, "*"%char :: rest) ->
  Full.parse_spec S n (fl ++ "*"%char :: rest) (mkMachine snk snt (AInt a :: args) st)
  = (if to_int a <? 0
     then (if to_int (- to_int a) >? Full.MAXWIDTH then ret Full.PBad
           else Full.parse_prec S n (Z.lor flags Full.FMINUS) (to_int (- to_int a)) rest)
     else (if to_int a >? Full.MAXWIDTH then ret Full.PBad
           else Full.parse_prec S n flags (to_int a) rest))
      (mkMachine snk snt args st).
Proof.
  intros Hfl. unfold Full.parse_spec. rewrite Hfl.
  cbv iota beta. cbn [READ_CHAR hd]. change (Ascii.eqb "*" "*") with true. cbv iota.
  unfold bind, va_int. unfold bind, va_next, ret. cbn [ap sink sent stores].
  cbv beta iota. destruct (to_int a <? 0); reflexivity.
Qed.

Lemma parse_spec_star_negative n rest snk snt w args st :
  0 < w < 2147483648 ->
  Full.parse_spec S n ("*"%char :: rest) (mkMachine snk snt (AInt (- w) :: args) st)
  = Full.parse_spec S n ("-"%char :: "*"%char :: rest)
      (mkMachine snk snt (AInt w :: args) st).
Proof.
  intros Hw.
  rewrite (parse_spec_star n 0 [] rest) by reflexivity.
  rewrite (parse_spec_star n Full.FMINUS ["-"%char] rest) by reflexivity.
  rewrite (to_int_small (- w)), (to_int_small w) by lia.
  destruct (Z.ltb_spec (- w) 0); [|lia]. destruct (Z.ltb_spec w 0); [lia|].
  replace (- - w) with w by lia. rewrite (to_int_small w) by lia. reflexivity.
Qed.

Lemma parse_spec_star_digits n d ds rest snk snt args st :
  is_nonzero_digit d = true -> forallb ISDIGIT ds = true ->
  decimal (d :: ds) <= Full.MAXWIDTH ->
  ISDIGIT (READ_CHAR rest) = false ->
  Full.parse_spec S n ("*"%char :: rest)
    (mkMachine snk snt (AInt (decimal (d :: ds)) :: args) st)
  = Full.parse_spec S n (d :: ds ++ rest) (mkMachine snk snt args st).
Proof.
  intros Hd Hds Hle Hrest.
  pose proof (nonzero_digit_is_digit d Hd) as Hd'.
  assert (Hpos : 0 < decimal (d :: ds)).
  { unfold decimal. cbn [fold_left].
    pose proof (decimal_step_grows ds (0 * 10 + (code d - 48)) Hds) as Hg.
    assert (1 <= code d - 48).
    { unfold is_nonzero_digit in Hd. apply andb_prop in Hd as [H1 _].
      apply Z.leb_le in H1. lia. }
    lia. }
  unfold Full.MAXWIDTH in *.
  rewrite (parse_spec_star n 0 [] rest) by reflexivity.
  rewrite (to_int_small (decimal (d :: ds))) by lia.
  destruct (Z.ltb_spec (decimal (d :: ds)) 0); [lia|].
  unfold Full.parse_spec. unfold Full.MAXWIDTH.
  rewrite full_parse_flags_digit by assumption.
  cbv iota beta. rewrite (digit_not_star d) by assumption. cbv iota.
  change (d :: ds ++ rest) with ((d :: ds) ++ rest).
  rewrite (full_parse_number_exact 500 (d :: ds) rest 0);
    [|lia|cbn [forallb]; rewrite Hd', Hds; reflexivity|lia|exact Hle|exact Hrest].
  fold (decimal (d :: ds)). reflexivity.
Qed.

(** X25: a width passed through [*] is the width written in the template:
    the specification is parsed as with the digits of the argument in the
    place of the star, and a negative argument is its magnitude with the
    [-] flag, so that a call with [%*] and the argument [-w] does what the
    call with [%-*] and the argument [w] does. *)
Theorem X25_star_width (parg : S) (d : ascii) (ds rest : cstr) (w : Z) (args : list arg) :
  is_nonzero_digit d = true -> forallb ISDIGIT ds = true ->
  decimal (d :: ds) <= Full.MAXWIDTH ->
  ISDIGIT (READ_CHAR rest) = false ->
  0 < w < 2147483648 ->
  (forall n snk snt st,
      Full.parse_spec S n ("*"%char :: rest)
        (mkMachine snk snt (AInt (decimal (d :: ds)) :: args) st)
      = Full.parse_spec S n (d :: ds ++ rest) (mkMachine snk snt args st))
  /\ (forall n snk snt st,
        Full.parse_spec S n ("*"%char :: rest) (mkMachine snk snt (AInt (- w) :: args) st)
        = Full.parse_spec S n ("-"%char :: "*"%char :: rest)
            (mkMachine snk snt (AInt w :: args) st))
  /\ (forall x,
        Full.format S cons fp parg (Some ("%"%char :: "*"%char :: rest)) (AInt (- w) :: args)
        = Some x ->
        Full.format S cons fp parg (Some ("%"%char :: "-"%char :: "*"%char :: rest))
          (AInt w :: args)
        = Some x).
Proof.
  intros Hd Hds Hle Hrest Hw. split; [|split].
  - intros. now apply parse_spec_star_digits.
  - intros. now apply parse_spec_star_negative.
  - intros x H. unfold Full.format, Full.format_fuel in *.
    eapply (format_loop_more_fuel S cons fp _
              (Datatypes.S (List.length ("%"%char :: "-"%char :: "*"%char :: rest)
                            + list_sum (map Full.arg_weight (AInt w :: args))))) in H.
    + rewrite format_loop_percent in *. unfold bind at 1 in H. unfold bind at 1.
      rewrite <- parse_spec_star_negative by exact Hw. exact H.
    + cbn [List.length map list_sum Full.arg_weight]. lia.
Qed.

End StarWidth.

Lemma X25_star_width_witness :
  (forall n snk snt st,
      Full.parse_spec (list ascii) n ("*"%char :: str "d")
        (mkMachine snk snt (AInt (decimal ("1"%char :: str "2")) :: [AInt 7]) st)
      = Full.parse_spec (list ascii) n ("1"%char :: str "2" ++ str "d")
          (mkMachine snk snt [AInt 7] st))
  /\ (forall n snk snt st,
        Full.parse_spec (list ascii) n ("*"%char :: str "d")
          (mkMachine snk snt (AInt (- 12) :: [AInt 7]) st)
        = Full.parse_spec (list ascii) n ("-"%char :: "*"%char :: str "d")
            (mkMachine snk snt (AInt 12 :: [AInt 7]) st))
  /\ (forall x,
        Full.format (list ascii) Full.bufwrite true [] (Some ("%"%char :: "*"%char :: str "d"))
          (AInt (- 12) :: [AInt 7])
        = Some x ->
        Full.format (list ascii) Full.bufwrite true []
          (Some ("%"%char :: "-"%char :: "*"%char :: str "d")) (AInt 12 :: [AInt 7])
        = Some x).
Proof.
  apply (X25_star_width (list ascii) Full.bufwrite true [] "1"%char (str "2") (str "d") 12
           [AInt 7]).
  - reflexivity.
  - reflexivity.
  - unfold Full.MAXWIDTH, decimal, str, code. cbn. lia.
  - reflexivity.
  - lia.
Defined.
(** ** The pointer conversion *)

Section DigitsCount.

Variable base : Z.
Variable digit : Z -> ascii.
Variable next : Z -> Z.
Hypothesis Hbase : 2 <= base.
Hypothesis Hnext : forall u, 0 < u -> next u = u / base.


End DigitsCount.




Section PointerLayout.

Variable S : Type.
Variable cons : S -> list ascii -> option S.


End PointerLayout.


